(** * Genesis Eleven: the safety pipeline (Validator and SandboxExecutor)

    A shallow embedding of the command validator (risk classifier, denylist
    matcher, per-step and per-plan aggregation), of the plan parser's
    structural checks and of the sandboxed executor (working-directory
    containment, child environment, timeout race), followed by the
    properties established about them.

    Conventions.
    - A JavaScript string is a [string]; its characters are the code units
      below 256 (Latin-1).  Every pattern of the program is ASCII.
    - [this.logger] calls are modelled as a list of emitted messages where a
      property speaks about them, and dropped elsewhere (they return nothing
      the program reads).
    - [timestamp] and [confidence] fields, which no property reads, are not
      part of the records. *)

From Stdlib Require Import Ascii ZArith Lia.
From stdpp Require Import gmap strings list pretty.

Open Scope string_scope.
Open Scope list_scope.
Open Scope nat_scope.

(** ** JavaScript string primitives *)

Module JsString.

(** [s.startsWith(p)] *)
Definition startsWith (s p : string) : bool := String.prefix p s.

(** [s.includes(sub)]: [sub] occurs somewhere in [s]. *)
Fixpoint includes (s sub : string) : bool :=
  String.prefix sub s ||
  match s with
  | EmptyString => false
  | String _ s' => includes s' sub
  end.

Definition chars (s : string) : list ascii := String.list_ascii_of_string s.
Definition of_chars (l : list ascii) : string := String.string_of_list_ascii l.

(** White space in the sense of [String.prototype.trim] and of [\s],
    restricted to code units below 256. *)
Definition is_space (c : ascii) : bool :=
  match N_of_ascii c with
  | 9%N | 10%N | 11%N | 12%N | 13%N | 32%N | 160%N => true
  | _ => false
  end.

Fixpoint trim_start (l : list ascii) : list ascii :=
  match l with
  | c :: l' => if is_space c then trim_start l' else l
  | [] => []
  end.

(** [s.trim()] *)
Definition trim (s : string) : string :=
  of_chars (rev (trim_start (rev (trim_start (chars s))))).

(** [s.split(/\s+/)] on a list of characters: [cur] is the field being
    read (reversed), [in_sep] tells that the previous character was a
    separator. *)
Fixpoint split_ws_aux (l : list ascii) (cur : list ascii) (in_sep : bool)
  : list string :=
  match l with
  | [] => [of_chars (rev cur)]
  | c :: l' =>
      if is_space c
      then if in_sep then split_ws_aux l' cur true
           else of_chars (rev cur) :: split_ws_aux l' [] true
      else split_ws_aux l' (c :: cur) false
  end.

Definition split_ws (s : string) : list string := split_ws_aux (chars s) [] false.

End JsString.

(** ** Regular expressions

    The fragment of ECMAScript regular expressions (flag [i], no flag [u])
    that the program's literals and default rules are written in.  [test]
    decides whether some substring matches, as [RegExp.prototype.test] does
    for a pattern without the global flag. *)

Module JsRegex.

Inductive class_item : Type :=
| IRange (lo hi : ascii)     (* a-z, or a single character as a-a *)
| ISpace                     (* \s *)
| IDigit                     (* \d *)
| IWord.                     (* \w *)

Inductive regex : Type :=
| Eps
| Lit (c : ascii)
| Dot
| Cls (negated : bool) (items : list class_item)
| WordB                      (* \b *)
| NotWordB                   (* \B *)
| Bol                        (* ^ *)
| Eol                        (* $ *)
| Cat (r1 r2 : regex)
| Alt (r1 r2 : regex)
| Star (r : regex).

Definition Plus (r : regex) : regex := Cat r (Star r).
Definition Opt (r : regex) : regex := Alt r Eps.

Definition code (c : ascii) : N := N_of_ascii c.

Definition in_range (lo hi c : ascii) : bool :=
  (code lo <=? code c)%N && (code c <=? code hi)%N.

Definition has_lower (c : ascii) : bool :=
  in_range "A" "Z" c ||
  (in_range (ascii_of_N 192) (ascii_of_N 222) c && negb (code c =? 215)%N).

Definition has_upper (c : ascii) : bool :=
  in_range "a" "z" c ||
  (in_range (ascii_of_N 224) (ascii_of_N 254) c && negb (code c =? 247)%N).

(** Canonicalize of the ignore-case matcher: the upper-case counterpart
    when it is a single code unit of the same range. *)
Definition canon (c : ascii) : ascii :=
  if has_upper c then ascii_of_N (code c - 32) else c.

Definition lower (c : ascii) : ascii :=
  if has_lower c then ascii_of_N (code c + 32) else c.

Definition is_digit (c : ascii) : bool := in_range "0" "9" c.

Definition is_word (c : ascii) : bool :=
  in_range "a" "z" c || in_range "A" "Z" c || is_digit c || Ascii.eqb c "_".

Definition is_line_terminator (c : ascii) : bool :=
  (code c =? 10)%N || (code c =? 13)%N.

(** Under flag [i] a range holds [c] when it holds a character with the
    canonical form of [c]: that form itself or its lower-case counterpart. *)
Definition item_matches (c : ascii) (it : class_item) : bool :=
  match it with
  | IRange lo hi => in_range lo hi (canon c) || in_range lo hi (lower (canon c))
  | ISpace => JsString.is_space c
  | IDigit => is_digit c
  | IWord => is_word c
  end.

Definition is_word_opt (o : option ascii) : bool :=
  match o with Some c => is_word c | None => false end.

(** Backtracking matcher in continuation-passing style.  [prev] is the
    character before the current position, [s] what remains; [k] receives
    the position reached.  An iteration of [Star] that consumes nothing is
    rejected, as in the language definition. *)
Fixpoint m (r : regex) (prev : option ascii) (s : list ascii)
    (k : option ascii -> list ascii -> bool) {struct r} : bool :=
  match r with
  | Eps => k prev s
  | Lit c =>
      match s with
      | d :: s' => if Ascii.eqb (canon c) (canon d) then k (Some d) s' else false
      | [] => false
      end
  | Dot =>
      match s with
      | d :: s' => if is_line_terminator d then false else k (Some d) s'
      | [] => false
      end
  | Cls neg items =>
      match s with
      | d :: s' =>
          if xorb neg (existsb (item_matches d) items) then k (Some d) s' else false
      | [] => false
      end
  | WordB => if xorb (is_word_opt prev) (is_word_opt (head s)) then k prev s else false
  | NotWordB => if xorb (is_word_opt prev) (is_word_opt (head s)) then false else k prev s
  | Bol => match prev with None => k prev s | Some _ => false end
  | Eol => match s with [] => k prev s | _ :: _ => false end
  | Cat r1 r2 => m r1 prev s (fun p t => m r2 p t k)
  | Alt r1 r2 => m r1 prev s k || m r2 prev s k
  | Star r1 =>
      (fix iter (n : nat) (p : option ascii) (t : list ascii) {struct n} : bool :=
         k p t ||
         match n with
         | O => false
         | S n' =>
             m r1 p t (fun p' t' =>
               if (length t' <? length t)%nat then iter n' p' t' else false)
         end) (length s) prev s
  end.

Definition match_here (r : regex) (prev : option ascii) (s : list ascii) : bool :=
  m r prev s (fun _ _ => true).

Fixpoint search (r : regex) (prev : option ascii) (s : list ascii) : bool :=
  match_here r prev s ||
  match s with
  | [] => false
  | c :: s' => search r (Some c) s'
  end.

(** [regex.test(str)] *)
Definition test (r : regex) (str : string) : bool :=
  search r None (JsString.chars str).

(** *** Reading a pattern: [new RegExp(pattern, 'i')]

    [compile] answers [None] where the constructor throws a SyntaxError
    (a quantifier with nothing to repeat, an unterminated group or class,
    a pattern ending in a backslash, a range out of order) and also for
    the constructs left out of the fragment (counted repetition,
    look-around, back-references, control, hexadecimal and Unicode escapes,
    complemented escapes inside a class). *)

Fixpoint skip_digits (s : list ascii) : list ascii :=
  match s with
  | c :: s' => if is_digit c then skip_digits s' else s
  | [] => []
  end.

(** What follows an opening brace reads as a counted repetition. *)
Definition is_brace_quantifier (s : list ascii) : bool :=
  match s with
  | c :: _ =>
      is_digit c &&
      match skip_digits s with
      | "}"%char :: _ => true
      | ","%char :: s2 =>
          match skip_digits s2 with "}"%char :: _ => true | _ => false end
      | _ => false
      end
  | [] => false
  end.

Definition control_escape (c : ascii) : option ascii :=
  match c with
  | "t"%char => Some (ascii_of_N 9)
  | "n"%char => Some (ascii_of_N 10)
  | "v"%char => Some (ascii_of_N 11)
  | "f"%char => Some (ascii_of_N 12)
  | "r"%char => Some (ascii_of_N 13)
  | _ => None
  end.

Definition outside_fragment (c : ascii) : bool :=
  match c with
  | "c"%char | "x"%char | "u"%char | "k"%char | "p"%char | "P"%char => true
  | _ => in_range "1" "9" c
  end.

(** After a backslash, outside a class.  The boolean tells whether the
    term may take a quantifier. *)
Definition p_escape (s : list ascii) : option (regex * bool * list ascii) :=
  match s with
  | [] => None
  | c :: s' =>
      match c with
      | "s"%char => Some (Cls false [ISpace], true, s')
      | "S"%char => Some (Cls true [ISpace], true, s')
      | "d"%char => Some (Cls false [IDigit], true, s')
      | "D"%char => Some (Cls true [IDigit], true, s')
      | "w"%char => Some (Cls false [IWord], true, s')
      | "W"%char => Some (Cls true [IWord], true, s')
      | "b"%char => Some (WordB, false, s')
      | "B"%char => Some (NotWordB, false, s')
      | "0"%char =>
          if is_digit (default " "%char (head s')) then None
          else Some (Lit (ascii_of_N 0), true, s')
      | _ =>
          match control_escape c with
          | Some d => Some (Lit d, true, s')
          | None => if outside_fragment c then None else Some (Lit c, true, s')
          end
      end
  end.

(** One member of a class: a character or a set. *)
Definition p_class_atom (s : list ascii) : option ((ascii + class_item) * list ascii) :=
  match s with
  | [] => None
  | "\"%char :: [] => None
  | "\"%char :: c :: s' =>
      match c with
      | "s"%char => Some (inr ISpace, s')
      | "d"%char => Some (inr IDigit, s')
      | "w"%char => Some (inr IWord, s')
      | "S"%char | "D"%char | "W"%char => None
      | "b"%char => Some (inl (ascii_of_N 8), s')
      | "0"%char =>
          if is_digit (default " "%char (head s')) then None
          else Some (inl (ascii_of_N 0), s')
      | _ =>
          match control_escape c with
          | Some d => Some (inl d, s')
          | None => if outside_fragment c then None else Some (inl c, s')
          end
      end
  | c :: s' => Some (inl c, s')
  end.

Definition item_of (a : ascii + class_item) : class_item :=
  match a with inl c => IRange c c | inr it => it end.

Fixpoint p_class_items (fuel : nat) (s : list ascii) (acc : list class_item)
  : option (list class_item * list ascii) :=
  match fuel with
  | O => None
  | S fuel' =>
      match s with
      | [] => None
      | "]"%char :: s' => Some (rev acc, s')
      | _ =>
          match p_class_atom s with
          | None => None
          | Some (a, s1) =>
              match s1 with
              | "-"%char :: "]"%char :: _ => p_class_items fuel' s1 (item_of a :: acc)
              | "-"%char :: s2 =>
                  match a, p_class_atom s2 with
                  | inl lo, Some (inl hi, s3) =>
                      if (code lo <=? code hi)%N
                      then p_class_items fuel' s3 (IRange lo hi :: acc)
                      else None
                  | _, _ => None
                  end
              | _ => p_class_items fuel' s1 (item_of a :: acc)
              end
          end
      end
  end.

(** After an opening bracket. *)
Definition p_class (s : list ascii) : option (regex * list ascii) :=
  let '(neg, s0) := match s with "^"%char :: s' => (true, s') | _ => (false, s) end in
  match p_class_items (S (length s0)) s0 [] with
  | Some (items, rest) => Some (Cls neg items, rest)
  | None => None
  end.

Definition skip_lazy (s : list ascii) : list ascii :=
  match s with "?"%char :: s' => s' | _ => s end.

Definition p_quant (a : regex) (quantifiable : bool) (s : list ascii)
  : option (regex * list ascii) :=
  match s with
  | "*"%char :: s' => if quantifiable then Some (Star a, skip_lazy s') else None
  | "+"%char :: s' => if quantifiable then Some (Plus a, skip_lazy s') else None
  | "?"%char :: s' => if quantifiable then Some (Opt a, skip_lazy s') else None
  | "{"%char :: s' => if is_brace_quantifier s' then None else Some (a, s)
  | _ => Some (a, s)
  end.

Fixpoint p_alt (fuel : nat) (s : list ascii) : option (regex * list ascii) :=
  match fuel with
  | O => None
  | S fuel' =>
      match p_seq fuel' s with
      | Some (r, "|"%char :: s') =>
          match p_alt fuel' s' with
          | Some (r2, s'') => Some (Alt r r2, s'')
          | None => None
          end
      | other => other
      end
  end
with p_seq (fuel : nat) (s : list ascii) : option (regex * list ascii) :=
  match fuel with
  | O => None
  | S fuel' =>
      match s with
      | [] => Some (Eps, [])
      | "|"%char :: _ | ")"%char :: _ => Some (Eps, s)
      | _ =>
          match p_atom fuel' s with
          | Some (a, q, s1) =>
              match p_quant a q s1 with
              | Some (a', s2) =>
                  match p_seq fuel' s2 with
                  | Some (Eps, s3) => Some (a', s3)
                  | Some (r, s3) => Some (Cat a' r, s3)
                  | None => None
                  end
              | None => None
              end
          | None => None
          end
      end
  end
with p_atom (fuel : nat) (s : list ascii) : option (regex * bool * list ascii) :=
  match fuel with
  | O => None
  | S fuel' =>
      match s with
      | [] => None
      | "("%char :: "?"%char :: ":"%char :: s' =>
          match p_alt fuel' s' with
          | Some (r, ")"%char :: s'') => Some (r, true, s'')
          | _ => None
          end
      | "("%char :: "?"%char :: _ => None
      | "("%char :: s' =>
          match p_alt fuel' s' with
          | Some (r, ")"%char :: s'') => Some (r, true, s'')
          | _ => None
          end
      | "["%char :: s' =>
          match p_class s' with
          | Some (r, s'') => Some (r, true, s'')
          | None => None
          end
      | "\"%char :: s' => p_escape s'
      | "*"%char :: _ | "+"%char :: _ | "?"%char :: _ => None
      | "."%char :: s' => Some (Dot, true, s')
      | "^"%char :: s' => Some (Bol, false, s')
      | "$"%char :: s' => Some (Eol, false, s')
      | c :: s' => Some (Lit c, true, s')
      end
  end.

(** [new RegExp(pattern, 'i')], [None] standing for the thrown error. *)
Definition compile (pattern : string) : option regex :=
  let s := JsString.chars pattern in
  match p_alt (4 * length s + 4) s with
  | Some (r, []) => Some r
  | _ => None
  end.

End JsRegex.

(** ** Risk levels *)

Inductive RiskLevel : Type := none | low | medium | high.

#[global] Instance RiskLevel_eq_dec : EqDecision RiskLevel.
Proof. solve_decision. Defined.

(** The order none < low < medium < high of the specification, by rank. *)
Definition rank (l : RiskLevel) : nat :=
  match l with none => 0 | low => 1 | medium => 2 | high => 3 end.

Definition risk_le (a b : RiskLevel) : Prop := rank a <= rank b.

(** The greater of two levels under that order. *)
Definition risk_max (a b : RiskLevel) : RiskLevel :=
  if rank a <=? rank b then b else a.

Definition risk_max_list (ls : list RiskLevel) : RiskLevel := foldr risk_max none ls.

(** JavaScript [x || d] for a string that may be absent: the empty string
    is falsy as well. *)
Definition str_or (o : option string) (d : string) : string :=
  match o with
  | Some s => if String.eqb s "" then d else s
  | None => d
  end.

(** ** Records of the validator *)

Module Step.
(** A step as the validator and the executor receive it: an instance of
    the [Step] class or a plain object, so [riskLevel] and
    [workingDirectory] may be absent.  [riskLevel] is one of the four
    level names of the plan format when it is present; a step that
    declares any other string is not represented. *)
Record t : Type := mk {
  id : string;
  description : string;
  command : string;
  requiresConfirmation : bool;
  riskLevel : option RiskLevel;
  workingDirectory : option string
}.
End Step.

Module ValidationResult.

(** The object literal handed to the constructor. *)
Record data : Type := mkData {
  d_stepId : string;
  d_command : string;
  d_allowed : option bool;
  d_riskLevel : option RiskLevel;
  d_warnings : option (list string);
  d_blockedReasons : option (list string);
  d_requiresConfirmation : option bool;
  d_suggestions : option (list string)
}.

Record t : Type := mk {
  stepId : string;
  command : string;
  allowed : bool;
  riskLevel : RiskLevel;
  warnings : list string;
  blockedReasons : list string;
  requiresConfirmation : bool;
  suggestions : list string
}.

(** [constructor(data)]: every [data.x || fallback]. *)
Definition new (d : data) : t :=
  {| stepId := d_stepId d;
     command := d_command d;
     allowed := default false (d_allowed d);
     riskLevel := default low (d_riskLevel d);
     warnings := default [] (d_warnings d);
     blockedReasons := default [] (d_blockedReasons d);
     requiresConfirmation := default false (d_requiresConfirmation d);
     suggestions := default [] (d_suggestions d) |}.

Definition set_allowed (b : bool) (r : t) : t :=
  {| stepId := stepId r; command := command r; allowed := b;
     riskLevel := riskLevel r; warnings := warnings r;
     blockedReasons := blockedReasons r;
     requiresConfirmation := requiresConfirmation r;
     suggestions := suggestions r |}.

Definition set_riskLevel (l : RiskLevel) (r : t) : t :=
  {| stepId := stepId r; command := command r; allowed := allowed r;
     riskLevel := l; warnings := warnings r;
     blockedReasons := blockedReasons r;
     requiresConfirmation := requiresConfirmation r;
     suggestions := suggestions r |}.

Definition set_requiresConfirmation (b : bool) (r : t) : t :=
  {| stepId := stepId r; command := command r; allowed := allowed r;
     riskLevel := riskLevel r; warnings := warnings r;
     blockedReasons := blockedReasons r;
     requiresConfirmation := b;
     suggestions := suggestions r |}.

(** [r.warnings.push(...ws)] and its siblings. *)
Definition push_warnings (ws : list string) (r : t) : t :=
  {| stepId := stepId r; command := command r; allowed := allowed r;
     riskLevel := riskLevel r; warnings := warnings r ++ ws;
     blockedReasons := blockedReasons r;
     requiresConfirmation := requiresConfirmation r;
     suggestions := suggestions r |}.

Definition push_blockedReasons (rs : list string) (r : t) : t :=
  {| stepId := stepId r; command := command r; allowed := allowed r;
     riskLevel := riskLevel r; warnings := warnings r;
     blockedReasons := blockedReasons r ++ rs;
     requiresConfirmation := requiresConfirmation r;
     suggestions := suggestions r |}.

Definition push_suggestions (ss : list string) (r : t) : t :=
  {| stepId := stepId r; command := command r; allowed := allowed r;
     riskLevel := riskLevel r; warnings := warnings r;
     blockedReasons := blockedReasons r;
     requiresConfirmation := requiresConfirmation r;
     suggestions := suggestions r ++ ss |}.

(** [blockedReasons.includes(reason)] *)
Definition has_reason (reason : string) (r : t) : bool :=
  existsb (String.eqb reason) (blockedReasons r).

(** [addBlockedReason(reason)]: a falsy (empty) or already present reason
    changes nothing. *)
Definition addBlockedReason (reason : string) (r : t) : t :=
  if negb (String.eqb reason "") && negb (has_reason reason r)
  then set_allowed false (push_blockedReasons [reason] r)
  else r.

Definition isHighRisk (r : t) : bool := bool_decide (riskLevel r = high).
Definition isBlocked (r : t) : bool := negb (allowed r).
Definition hasWarnings (r : t) : bool := negb (length (warnings r) =? 0)%nat.

End ValidationResult.

Module Denylist.
(** The parsed rule document; each list may be missing. *)
Record t : Type := mk {
  commands : option (list string);
  patterns : option (list string);
  highRisk : option (list string)
}.
End Denylist.

(** ** The validator (class [Validator]) *)

Module Validator.

Import JsRegex.

(** A regular-expression literal of the program, from its source text.
    Every literal below reads successfully ([literals_read]). *)
Definition literal (src : string) : regex := default (Cls false []) (compile src).

(** The pattern tests of [_analyzeRiskLevel], in source order. *)
Definition src_file_ops := "\b(rm|del|delete|mv|move)\b".
Definition src_file_destructive := "\b(rm\s+-rf|del\s+\/[qsf])\b".
Definition src_copy_ops := "\b(cp|copy)\b".
Definition src_system_ops := "\b(sudo|su|chmod|chown|systemctl|service)\b".
Definition src_network_ops := "\b(curl|wget|ssh|scp|rsync)\b".
Definition src_pipe_to_shell := "\|\s*(bash|sh|zsh|fish)\b".
Definition src_package_install := "\b(apt|yum|dnf|pacman|brew|npm|pip|gem)\s+(install|add)\b".
Definition src_process_ops := "\b(kill|killall|pkill)\b".
Definition src_kill_all := "kill\s+-9\s+-1".
Definition src_git_ops := "\bgit\s+(reset|clean)\b".
Definition src_git_destructive := "git\s+(reset\s+--hard|clean\s+-fd)".

Definition re_file_ops : regex := Eval vm_compute in literal src_file_ops.
Definition re_file_destructive : regex := Eval vm_compute in literal src_file_destructive.
Definition re_copy_ops : regex := Eval vm_compute in literal src_copy_ops.
Definition re_system_ops : regex := Eval vm_compute in literal src_system_ops.
Definition re_network_ops : regex := Eval vm_compute in literal src_network_ops.
Definition re_pipe_to_shell : regex := Eval vm_compute in literal src_pipe_to_shell.
Definition re_package_install : regex := Eval vm_compute in literal src_package_install.
Definition re_process_ops : regex := Eval vm_compute in literal src_process_ops.
Definition re_kill_all : regex := Eval vm_compute in literal src_kill_all.
Definition re_git_ops : regex := Eval vm_compute in literal src_git_ops.
Definition re_git_destructive : regex := Eval vm_compute in literal src_git_destructive.

(** [highRiskPatterns] of [_checkHighRiskOperations]. *)
Definition src_highRiskPatterns : list (string * string) :=
  [ ("\bformat\s+[A-Z]:", "Disk formatting operation");
    ("\bfdisk\b", "Disk partitioning operation");
    ("\bmkfs\b", "Filesystem creation operation");
    ("\bdd\s+if=.*of=\/dev\/", "Direct disk write operation");
    ("\bchmod\s+777\b", "Overly permissive file permissions");
    ("\brm\s+-rf\s+\/\b", "Root filesystem deletion attempt");
    ("\bshred\b", "Secure file deletion operation");
    ("\bwipe\b", "Disk wiping operation");
    (":\(\)\{\s*:\|\:&\s*\};:", "Fork bomb detected");
    ("while\s+true.*do", "Infinite loop detected") ].

Definition highRiskPatterns : list (regex * string) :=
  Eval vm_compute in map (fun '(src, warning) => (literal src, warning)) src_highRiskPatterns.

(** *** [_getHigherRiskLevel] *)

(** [const levels = { none: 0, low: 1, medium: 2, high: 3 }] *)
Definition levels (l : RiskLevel) : nat :=
  match l with none => 0 | low => 1 | medium => 2 | high => 3 end.

(** [n || 1]: zero is falsy. *)
Definition or_one (n : nat) : nat := if n =? 0 then 1 else n.

Definition _getHigherRiskLevel (level1 level2 : RiskLevel) : RiskLevel :=
  let value1 := or_one (levels level1) in
  let value2 := or_one (levels level2) in
  let maxValue := Nat.max value1 value2 in
  default low (List.find (fun key => levels key =? maxValue) [none; low; medium; high]).

(** *** [_analyzeRiskLevel] *)

Record RiskAnalysis : Type := mkRiskAnalysis {
  ra_level : RiskLevel;
  ra_warnings : list string
}.

Definition set_level (l : RiskLevel) (a : RiskAnalysis) : RiskAnalysis :=
  {| ra_level := l; ra_warnings := ra_warnings a |}.

(** [level = l; warnings.push(w)] *)
Definition set_level_warn (l : RiskLevel) (w : string) (a : RiskAnalysis) : RiskAnalysis :=
  {| ra_level := l; ra_warnings := ra_warnings a ++ [w] |}.

Definition _analyzeRiskLevel (command : string) : RiskAnalysis :=
  let a := {| ra_level := none; ra_warnings := [] |} in
  (* File operations *)
  let a :=
    if test re_file_ops command then
      let a := set_level low a in
      if test re_file_destructive command
      then set_level_warn high "Destructive file operation detected" a
      else a
    else a in
  (* Copy operations *)
  let a := if test re_copy_ops command then set_level low a else a in
  (* System operations *)
  let a :=
    if test re_system_ops command
    then set_level_warn high "System-level operation detected" a
    else a in
  (* Network operations *)
  let a :=
    if test re_network_ops command then
      let a := set_level medium a in
      if test re_pipe_to_shell command
      then set_level_warn high "Network download with shell execution detected" a
      else a
    else a in
  (* Package managers *)
  let a :=
    if test re_package_install command
    then set_level_warn medium "Package installation detected" a
    else a in
  (* Process operations *)
  let a :=
    if test re_process_ops command then
      let a := set_level medium a in
      if test re_kill_all command
      then set_level_warn high "System-wide process termination detected" a
      else a
    else a in
  (* Git operations *)
  let a :=
    if test re_git_ops command then
      let a := set_level medium a in
      if test re_git_destructive command
      then set_level_warn high "Destructive git operation detected" a
      else a
    else a in
  a.

(** *** [_checkHighRiskOperations] *)

Record HighRiskCheck : Type := mkHighRiskCheck {
  hr_isHighRisk : bool;
  hr_warnings : list string
}.

Definition flag_high (w : string) (h : HighRiskCheck) : HighRiskCheck :=
  {| hr_isHighRisk := true; hr_warnings := hr_warnings h ++ [w] |}.

Definition _checkHighRiskOperations (denylist : option Denylist.t) (command : string)
  : HighRiskCheck :=
  let h := {| hr_isHighRisk := false; hr_warnings := [] |} in
  let h :=
    foldl (fun h '(pattern, warning) =>
             if test pattern command then flag_high warning h else h)
          h highRiskPatterns in
  (* this.denylist?.highRisk *)
  match denylist with
  | Some dl =>
      match Denylist.highRisk dl with
      | Some risky =>
          foldl (fun h riskCmd =>
                   if JsString.includes command riskCmd
                   then flag_high ("High-risk operation: " +:+ riskCmd) h
                   else h)
                h risky
      | None => h
      end
  | None => h
  end.

(** *** [_generateSuggestions] *)

Definition push_if (b : bool) (x : string) (l : list string) : list string :=
  if b then l ++ [x] else l.

Definition _generateSuggestions (command : string) (riskLevel : RiskLevel) : list string :=
  let suggestions := [] in
  let suggestions :=
    if bool_decide (riskLevel = high) then
      let suggestions :=
        push_if (JsString.includes command "rm -rf")
                "Consider using a safer deletion method or backup first" suggestions in
      push_if (JsString.includes command "sudo")
              "Verify this system operation is necessary" suggestions
    else suggestions in
  let suggestions :=
    push_if (JsString.includes command "curl" && JsString.includes command "|")
            "Download and inspect scripts before executing" suggestions in
  push_if (JsString.includes command "chmod 777")
          "Use more restrictive permissions like 755 or 644" suggestions.

(** *** [_getDefaultDenylist] *)

Definition _getDefaultDenylist : Denylist.t :=
  {| Denylist.commands := Some
       [ "rm -rf /"; "rm -rf /*"; "rm -rf ~"; "rm -rf $HOME"; "dd if=/dev/zero";
         "mkfs"; "fdisk"; "parted"; "sudo rm"; "chmod 777"; "curl | bash";
         "wget | sh"; "format"; "del /q /s" ];
     Denylist.patterns := Some
       [ "rm\s+-rf\s+/"; "chmod\s+777\s+"; "\|\s*bash"; "\|\s*sh";
         ">/dev/sd[a-z]"; "format\s+[A-Z]:"; "del\s+/[qsf]" ];
     Denylist.highRisk := Some
       [ "git reset --hard"; "git clean -fd"; "docker system prune"; "npm ci";
         "mvn clean"; "gradle clean"; "truncate"; "shred" ] |}.

(** *** [_checkDenylist], [validateStep], [validatePlan]

    [RegExp] stands for the host's constructor [new RegExp(pattern, 'i')]
    applied to a rule of the denylist document: [None] when it throws. *)

Record DenylistCheck : Type := mkDenylistCheck {
  dl_allowed : bool;
  dl_reasons : list string
}.

(** [result.allowed = false; result.reasons.push(reason)] *)
Definition block (reason : string) (r : DenylistCheck) : DenylistCheck :=
  {| dl_allowed := false; dl_reasons := dl_reasons r ++ [reason] |}.

Record Summary : Type := mkSummary {
  totalSteps : nat;
  blockedSteps : nat;
  totalWarnings : nat;
  highRiskSteps : nat;
  confirmationRequired : nat;
  overallSafe : bool
}.

Record PlanValidation : Type := mkPlanValidation {
  pv_allowed : bool;
  pv_riskLevel : RiskLevel;
  pv_stepResults : list ValidationResult.t;
  pv_summary : Summary
}.

Definition _generateValidationSummary (results : list ValidationResult.t) : Summary :=
  let blocked := length (filter (fun r => negb (ValidationResult.allowed r) = true) results) in
  let warnings :=
    foldl (fun sum r => sum + length (ValidationResult.warnings r)) 0 results in
  let highRisk := length (filter (fun r => ValidationResult.riskLevel r = high) results) in
  let requiresConfirmation :=
    length (filter (fun r => ValidationResult.requiresConfirmation r = true) results) in
  {| totalSteps := length results;
     blockedSteps := blocked;
     totalWarnings := warnings;
     highRiskSteps := highRisk;
     confirmationRequired := requiresConfirmation;
     overallSafe := (blocked =? 0) && (highRisk =? 0) |}.

Section WithHost.

Variable RegExp : string -> option regex.

(** The loop over [denylist.commands]. *)
Definition check_commands (command : string) (cmds : list string)
    (result : DenylistCheck) : DenylistCheck :=
  foldl (fun result blockedCmd =>
           if JsString.includes command blockedCmd
           then block ("That command is blocked: " +:+ blockedCmd) result
           else result)
        result cmds.

(** The loop over [denylist.patterns]; the second component collects the
    messages given to [logger.warn] by the [catch] branch. *)
Definition check_patterns (command : string) (pats : list string)
    (st : DenylistCheck * list string) : DenylistCheck * list string :=
  foldl (fun '(result, log) pattern =>
           match RegExp pattern with
           | Some regex =>
               if test regex command
               then (block "Matches a dangerous pattern" result, log)
               else (result, log)
           | None => (result, log ++ ["Bad regex pattern: " +:+ pattern])
           end)
        st pats.

Definition _checkDenylist (denylist : option Denylist.t) (command : string)
  : DenylistCheck * list string :=
  let result := {| dl_allowed := true; dl_reasons := [] |} in
  match denylist with
  | None => (result, [])
  | Some dl =>
      (* Check for exact matches first *)
      let result :=
        match Denylist.commands dl with
        | Some cmds => check_commands command cmds result
        | None => result
        end in
      (* Then check patterns *)
      match Denylist.patterns dl with
      | Some pats => check_patterns command pats (result, [])
      | None => (result, [])
      end
  end.

(** The successive states of [result] inside [validateStep]. *)

Definition vs_new (step : Step.t) : ValidationResult.t :=
  ValidationResult.new
    {| ValidationResult.d_stepId := Step.id step;
       ValidationResult.d_command := Step.command step;
       ValidationResult.d_allowed := Some true;
       ValidationResult.d_riskLevel := Some (default low (Step.riskLevel step));
       ValidationResult.d_warnings := Some [];
       ValidationResult.d_blockedReasons := Some [];
       ValidationResult.d_requiresConfirmation := None;
       ValidationResult.d_suggestions := None |}.

Definition vs_denylist (denylist : option Denylist.t) (step : Step.t)
    (result : ValidationResult.t) : ValidationResult.t :=
  let denylistCheck := fst (_checkDenylist denylist (Step.command step)) in
  if negb (dl_allowed denylistCheck)
  then ValidationResult.push_blockedReasons (dl_reasons denylistCheck)
         (ValidationResult.set_allowed false result)
  else result.

Definition vs_risk (step : Step.t) (result : ValidationResult.t) : ValidationResult.t :=
  let riskAnalysis := _analyzeRiskLevel (Step.command step) in
  ValidationResult.push_warnings (ra_warnings riskAnalysis)
    (ValidationResult.set_riskLevel
       (_getHigherRiskLevel (ValidationResult.riskLevel result) (ra_level riskAnalysis))
       result).

Definition vs_highRisk (denylist : option Denylist.t) (step : Step.t)
    (result : ValidationResult.t) : ValidationResult.t :=
  let highRiskCheck := _checkHighRiskOperations denylist (Step.command step) in
  if hr_isHighRisk highRiskCheck
  then ValidationResult.set_requiresConfirmation true
         (ValidationResult.push_warnings (hr_warnings highRiskCheck)
            (ValidationResult.set_riskLevel
               (_getHigherRiskLevel (ValidationResult.riskLevel result) high)
               result))
  else result.

Definition vs_suggestions (step : Step.t) (result : ValidationResult.t)
  : ValidationResult.t :=
  ValidationResult.push_suggestions
    (_generateSuggestions (Step.command step) (ValidationResult.riskLevel result))
    result.

Definition validateStep (denylist : option Denylist.t) (step : Step.t)
  : ValidationResult.t :=
  let result := vs_new step in
  let result := vs_denylist denylist step result in
  let result := vs_risk step result in
  let result := vs_highRisk denylist step result in
  vs_suggestions step result.

(** The state of the loop of [validatePlan]:
    [results], [overallAllowed], [maxRiskLevel]. *)
Definition plan_loop (denylist : option Denylist.t)
    (st : list ValidationResult.t * bool * RiskLevel) (step : Step.t)
  : list ValidationResult.t * bool * RiskLevel :=
  let '(results, overallAllowed, maxRiskLevel) := st in
  let result := validateStep denylist step in
  (results ++ [result],
   if negb (ValidationResult.allowed result) then false else overallAllowed,
   _getHigherRiskLevel maxRiskLevel (ValidationResult.riskLevel result)).

Definition validatePlan (denylist : option Denylist.t) (steps : list Step.t)
  : PlanValidation :=
  let '(results, overallAllowed, maxRiskLevel) :=
    foldl (plan_loop denylist) ([], true, none) steps in
  {| pv_allowed := overallAllowed;
     pv_riskLevel := maxRiskLevel;
     pv_stepResults := results;
     pv_summary := _generateValidationSummary results |}.

End WithHost.

End Validator.

(** ** The plan parser ([Planner._parseAndValidatePlan])

    The checks made on the value that [JSON.parse] returns. *)

Module Planner.

#[local] Unset Elimination Schemes.

Inductive json : Type :=
| JNull
| JBool (b : bool)
| JNum (z : Z)
| JStr (s : string)
| JArr (items : list json)
| JObj (fields : list (string * json)).

#[local] Set Elimination Schemes.

(** A value read from a property: [None] is [undefined]. *)
Definition truthy (v : option json) : bool :=
  match v with
  | None | Some JNull => false
  | Some (JBool b) => b
  | Some (JNum z) => negb (z =? 0)%Z
  | Some (JStr s) => negb (String.eqb s "")
  | Some (JArr _) | Some (JObj _) => true
  end.

Fixpoint assoc (key : string) (fields : list (string * json)) : option json :=
  match fields with
  | [] => None
  | (k, v) :: rest => if String.eqb k key then Some v else assoc key rest
  end.

Inductive thrown : Type :=
| SyntaxError                    (* JSON.parse *)
| TypeError                      (* a property read on null *)
| InvalidStructure               (* 'Invalid plan structure: missing required fields (intent, steps)' *)
| EmptyPlan                      (* 'Invalid plan: must contain at least one step' *)
| InvalidStep (number : nat).    (* 'Invalid step N: missing required fields (id, command, description)' *)

(** [v.key] for one of the keys the parser reads: it throws on [null],
    is [undefined] on the other values that are not objects. *)
Definition get (v : json) (key : string) : thrown + option json :=
  match v with
  | JNull => inl TypeError
  | JObj fields => inr (assoc key fields)
  | _ => inr None
  end.

Fixpoint set_field (key : string) (v : json) (fields : list (string * json))
  : list (string * json) :=
  match fields with
  | [] => [(key, v)]
  | (k, w) :: rest =>
      if String.eqb k key then (k, v) :: rest else (k, w) :: set_field key v rest
  end.

(** [o.key = o.key ?? d] *)
Definition set_default (key : string) (d : json) (fields : list (string * json))
  : list (string * json) :=
  match assoc key fields with
  | None | Some JNull => set_field key d fields
  | Some _ => fields
  end.

(** The body of the [forEach] callback; [cwd] is [process.cwd()]. *)
Definition check_step (cwd : string) (index : nat) (step : json) : thrown + json :=
  match get step "id", get step "command", get step "description" with
  | inl e, _, _ => inl e
  | inr i, inr c, inr d =>
      if negb (truthy i) || negb (truthy c) || negb (truthy d)
      then inl (InvalidStep (index + 1))
      else
        match step with
        | JObj fields =>
            inr (JObj (set_default "workingDirectory" (JStr cwd)
                         (set_default "riskLevel" (JStr "low")
                            (set_default "requiresConfirmation" (JBool false) fields))))
        | other => inr other
        end
  | inr _, inl e, _ | inr _, inr _, inl e => inl e
  end.

Fixpoint check_steps (cwd : string) (index : nat) (steps : list json)
  : thrown + list json :=
  match steps with
  | [] => inr []
  | step :: rest =>
      match check_step cwd index step with
      | inl e => inl e
      | inr step' =>
          match check_steps cwd (index + 1) rest with
          | inl e => inl e
          | inr rest' => inr (step' :: rest')
          end
      end
  end.

(** [parsed] is what [JSON.parse(jsonStr)] gave, [None] when it threw.
    Whatever is thrown inside is caught and thrown again as one
    [Error('Failed to parse plan response: ...')]: the [inl] results. *)
Definition _parseAndValidatePlan (cwd : string) (parsed : option json) : thrown + json :=
  match parsed with
  | None => inl SyntaxError
  | Some planData =>
      match get planData "intent", get planData "steps" with
      | inl e, _ | _, inl e => inl e
      | inr intent, inr steps =>
          match steps with
          | Some (JArr items) =>
              if negb (truthy intent) then inl InvalidStructure
              else if length items =? 0 then inl EmptyPlan
              else
                match check_steps cwd 0 items, planData with
                | inl e, _ => inl e
                | inr items', JObj fields =>
                    inr (JObj (set_default "prerequisites" (JArr [])
                                 (set_default "estimatedDuration" (JStr "Unknown")
                                    (set_default "rollback"
                                       (JStr "No automatic rollback available")
                                       (set_default "riskLevel" (JStr "low")
                                          (set_field "steps" (JArr items') fields))))))
                | inr _, other => inr other
                end
          | _ => inl InvalidStructure
          end
      end
  end.

(** A step lacks one of [id], [command], [description]. *)
Definition missing_required (step : json) : bool :=
  match step with
  | JObj fields =>
      negb (truthy (assoc "id" fields)) || negb (truthy (assoc "command" fields))
      || negb (truthy (assoc "description" fields))
  | _ => true
  end.

Definition steps_of (planData : json) : option (list json) :=
  match planData with
  | JObj fields =>
      match assoc "steps" fields with
      | Some (JArr items) => Some items
      | _ => None
      end
  | _ => None
  end.

End Planner.

(** ** Paths ([path.resolve], [path.join], [path.normalize] on POSIX) *)

Module Posix.

Definition slash : ascii := "/"%char.

(** The segments between slashes. *)
Fixpoint split_slash (l : list ascii) (cur : list ascii) : list string :=
  match l with
  | [] => [JsString.of_chars (rev cur)]
  | c :: l' =>
      if Ascii.eqb c slash
      then JsString.of_chars (rev cur) :: split_slash l' []
      else split_slash l' (c :: cur)
  end.

Definition segments (p : string) : list string := split_slash (JsString.chars p) [].

(** [normalizeString]: drops empty and [.] segments and resolves [..];
    [acc] holds the kept segments, last first. *)
Fixpoint normalize_segments (allowAboveRoot : bool) (segs : list string)
    (acc : list string) : list string :=
  match segs with
  | [] => rev acc
  | seg :: rest =>
      if String.eqb seg "" || String.eqb seg "." then
        normalize_segments allowAboveRoot rest acc
      else if String.eqb seg ".." then
        match acc with
        | top :: acc' =>
            if String.eqb top ".."
            then normalize_segments allowAboveRoot rest (seg :: acc)
            else normalize_segments allowAboveRoot rest acc'
        | [] =>
            if allowAboveRoot
            then normalize_segments allowAboveRoot rest [seg]
            else normalize_segments allowAboveRoot rest []
        end
      else normalize_segments allowAboveRoot rest (seg :: acc)
  end.

Definition join_slash (segs : list string) : string :=
  match segs with
  | [] => ""
  | s :: rest => foldl (fun acc seg => acc +:+ "/" +:+ seg) s rest
  end.

Definition isAbsolute (p : string) : bool := JsString.startsWith p "/".

Definition ends_with_slash (p : string) : bool :=
  match rev (JsString.chars p) with
  | c :: _ => Ascii.eqb c slash
  | [] => false
  end.

Definition normalize (p : string) : string :=
  if String.eqb p "" then "."
  else
    let body := join_slash (normalize_segments (negb (isAbsolute p)) (segments p) []) in
    if String.eqb body "" then
      if isAbsolute p then "/" else if ends_with_slash p then "./" else "."
    else
      let body := if ends_with_slash p then body +:+ "/" else body in
      if isAbsolute p then "/" +:+ body else body.

(** [path.join(a, b)] *)
Definition join (a b : string) : string :=
  if String.eqb a "" then (if String.eqb b "" then "." else normalize b)
  else if String.eqb b "" then normalize a
  else normalize (a +:+ "/" +:+ b).

(** [path.resolve(p)] in a process whose current directory is the
    absolute path [cwd]. *)
Definition resolve (cwd : string) (p : string) : string :=
  let full :=
    if String.eqb p "" then cwd
    else if isAbsolute p then p
    else cwd +:+ "/" +:+ p in
  "/" +:+ join_slash (normalize_segments false (segments full) []).

(** [p] is [root] or lies below it, segment by segment. *)
Definition is_descendant (cwd : string) (root p : string) : bool :=
  let rs := normalize_segments false (segments (resolve cwd root)) [] in
  let ps := normalize_segments false (segments (resolve cwd p)) [] in
  bool_decide (rs `prefix_of` ps).

End Posix.

(** ** What the executor reads from its host ([process], [os], [path], [fs]) *)

Module Host.
Record t : Type := mk {
  platform : string;                       (* process.platform *)
  env : gmap string string;                (* the variables of process.env *)
  cwd : string;                            (* process.cwd() *)
  (* os.homedir() and os.tmpdir(), as functions of the lookup in the
     environment: both read it each time they are called. *)
  os_homedir : (string -> option string) -> string;
  os_tmpdir : (string -> option string) -> string;
  path_resolve : string -> string;         (* path.resolve *)
  path_join : string -> string -> string;  (* path.join *)
  (* fs.mkdir(p, { recursive: true }) and fs.access(p, R_OK | W_OK):
     the message of the error they reject with, if they do. *)
  fs_mkdir : string -> option string;
  fs_access : string -> option string
}.

(** The name of a variable without its case, as win32 compares names. *)
Definition fold_case (name : string) : string :=
  JsString.of_chars (map JsRegex.lower (JsString.chars name)).

(** [process.env[name]]: [None] is undefined.  On win32 the name is looked
    up without regard to case. *)
Definition getenv (h : t) (name : string) : option string :=
  if String.eqb (platform h) "win32"
  then
    match List.find (fun kv => String.eqb (fold_case (fst kv)) (fold_case name))
                    (map_to_list (env h)) with
    | Some kv => Some (snd kv)
    | None => None
    end
  else env h !! name.

(** [os.homedir()] and [os.tmpdir()] *)
Definition homedir (h : t) : string := os_homedir h (getenv h).
Definition tmpdir (h : t) : string := os_tmpdir h (getenv h).


(** [os.homedir()] on POSIX: [$HOME] when it is defined, otherwise the
    home directory of the account. *)
Definition posix_homedir (account_home : string) (lookup : string -> option string)
  : string :=
  default account_home (lookup "HOME").

(** [os.tmpdir()] on POSIX: the first of [$TMPDIR], [$TMP], [$TEMP] that is
    not empty, otherwise [/tmp]; one trailing slash is dropped from a path
    longer than one character. *)
Definition posix_tmpdir (lookup : string -> option string) : string :=
  let path :=
    str_or (lookup "TMPDIR") (str_or (lookup "TMP") (str_or (lookup "TEMP") "/tmp")) in
  if (1 <? String.length path) && Posix.ends_with_slash path
  then JsString.of_chars (removelast (JsString.chars path))
  else path.

(** A POSIX host on which every directory can be made and used;
    [account_home] is the home directory of the account. *)
Definition posix (e : gmap string string) (cwd account_home : string) : t :=
  {| platform := "linux"; env := e; cwd := cwd;
     os_homedir := posix_homedir account_home; os_tmpdir := posix_tmpdir;
     path_resolve := Posix.resolve cwd; path_join := Posix.join;
     fs_mkdir := fun _ => None; fs_access := fun _ => None |}.
End Host.

(** ** [ExecutionResult] *)

Module ExecutionResult.

Record data : Type := mkData {
  d_stepId : string;
  d_command : string;
  d_exitCode : Z;
  d_stdout : string;
  d_stderr : string;
  d_duration : Z;
  d_workingDirectory : string;
  d_success : bool;
  d_error : option string
}.

Record t : Type := mk {
  stepId : string;
  command : string;
  exitCode : Z;
  stdout : string;
  stderr : string;
  duration : Z;
  workingDirectory : string;
  success : bool;
  error : option string
}.

(** [constructor(data)]; [data.error || null] turns an empty message
    into [null]. *)
Definition new (d : data) : t :=
  {| stepId := d_stepId d;
     command := d_command d;
     exitCode := d_exitCode d;
     stdout := d_stdout d;
     stderr := d_stderr d;
     duration := d_duration d;
     workingDirectory := d_workingDirectory d;
     success := d_success d;
     error := match d_error d with
              | Some e => if String.eqb e "" then None else Some e
              | None => None
              end |}.

(** [isTimeout()]: [this.error && this.error.includes('timeout')] *)
Definition isTimeout (r : t) : bool :=
  match error r with
  | Some e => JsString.includes e "timeout"
  | None => false
  end.

End ExecutionResult.

(** ** The sandboxed executor (class [SandboxExecutor])

    [executeStep] is modelled on an executor whose [initialize()] has
    completed, as it has when [handleExecute] reaches the execution loop. *)

Module SandboxExecutor.

Record t : Type := mk {
  workDir : string;       (* this.workDir, the sandbox root *)
  timeout : N;            (* this.timeout, milliseconds *)
  maxMemoryMB : N
}.

(** What [this.config.get] finds under the three keys the constructor
    reads; [None] when it answers with the default value it is given. *)
Record Config : Type := mkConfig {
  sandbox_workdir : option string;
  sandbox_timeout : option N;
  sandbox_maxMemoryMB : option N
}.

(** [constructor()] *)
Definition new (h : Host.t) (config : Config) : t :=
  {| workDir :=
       default (Host.path_join h (Host.tmpdir h) "genesis-eleven-work")
               (sandbox_workdir config);
     timeout := default 30000%N (sandbox_timeout config);
     maxMemoryMB := default 512%N (sandbox_maxMemoryMB config) |}.

(** The options object given to [spawn]. *)
Record SpawnOptions : Type := mkSpawnOptions {
  so_cwd : string;
  so_stdio : list string;
  so_env : list (string * option string);   (* [None]: the value is undefined *)
  so_timeout : N;
  so_shell : bool
}.

(** What the executor does to the outside, in order. *)
Inductive effect : Type :=
| Mkdir (path : string)
| Access (path : string)
| Spawn (cmd : string) (args : list string) (options : SpawnOptions)
| Kill (signal : string)
| ClearTimeout.

Definition is_spawn (e : effect) : bool :=
  match e with Spawn _ _ _ => true | _ => false end.

(** What happens to a spawned child, in the order the event loop delivers
    it.  The spawn option [timeout] makes the host itself signal the child
    when the delay has passed, which is one way for [child.killed] to be
    set before the executor's own timer runs: [HostTimeoutKill]. *)
Inductive event : Type :=
| StdoutData (data : string)
| StderrData (data : string)
| Close (exitCode : option Z)          (* [None]: null, the child died of a signal *)
| ChildError (message : string)
| TimerFired                           (* the delay of [setTimeout] has passed *)
| HostTimeoutKill.

Record Child : Type := mkChild {
  events : list event;
  elapsed : Z                          (* Date.now() - startTime at completion *)
}.

Record RunResult : Type := mkRunResult {
  rr_exitCode : Z;
  rr_stdout : string;
  rr_stderr : string
}.

Inductive promise : Type :=
| Pending
| Resolved (value : RunResult)
| Rejected (message : string).

(** [resolve] and [reject] act on a pending promise only. *)
Definition settle (p new : promise) : promise :=
  match p with Pending => new | _ => p end.

Record run_state : Type := mkRunState {
  rs_promise : promise;
  rs_stdout : string;
  rs_stderr : string;
  rs_killed : bool;            (* child.killed *)
  rs_timer : bool;             (* the timer is set: neither run nor cleared *)
  rs_effects : list effect
}.

(** [exitCode || 0] *)
Definition exit_or_zero (exitCode : option Z) : Z := default 0%Z exitCode.

Definition timeout_message (ex : t) : string :=
  "Command timed out after " +:+ pretty (timeout ex) +:+ "ms".

(** The handlers registered by [_runCommand]. *)
Definition on_event (ex : t) (st : run_state) (ev : event) : run_state :=
  match ev with
  | StdoutData data =>
      {| rs_promise := rs_promise st; rs_stdout := rs_stdout st +:+ data;
         rs_stderr := rs_stderr st; rs_killed := rs_killed st;
         rs_timer := rs_timer st; rs_effects := rs_effects st |}
  | StderrData data =>
      {| rs_promise := rs_promise st; rs_stdout := rs_stdout st;
         rs_stderr := rs_stderr st +:+ data; rs_killed := rs_killed st;
         rs_timer := rs_timer st; rs_effects := rs_effects st |}
  | Close exitCode =>
      (* first handler: resolve; second handler: clearTimeout(timeoutId) *)
      {| rs_promise :=
           settle (rs_promise st)
             (Resolved {| rr_exitCode := exit_or_zero exitCode;
                          rr_stdout := JsString.trim (rs_stdout st);
                          rr_stderr := JsString.trim (rs_stderr st) |});
         rs_stdout := rs_stdout st; rs_stderr := rs_stderr st;
         rs_killed := rs_killed st; rs_timer := false;
         rs_effects := rs_effects st ++ [ClearTimeout] |}
  | ChildError message =>
      {| rs_promise :=
           settle (rs_promise st) (Rejected ("Command execution failed: " +:+ message));
         rs_stdout := rs_stdout st; rs_stderr := rs_stderr st;
         rs_killed := rs_killed st; rs_timer := rs_timer st;
         rs_effects := rs_effects st |}
  | TimerFired =>
      if rs_timer st then
        if negb (rs_killed st) then
          (* child.kill('SIGTERM'); reject(...) *)
          {| rs_promise := settle (rs_promise st) (Rejected (timeout_message ex));
             rs_stdout := rs_stdout st; rs_stderr := rs_stderr st;
             rs_killed := true; rs_timer := false;
             rs_effects := rs_effects st ++ [Kill "SIGTERM"] |}
        else
          {| rs_promise := rs_promise st; rs_stdout := rs_stdout st;
             rs_stderr := rs_stderr st; rs_killed := rs_killed st;
             rs_timer := false; rs_effects := rs_effects st |}
      else st
  | HostTimeoutKill =>
      {| rs_promise := rs_promise st; rs_stdout := rs_stdout st;
         rs_stderr := rs_stderr st; rs_killed := true;
         rs_timer := rs_timer st; rs_effects := rs_effects st |}
  end.

Definition run_events (ex : t) (evs : list event) (st : run_state) : run_state :=
  foldl (on_event ex) st evs.

(** [_parseCommand] *)
Definition _parseCommand (command : string) : option (string * list string) :=
  if String.eqb command "" then None
  else
    let trimmed := JsString.trim command in
    if String.eqb trimmed "" then None
    else
      match JsString.split_ws trimmed with
      | cmd :: args => Some (cmd, args)
      | [] => None
      end.

(** [_getSandboxEnvironment] *)
Definition _getSandboxEnvironment (h : Host.t) (ex : t) : list (string * option string) :=
  let safeEnv :=
    [ ("PATH", Host.getenv h "PATH");
      ("HOME", Some (workDir ex));
      ("TMPDIR", Some (Host.path_join h (workDir ex) "tmp"));
      ("USER", Some "genesis-eleven-user");
      ("SHELL", Some (str_or (Host.getenv h "SHELL") "/bin/bash"));
      ("LANG", Some (str_or (Host.getenv h "LANG") "en_US.UTF-8"));
      ("NODE_ENV", Some "sandbox") ] in
  (* Add platform-specific variables *)
  if String.eqb (Host.platform h) "win32" then
    safeEnv ++
    [ ("USERPROFILE", Some (workDir ex));
      ("TEMP", Some (Host.path_join h (workDir ex) "tmp"));
      ("TMP", Some (Host.path_join h (workDir ex) "tmp")) ]
  else safeEnv.

(** [_validateWorkingDirectory]: the message of the SandboxException it
    throws, if it does, and what it did to the file system. *)
Definition _validateWorkingDirectory (h : Host.t) (ex : t) (workingDir : string)
  : option string * list effect :=
  let wrap (message : string) := Some ("Invalid working directory: " +:+ message) in
  match Host.fs_mkdir h workingDir with
  | Some message => (wrap message, [Mkdir workingDir])
  | None =>
      let resolvedPath := Host.path_resolve h workingDir in
      let allowedPaths :=
        [ Host.path_resolve h (workDir ex);
          Host.path_resolve h (Host.cwd h);
          Host.path_resolve h (Host.homedir h);
          Host.path_resolve h (Host.tmpdir h) ] in
      let isAllowed :=
        existsb (fun allowedPath => JsString.startsWith resolvedPath allowedPath)
                allowedPaths in
      if negb isAllowed then
        (wrap ("Working directory not allowed: " +:+ workingDir), [Mkdir workingDir])
      else
        match Host.fs_access h resolvedPath with
        | Some message => (wrap message, [Mkdir workingDir; Access resolvedPath])
        | None => (None, [Mkdir workingDir; Access resolvedPath])
        end
  end.

(** Right after [spawn] and [setTimeout]: nothing read, the timer set. *)
Definition initial : run_state :=
  {| rs_promise := Pending; rs_stdout := ""; rs_stderr := "";
     rs_killed := false; rs_timer := true; rs_effects := [] |}.

(** [_runCommand]: the final state of the promise and the effects. *)
Definition _runCommand (h : Host.t) (ex : t) (child : Child)
    (command workingDir : string) : promise * list effect :=
  match _parseCommand command with
  | None => (Rejected "Invalid command format", [])
  | Some (cmd, args) =>
      let options :=
        {| so_cwd := workingDir;
           so_stdio := ["pipe"; "pipe"; "pipe"];
           so_env := _getSandboxEnvironment h ex;
           so_timeout := timeout ex;
           so_shell := String.eqb (Host.platform h) "win32" |} in
      let st := run_events ex (events child) initial in
      (rs_promise st, Spawn cmd args options :: rs_effects st)
  end.

(** The result built in the [catch] branch of [executeStep]. *)
Definition failed (ex : t) (step : Step.t) (message : string) : ExecutionResult.t :=
  ExecutionResult.new
    {| ExecutionResult.d_stepId := Step.id step;
       ExecutionResult.d_command := Step.command step;
       ExecutionResult.d_exitCode := (-1)%Z;
       ExecutionResult.d_stdout := "";
       ExecutionResult.d_stderr := message;
       ExecutionResult.d_duration := 0%Z;
       ExecutionResult.d_workingDirectory := str_or (Step.workingDirectory step) (workDir ex);
       ExecutionResult.d_success := false;
       ExecutionResult.d_error := Some message |}.

(** [executeStep]: the result it returns, [None] when the awaited promise
    never settles, and the effects. *)
Definition executeStep (h : Host.t) (ex : t) (child : Child) (step : Step.t)
  : option ExecutionResult.t * list effect :=
  let workingDir := str_or (Step.workingDirectory step) (workDir ex) in
  match _validateWorkingDirectory h ex workingDir with
  | (Some message, effects) => (Some (failed ex step message), effects)
  | (None, effects) =>
      match _runCommand h ex child (Step.command step) workingDir with
      | (Resolved result, effects') =>
          (Some (ExecutionResult.new
                   {| ExecutionResult.d_stepId := Step.id step;
                      ExecutionResult.d_command := Step.command step;
                      ExecutionResult.d_exitCode := rr_exitCode result;
                      ExecutionResult.d_stdout := rr_stdout result;
                      ExecutionResult.d_stderr := rr_stderr result;
                      ExecutionResult.d_duration := elapsed child;
                      ExecutionResult.d_workingDirectory := workingDir;
                      ExecutionResult.d_success := (rr_exitCode result =? 0)%Z;
                      ExecutionResult.d_error := None |}),
           effects ++ effects')
      | (Rejected message, effects') =>
          (Some (failed ex step message), effects ++ effects')
      | (Pending, effects') => (None, effects ++ effects')
      end
  end.

End SandboxExecutor.

(** ** Definitions used to state the properties *)

(** The validator as [handleExecute] builds it when no rule file is found:
    the host's regular expressions and the built-in rules. *)
Definition default_validateStep : Step.t -> ValidationResult.t :=
  Validator.validateStep JsRegex.compile (Some Validator._getDefaultDenylist).

Definition default_validatePlan : list Step.t -> Validator.PlanValidation :=
  Validator.validatePlan JsRegex.compile (Some Validator._getDefaultDenylist).

(** A step as the test suite writes it: id, command and description only. *)
Definition test_step (command : string) : Step.t :=
  {| Step.id := "test-step"; Step.description := "Test step";
     Step.command := command; Step.requiresConfirmation := false;
     Step.riskLevel := None; Step.workingDirectory := None |}.

Module RiskSpec.

Import JsRegex Validator.

(** The pattern tests of the classifier taken one by one, each with the
    level it contributes when it matches: the tests of [_analyzeRiskLevel]
    (an inner test counts when its group's test matches too) and the
    high-risk pass. *)
Definition rules (denylist : option Denylist.t) : list ((string -> bool) * RiskLevel) :=
  [ (test re_file_ops, low);
    (fun c => test re_file_ops c && test re_file_destructive c, high);
    (test re_copy_ops, low);
    (test re_system_ops, high);
    (test re_network_ops, medium);
    (fun c => test re_network_ops c && test re_pipe_to_shell c, high);
    (test re_package_install, medium);
    (test re_process_ops, medium);
    (fun c => test re_process_ops c && test re_kill_all c, high);
    (test re_git_ops, medium);
    (fun c => test re_git_ops c && test re_git_destructive c, high);
    (fun c => hr_isHighRisk (_checkHighRiskOperations denylist c), high) ].

(** Which rules a command triggers, by position. *)
Definition triggered (denylist : option Denylist.t) (command : string) : list bool :=
  map (fun rule => rule.1 command) (rules denylist).

(** The greatest contribution among the triggered rules. *)
Definition max_candidate (denylist : option Denylist.t) (command : string) : RiskLevel :=
  risk_max_list (map snd (List.filter (fun rule => rule.1 command) (rules denylist))).

(** Every rule triggered by [c] is triggered by [c'] as well. *)
Definition triggers_superset (denylist : option Denylist.t) (c c' : string) : bool :=
  forallb (fun rule => implb (rule.1 c) (rule.1 c')) (rules denylist).

(** The level the classifier reaches: [_analyzeRiskLevel], raised to high
    by the high-risk pass as [validateStep] does. *)
Definition classified (denylist : option Denylist.t) (command : string) : RiskLevel :=
  let level := ra_level (_analyzeRiskLevel command) in
  if hr_isHighRisk (_checkHighRiskOperations denylist command)
  then _getHigherRiskLevel level high
  else level.

End RiskSpec.

Module DenylistSpec.

Import JsRegex Validator.

Section WithHost.
Variable RegExp : string -> option regex.

(** The rule compiles. *)
Definition wellformed (pattern : string) : bool :=
  match RegExp pattern with Some _ => true | None => false end.

(** The rule set without its malformed patterns. *)
Definition wellformed_only (dl : Denylist.t) : Denylist.t :=
  {| Denylist.commands := Denylist.commands dl;
     Denylist.patterns := List.filter wellformed <$> Denylist.patterns dl;
     Denylist.highRisk := Denylist.highRisk dl |}.

(** A pattern compiles and matches the command. *)
Definition pattern_hits (command pattern : string) : bool :=
  match RegExp pattern with
  | Some regex => test regex command
  | None => false
  end.

(** Some rule of the set blocks the command. *)
Definition some_rule_blocks (dl : Denylist.t) (command : string) : bool :=
  existsb (JsString.includes command) (default [] (Denylist.commands dl))
  || existsb (pattern_hits command) (default [] (Denylist.patterns dl)).

(** The warnings due for the malformed patterns, in order. *)
Definition expected_warnings (dl : Denylist.t) : list string :=
  map (fun pattern => "Bad regex pattern: " +:+ pattern)
      (List.filter (fun p => negb (wellformed p)) (default [] (Denylist.patterns dl))).

End WithHost.

End DenylistSpec.

(** The executor's race and child environment, as the properties name them. *)

Module Race.

Import SandboxExecutor.

Definition is_close (e : event) : bool :=
  match e with Close _ => true | _ => false end.

Definition is_data (e : event) : bool :=
  match e with StdoutData _ | StderrData _ => true | _ => false end.

Definition is_rejected (p : promise) : bool :=
  match p with Rejected _ => true | _ => false end.

Definition is_resolved (p : promise) : bool :=
  match p with Resolved _ => true | _ => false end.

(** The promise after the events [evs] of a freshly spawned child. *)
Definition promise_after (ex : t) (evs : list event) : promise :=
  rs_promise (run_events ex evs initial).

End Race.

Module ChildEnv.

Import SandboxExecutor.


(** The keys of the record built for the child. *)
Definition keys (platform : string) : list string :=
  ["PATH"; "HOME"; "TMPDIR"; "USER"; "SHELL"; "LANG"; "NODE_ENV"]
  ++ (if String.eqb platform "win32" then ["USERPROFILE"; "TEMP"; "TMP"] else []).

End ChildEnv.

(** Sample hosts, executors, steps and plan documents. *)

Definition c2_host : Host.t :=
  Host.posix ∅ "/home/user/project" "/home/user".

Definition c2_executor : SandboxExecutor.t :=
  {| SandboxExecutor.workDir := "/tmp/genesis-eleven-work";
     SandboxExecutor.timeout := 30000;
     SandboxExecutor.maxMemoryMB := 512 |}.

Definition c2_step : Step.t :=
  {| Step.id := "step-1"; Step.description := "List files";
     Step.command := "ls -la"; Step.requiresConfirmation := false;
     Step.riskLevel := Some low; Step.workingDirectory := Some "/home/user2/data" |}.

(** The roots of the containment check. *)
Definition allowed_roots (h : Host.t) (ex : SandboxExecutor.t) : list string :=
  [SandboxExecutor.workDir ex; Host.cwd h; Host.homedir h; Host.tmpdir h].

Definition c3_step : Step.t :=
  {| Step.id := "step-1"; Step.description := "Wait";
     Step.command := "sleep 60"; Step.requiresConfirmation := false;
     Step.riskLevel := Some low; Step.workingDirectory := None |}.






(** The plan document of a request that needs no command. *)
Definition empty_plan_doc : Planner.json :=
  Planner.JObj [("intent", Planner.JStr "Nothing to do"); ("steps", Planner.JArr [])].

(** A plan whose second step has no command. *)
Definition incomplete_plan_doc : Planner.json :=
  Planner.JObj
    [ ("intent", Planner.JStr "Tidy up");
      ("steps", Planner.JArr
         [ Planner.JObj [ ("id", Planner.JStr "step-1");
                          ("description", Planner.JStr "List files");
                          ("command", Planner.JStr "ls -la") ];
           Planner.JObj [ ("id", Planner.JStr "step-2");
                          ("description", Planner.JStr "Remove them") ] ]) ].

(** ** Definitions for the further properties *)

(** In the result of the denylist check, [allowed] is lost exactly when a
    reason has been pushed. *)
Definition verdict_consistent (r : Validator.DenylistCheck) : Prop :=
  Validator.dl_allowed r = (length (Validator.dl_reasons r) =? 0).

(** A rule document with another highRisk list, and one with other
    literal rules and patterns. *)
Definition with_highRisk (risky : option (list string)) (dl : Denylist.t) : Denylist.t :=
  {| Denylist.commands := Denylist.commands dl;
     Denylist.patterns := Denylist.patterns dl;
     Denylist.highRisk := risky |}.

Definition with_rules (cmds pats : option (list string)) (dl : Denylist.t) : Denylist.t :=
  {| Denylist.commands := cmds;
     Denylist.patterns := pats;
     Denylist.highRisk := Denylist.highRisk dl |}.

(** Some group test of [_analyzeRiskLevel] matches the command. *)
Definition any_group_matches (command : string) : bool :=
  JsRegex.test Validator.re_file_ops command
  || JsRegex.test Validator.re_copy_ops command
  || JsRegex.test Validator.re_system_ops command
  || JsRegex.test Validator.re_network_ops command
  || JsRegex.test Validator.re_package_install command
  || JsRegex.test Validator.re_process_ops command
  || JsRegex.test Validator.re_git_ops command.

(** The warnings [_analyzeRiskLevel] can give. *)
Definition analysis_warnings : list string :=
  [ "Destructive file operation detected"; "System-level operation detected";
    "Network download with shell execution detected"; "Package installation detected";
    "System-wide process termination detected"; "Destructive git operation detected" ].

(** [_analyzeRiskLevel] as a function of the outcomes of its eleven tests. *)
Definition analyze_outcomes
    (file destructive copy system network pipe package process kill_all git git_hard : bool)
  : Validator.RiskAnalysis :=
  let a := {| Validator.ra_level := none; Validator.ra_warnings := [] |} in
  let a :=
    if file then
      let a := Validator.set_level low a in
      if destructive
      then Validator.set_level_warn high "Destructive file operation detected" a
      else a
    else a in
  let a := if copy then Validator.set_level low a else a in
  let a :=
    if system
    then Validator.set_level_warn high "System-level operation detected" a
    else a in
  let a :=
    if network then
      let a := Validator.set_level medium a in
      if pipe
      then Validator.set_level_warn high "Network download with shell execution detected" a
      else a
    else a in
  let a :=
    if package
    then Validator.set_level_warn medium "Package installation detected" a
    else a in
  let a :=
    if process then
      let a := Validator.set_level medium a in
      if kill_all
      then Validator.set_level_warn high "System-wide process termination detected" a
      else a
    else a in
  let a :=
    if git then
      let a := Validator.set_level medium a in
      if git_hard
      then Validator.set_level_warn high "Destructive git operation detected" a
      else a
    else a in
  a.

(** ** Further methods of the result records *)

Module ValidationResultMethods.

Import ValidationResult.

(** [addWarning(warning)] *)
Definition addWarning (warning : string) (r : t) : t :=
  if negb (String.eqb warning "") && negb (existsb (String.eqb warning) (warnings r))
  then push_warnings [warning] r
  else r.

(** [addSuggestion(suggestion)] *)
Definition addSuggestion (suggestion : string) (r : t) : t :=
  if negb (String.eqb suggestion "")
     && negb (existsb (String.eqb suggestion) (suggestions r))
  then push_suggestions [suggestion] r
  else r.

End ValidationResultMethods.

Module ExecutionResultMethods.

Import ExecutionResult.

(** The text appended to a cut output: a line feed and the notice. *)
Definition truncation_notice : string :=
  String (ascii_of_N 10) "... (output truncated)".

(** [_truncateOutput(output, maxLength = 500)] *)
Definition _truncateOutput (output : string) (maxLength : nat) : string :=
  if String.eqb output "" || (String.length output <=? maxLength)
  then output
  else String.substring 0 maxLength output +:+ truncation_notice.

(** [getFormattedOutput()]; an empty string is falsy. *)
Definition getFormattedOutput (r : t) : string :=
  if success r && negb (String.eqb (stdout r) "") then stdout r
  else if negb (success r) && negb (String.eqb (stderr r) "") then stderr r
  else
    match error r with
    | Some e => if String.eqb e "" then "No output" else e
    | None => "No output"
    end.

(** [hasOutput()] *)
Definition hasOutput (r : t) : bool :=
  negb (String.eqb (stdout r) "") || negb (String.eqb (stderr r) "").

End ExecutionResultMethods.

(** ** [SandboxExecutor.cleanup] *)

Module Cleanup.

(** What [cleanup] reads from the file system.  A [string + _] answer is
    the message of the error thrown, or the value. *)
Record fs : Type := mkFs {
  now : Z;                                   (* Date.now(), milliseconds *)
  tmp_exists : bool;                         (* _fileExists(tmpDir) *)
  readdir : string + list string;            (* fs.readdir(tmpDir) *)
  stat_mtime : string -> string + Z;         (* fs.stat(filePath).mtime.getTime() *)
  unlink : string -> option string           (* fs.unlink(filePath): the error, if any *)
}.

Inductive log : Type :=
| WarnFile (file message : string)           (* 'Failed to clean up file' *)
| InfoCompleted                              (* 'Sandbox cleanup completed' *)
| WarnFailed (message : string).             (* 'Sandbox cleanup failed' *)

(** The body of the loop for one file: the path it tried to unlink, if it
    did, and the warning, if the [catch] branch ran. *)
Definition clean_file (join : string -> string -> string) (f : fs)
    (tmpDir : string) (oneHourAgo : Z) (file : string)
  : option string * option log :=
  let filePath := join tmpDir file in
  match stat_mtime f filePath with
  | inl message => (None, Some (WarnFile file message))
  | inr mtime =>
      if (mtime <? oneHourAgo)%Z then
        match unlink f filePath with
        | Some message => (Some filePath, Some (WarnFile file message))
        | None => (Some filePath, None)
        end
      else (None, None)
  end.

(** [cleanup()]: the paths given to [fs.unlink], in order, and the log. *)
Definition cleanup (h : Host.t) (ex : SandboxExecutor.t) (f : fs)
  : list string * list log :=
  let tmpDir := Host.path_join h (SandboxExecutor.workDir ex) "tmp" in
  if tmp_exists f then
    match readdir f with
    | inl message => ([], [WarnFailed message])
    | inr files =>
        let oneHourAgo := (now f - 60 * 60 * 1000)%Z in
        let done := map (clean_file (Host.path_join h) f tmpDir oneHourAgo) files in
        (omap fst done, omap snd done ++ [InfoCompleted])
    end
  else ([], [InfoCompleted]).

(** A file of the scratch directory is due for deletion. *)
Definition is_old (h : Host.t) (ex : SandboxExecutor.t) (f : fs) (file : string) : bool :=
  match stat_mtime f (Host.path_join h (Host.path_join h (SandboxExecutor.workDir ex) "tmp") file) with
  | inr mtime => (mtime <? now f - 3600000)%Z
  | inl _ => false
  end.

(** Handling the file raised an error that the loop caught. *)
Definition file_fails (h : Host.t) (ex : SandboxExecutor.t) (f : fs) (file : string) : bool :=
  let path := Host.path_join h (Host.path_join h (SandboxExecutor.workDir ex) "tmp") file in
  match stat_mtime f path with
  | inl _ => true
  | inr mtime =>
      (mtime <? now f - 3600000)%Z
      && match unlink f path with Some _ => true | None => false end
  end.

Definition is_warn_file (l : log) : bool :=
  match l with WarnFile _ _ => true | _ => false end.

End Cleanup.

(** ** Names for the further properties of the executor *)

Module ExecFacts.

Import SandboxExecutor.

Definition is_kill (e : effect) : bool :=
  match e with Kill _ => true | _ => false end.

Definition is_clear (e : effect) : bool :=
  match e with ClearTimeout => true | _ => false end.

(** The event settles a pending promise whatever the state: the child
    closed or failed to run. *)
Definition is_settling (e : event) : bool :=
  match e with Close _ | ChildError _ => true | _ => false end.

Definition not_space (c : ascii) : bool := negb (JsString.is_space c).

(** The command holds nothing but white space (or nothing at all). *)
Definition is_blank (command : string) : bool :=
  forallb JsString.is_space (JsString.chars command).

(** The characters of [s.trim()]. *)
Definition trimmed (l : list ascii) : list ascii :=
  rev (JsString.trim_start (rev (JsString.trim_start l))).

(** The working directory [executeStep] settles on. *)
Definition workingDir_of (ex : t) (step : Step.t) : string :=
  str_or (Step.workingDirectory step) (workDir ex).

End ExecFacts.

(** Reading a list of effects from the left: a [Kill] comes after a
    [ClearTimeout]. *)
Fixpoint kill_after_clear (cleared : bool) (l : list SandboxExecutor.effect) : bool :=
  match l with
  | [] => false
  | SandboxExecutor.Kill _ :: l' => cleared || kill_after_clear cleared l'
  | SandboxExecutor.ClearTimeout :: l' => kill_after_clear true l'
  | _ :: l' => kill_after_clear cleared l'
  end.

Definition is_sigterm (e : SandboxExecutor.effect) : bool :=
  match e with
  | SandboxExecutor.Kill signal => String.eqb signal "SIGTERM"
  | _ => true
  end.

(** The timer is spent by its first run and by the first close: what the
    handlers keep true of the state. *)
Definition timer_inv (st : SandboxExecutor.run_state) : Prop :=
  length (List.filter ExecFacts.is_kill (SandboxExecutor.rs_effects st))
  + (if SandboxExecutor.rs_timer st then 1 else 0) <= 1
  /\ (existsb ExecFacts.is_clear (SandboxExecutor.rs_effects st) = true ->
      SandboxExecutor.rs_timer st = false)
  /\ forallb is_sigterm (SandboxExecutor.rs_effects st) = true
  /\ kill_after_clear false (SandboxExecutor.rs_effects st) = false
  /\ existsb SandboxExecutor.is_spawn (SandboxExecutor.rs_effects st) = false.

(** A scratch directory of four files: a fresh one, an old one, one that
    cannot be read, and an old one that cannot be removed. *)
Definition cleanup_sample : Cleanup.fs :=
  {| Cleanup.now := 10000000;
     Cleanup.tmp_exists := true;
     Cleanup.readdir := inr ["fresh"; "old"; "gone"; "locked"];
     Cleanup.stat_mtime := fun p =>
       if String.eqb p "/tmp/genesis-eleven-work/tmp/fresh" then inr 6400000%Z
       else if String.eqb p "/tmp/genesis-eleven-work/tmp/gone" then inl "ENOENT"
       else inr 6399999%Z;
     Cleanup.unlink := fun p =>
       if String.eqb p "/tmp/genesis-eleven-work/tmp/locked"
       then Some "EPERM" else None |}.

(** ** The API client's retry loop and key handling (class [GeminiClient]) *)

Module GeminiClient.

(** [s.toLowerCase()], on code units below 256. *)
Definition toLowerCase (s : string) : string :=
  JsString.of_chars (map JsRegex.lower (JsString.chars s)).

(** [s.split(',')] on a list of characters; [cur] is the field being read,
    last character first. *)
Fixpoint split_comma (l : list ascii) (cur : list ascii) : list string :=
  match l with
  | [] => [JsString.of_chars (rev cur)]
  | c :: l' =>
      if Ascii.eqb c ","%char
      then JsString.of_chars (rev cur) :: split_comma l' []
      else split_comma l' (c :: cur)
  end.

(** [keysConfig.split(',').map(key => key.trim()).filter(key => key)] *)
Definition parse_keys (keysConfig : string) : list string :=
  List.filter (fun key => negb (String.eqb key ""))
              (map JsString.trim (split_comma (JsString.chars keysConfig) [])).

(** The key list set up by [initialize()], or the message of the
    ApiException it throws when there is none. *)
Definition initialize_keys (keysConfig : string) : string + list string :=
  let apiKeys := parse_keys keysConfig in
  if length apiKeys =? 0
  then inl "Failed to initialize Gemini client: No API keys found. Please run: el config"
  else inr apiKeys.

Definition retryableErrors : list string :=
  [ "rate limit"; "quota exceeded"; "timeout"; "network error"; "service unavailable";
    "429"; "500"; "502"; "503"; "504" ].

Definition rotationTriggers : list string := [ "rate limit"; "quota exceeded"; "429" ].

(** [_isRetryableError(error)], on the error's message. *)
Definition _isRetryableError (message : string) : bool :=
  let errorMessage := toLowerCase message in
  existsb (fun retryableError => JsString.includes errorMessage retryableError)
          retryableErrors.

(** [_shouldRotateKey(error)]; [enableRotation] is the configured
    'gemini.enableRotation'. *)
Definition _shouldRotateKey (enableRotation : bool) (message : string) : bool :=
  let errorMessage := toLowerCase message in
  existsb (fun trigger => JsString.includes errorMessage trigger) rotationTriggers
  && enableRotation.

(** [_rotateKey()]: the new [currentKeyIndex] and the value returned. *)
Definition _rotateKey (nkeys currentKeyIndex : nat) : nat * bool :=
  if nkeys <=? 1 then (currentKeyIndex, false)
  else ((currentKeyIndex + 1) mod nkeys, true).

Inductive effect : Type :=
| Call (attempt keyIndex : nat)      (* await operation() *)
| Rotate (keyIndex : nat)            (* the key index was moved *)
| Sleep (ms : nat).                  (* await this._sleep(delay) *)

Inductive outcome (A : Type) : Type :=
| Returned (value : A)
| Rethrown (message : string)        (* an error that is not retryable *)
| GaveUp (message : string).         (* the ApiException after the last attempt *)

Arguments Returned {A} value.
Arguments Rethrown {A} message.
Arguments GaveUp {A} message.

Section Retry.

Context {A : Type}.

(** What [operation()] does on a given attempt with a given key: the
    message of the error it throws, or its value. *)
Variable operation : nat -> nat -> string + A.
Variable maxRetries : nat.              (* config 'gemini.maxRetries' *)
Variable nkeys : nat.                   (* this.apiKeys.length *)
Variable enableRotation : bool.

(** The loop [for (attempt = 0; attempt <= maxRetries; attempt++)] from
    [attempt] on, [remaining] iterations being left. *)
Fixpoint attempts (remaining attempt keyIndex : nat) (lastError : string)
  : outcome A * nat * list effect :=
  match remaining with
  | O =>
      (GaveUp ("API request failed after " +:+ pretty (maxRetries + 1)
               +:+ " attempts: " +:+ lastError),
       keyIndex, [])
  | S remaining' =>
      match operation attempt keyIndex with
      | inr value => (Returned value, keyIndex, [Call attempt keyIndex])
      | inl message =>
          if negb (_isRetryableError message)
          then (Rethrown message, keyIndex, [Call attempt keyIndex])
          else
            let '(keyIndex', rotated) :=
              if _shouldRotateKey enableRotation message
              then
                let '(k, moved) := _rotateKey nkeys keyIndex in
                (k, if moved then [Rotate k] else [])
              else (keyIndex, []) in
            let slept :=
              if attempt <? maxRetries then [Sleep (2 ^ attempt * 1000)] else [] in
            let '(o, k, effects) := attempts remaining' (S attempt) keyIndex' message in
            (o, k, Call attempt keyIndex :: rotated ++ slept ++ effects)
      end
  end.

(** [_executeWithRetry(operation)] started with key [keyIndex]: how it
    ends, the key index it leaves, and what it did. *)
Definition _executeWithRetry (keyIndex : nat) : outcome A * nat * list effect :=
  attempts (maxRetries + 1) 0 keyIndex "".

End Retry.

Definition calls (effects : list effect) : list (nat * nat) :=
  omap (fun e => match e with Call a k => Some (a, k) | _ => None end) effects.

Definition sleeps (effects : list effect) : list nat :=
  omap (fun e => match e with Sleep ms => Some ms | _ => None end) effects.

(** The exponential back-off: 1000, 2000, 4000, ... *)
Definition backoff (n : nat) : list nat := map (fun i => 2 ^ i * 1000) (seq 0 n).

End GeminiClient.

Module RetrySpec.

Import GeminiClient.

(** The call ended in an error that the loop retries. *)
Definition failed_retryably {A} (operation : nat -> nat -> string + A)
    (call : nat * nat) : bool :=
  match operation call.1 call.2 with
  | inl message => _isRetryableError message
  | inr _ => false
  end.

(** How [_executeWithRetry] may end after a last call that gave [result]. *)
Definition ends_as {A} (o : outcome A) (result : string + A) : Prop :=
  match o, result with
  | Returned v, inr v' => v = v'
  | Rethrown m, inl m' => m = m' /\ _isRetryableError m = false
  | GaveUp _, inl m' => _isRetryableError m' = true
  | _, _ => False
  end.

Definition is_gave_up {A} (o : outcome A) : bool :=
  match o with GaveUp _ => true | _ => false end.

(** [_rotateKey()] done [n] times over. *)
Fixpoint rotate_times (nkeys n keyIndex : nat) : nat :=
  match n with
  | O => keyIndex
  | S n' => rotate_times nkeys n' (fst (_rotateKey nkeys keyIndex))
  end.

End RetrySpec.

Module KeySpec.

Definition is_comma (c : ascii) : bool := Ascii.eqb c ","%char.

(** The characters that separate keys in 'gemini.apiKeys' or are trimmed
    away around them. *)
Definition key_separator (c : ascii) : bool := JsString.is_space c || is_comma c.

Definition not_comma (c : ascii) : bool := negb (is_comma c).

Definition not_separator (c : ascii) : bool := negb (key_separator c).

End KeySpec.

Module PlanSpec.

Import Planner.

(** Neither [undefined] nor [null]. *)
Definition defined (v : option json) : bool :=
  match v with
  | None | Some JNull => false
  | Some _ => true
  end.

(** [v.key] of a value that is not [null]. *)
Definition field (key : string) (v : json) : option json :=
  match v with
  | JObj fields => assoc key fields
  | _ => None
  end.

(** A step with its required fields and the optional ones filled in. *)
Definition complete_step (step : json) : bool :=
  negb (missing_required step)
  && defined (field "requiresConfirmation" step)
  && defined (field "riskLevel" step)
  && defined (field "workingDirectory" step).

(** Every field of [before] that is set is found unchanged in [after]. *)
Definition keeps_fields (before after : json) : Prop :=
  forall key v, field key before = Some v -> v <> JNull -> field key after = Some v.

End PlanSpec.

(** A plan with two steps, the second with a risk level of its own. *)
Definition complete_plan_doc : Planner.json :=
  Planner.JObj
    [ ("intent", Planner.JStr "Tidy up");
      ("steps", Planner.JArr
         [ Planner.JObj [ ("id", Planner.JStr "step-1");
                          ("description", Planner.JStr "List files");
                          ("command", Planner.JStr "ls -la") ];
           Planner.JObj [ ("id", Planner.JStr "step-2");
                          ("description", Planner.JStr "Remove the logs");
                          ("command", Planner.JStr "rm old.log");
                          ("riskLevel", Planner.JStr "high") ] ]);
      ("rollback", Planner.JNull) ].

(** ** The [execute] command ([handleExecute])

    The run from the point where [createPlan] has returned the plan; the
    console output is left out.  [executor.initialize()] has been awaited
    before the loop, so [executeStep] does not initialize again, and it
    catches what its own body throws: the [catch] branch of the loop is
    never taken.  The steps of a [Plan] are distinct objects, so
    [plan.steps.indexOf(step)] is the position of the step. *)

Module Execute.

Record Options : Type := mkOptions {
  planOnly : bool;        (* -p, --plan-only *)
  autoApprove : bool;     (* -y, --auto-approve *)
  verbose : bool          (* -v, --verbose *)
}.

(** What the user answers and what the host does during the run. *)
Record World : Type := mkWorld {
  proceed : bool;                           (* 'Look good? Should I go ahead?' *)
  continueExecution : nat -> bool;          (* 'That step failed. Keep going with the rest?',
                                               asked after the step at that position *)
  child : nat -> SandboxExecutor.Child;     (* the child spawned for the step at that position *)
  initialize_throws : bool                  (* executor.initialize() *)
}.

Inductive ending : Type :=
| Blocked                          (* 'Plan blocked by security policies' *)
| PlanOnly                         (* 'Just showing the plan' *)
| Cancelled                        (* 'No worries, cancelled.' *)
| SandboxFailed                    (* initialize threw: the outer catch, process.exit(1) *)
| Waiting                          (* an executeStep that never settles is awaited *)
| Finished (allSuccessful : bool). (* status 'success' or 'partial_failure' *)

(** The variables of the loop over [plan.steps]. *)
Record loop : Type := mkLoop {
  executionResults : list ExecutionResult.t;
  allSuccessful : bool;
  effects : list SandboxExecutor.effect;   (* what the calls of executeStep did *)
  asked : list nat;                        (* the positions after which the user was asked *)
  waiting : bool
}.

(** [for (const step of plan.steps)], from the step at position [index]
    on; [total] is [plan.steps.length]. *)
Fixpoint run_steps (h : Host.t) (ex : SandboxExecutor.t) (w : World)
    (total index : nat) (steps : list Step.t) (st : loop) : loop :=
  match steps with
  | [] => st
  | step :: rest =>
      match SandboxExecutor.executeStep h ex (child w index) step with
      | (None, effects') =>
          {| executionResults := executionResults st;
             allSuccessful := allSuccessful st;
             effects := effects st ++ effects';
             asked := asked st;
             waiting := true |}
      | (Some result, effects') =>
          let pushed (ok : bool) (asked' : list nat) :=
            {| executionResults := executionResults st ++ [result];
               allSuccessful := ok;
               effects := effects st ++ effects';
               asked := asked';
               waiting := false |} in
          if ExecutionResult.success result
          then run_steps h ex w total (S index) rest (pushed (allSuccessful st) (asked st))
          else if index <? total - 1
          then
            if continueExecution w index
            then run_steps h ex w total (S index) rest (pushed false (asked st ++ [index]))
            else pushed false (asked st ++ [index])
          else run_steps h ex w total (S index) rest (pushed false (asked st))
      end
  end.

(** [stepsRequiringConfirmation.length > 0 || highRiskSteps.length > 0] *)
Definition needs_confirmation (steps : list Step.t) (v : Validator.PlanValidation) : bool :=
  let stepsRequiringConfirmation := List.filter Step.requiresConfirmation steps in
  let highRiskSteps := List.filter ValidationResult.isHighRisk (Validator.pv_stepResults v) in
  (0 <? length stepsRequiringConfirmation) || (0 <? length highRiskSteps).

Record run : Type := mkRun {
  r_ending : ending;
  r_confirm_asked : bool;
  r_results : list ExecutionResult.t;
  r_effects : list SandboxExecutor.effect;
  r_continue_asked : list nat
}.

Definition stop (e : ending) (confirm_asked : bool) : run :=
  {| r_ending := e; r_confirm_asked := confirm_asked; r_results := [];
     r_effects := []; r_continue_asked := [] |}.

Section WithHost.

Variable RegExp : string -> option JsRegex.regex.
Variable denylist : option Denylist.t.
Variable h : Host.t.
Variable ex : SandboxExecutor.t.

Definition handleExecute (w : World) (options : Options) (steps : list Step.t) : run :=
  let validationResult := Validator.validatePlan RegExp denylist steps in
  if negb (Validator.pv_allowed validationResult) then stop Blocked false
  else if planOnly options then stop PlanOnly false
  else
    let confirm := negb (autoApprove options) && needs_confirmation steps validationResult in
    if confirm && negb (proceed w) then stop Cancelled true
    else if initialize_throws w then stop SandboxFailed confirm
    else
      let st := run_steps h ex w (length steps) 0 steps
                  {| executionResults := []; allSuccessful := true; effects := [];
                     asked := []; waiting := false |} in
      {| r_ending := if waiting st then Waiting else Finished (allSuccessful st);
         r_confirm_asked := confirm;
         r_results := executionResults st;
         r_effects := effects st;
         r_continue_asked := asked st |}.

End WithHost.

End Execute.

Module ExecuteSpec.

Import Execute.

(** After a step that gave [result] the loop goes on to the next one:
    the step worked, or it was the last one, or the user said so. *)
Definition goes_on (w : World) (total index : nat) (result : ExecutionResult.t) : bool :=
  ExecutionResult.success result || negb (index <? total - 1) || continueExecution w index.

(** The user is asked whether to keep going. *)
Definition asks (total index : nat) (result : ExecutionResult.t) : bool :=
  negb (ExecutionResult.success result) && (index <? total - 1).

End ExecuteSpec.

(** Three steps, the second of which fails; the user confirms the plan and
    declines to go on after the failure. *)
Definition execute_steps : list Step.t :=
  [test_step "ls -la"; test_step "cat missing.txt"; test_step "echo done"].

Definition execute_world : Execute.World :=
  {| Execute.proceed := true;
     Execute.continueExecution := fun _ => false;
     Execute.child := fun index =>
       SandboxExecutor.mkChild
         [SandboxExecutor.Close (Some (if index =? 0 then 0%Z else 1%Z))] 5;
     Execute.initialize_throws := false |}.

Definition execute_options : Execute.Options :=
  {| Execute.planOnly := false; Execute.autoApprove := false; Execute.verbose := false |}.

(** * Properties *)

(** ** Regular expressions and risk levels *)

Lemma literals_read :
  JsRegex.compile Validator.src_file_ops = Some Validator.re_file_ops /\
  JsRegex.compile Validator.src_file_destructive = Some Validator.re_file_destructive /\
  JsRegex.compile Validator.src_copy_ops = Some Validator.re_copy_ops /\
  JsRegex.compile Validator.src_system_ops = Some Validator.re_system_ops /\
  JsRegex.compile Validator.src_network_ops = Some Validator.re_network_ops /\
  JsRegex.compile Validator.src_pipe_to_shell = Some Validator.re_pipe_to_shell /\
  JsRegex.compile Validator.src_package_install = Some Validator.re_package_install /\
  JsRegex.compile Validator.src_process_ops = Some Validator.re_process_ops /\
  JsRegex.compile Validator.src_kill_all = Some Validator.re_kill_all /\
  JsRegex.compile Validator.src_git_ops = Some Validator.re_git_ops /\
  JsRegex.compile Validator.src_git_destructive = Some Validator.re_git_destructive /\
  map (fun '(src, w) => (JsRegex.compile src, w)) Validator.src_highRiskPatterns
    = map (fun '(r, w) => (Some r, w)) Validator.highRiskPatterns.
Proof. vm_compute. repeat split. Qed.

Lemma default_patterns_read :
  Forall (fun p => DenylistSpec.wellformed JsRegex.compile p = true)
         (default [] (Denylist.patterns Validator._getDefaultDenylist)).
Proof. repeat constructor. Qed.

(** The matcher on inputs that exercise the word boundary, the ignore-case
    flag on characters and on classes, and the dot that stops at a line end. *)

Example word_boundary_inside_word :
  JsRegex.test Validator.re_file_ops "format c:" = false
  /\ JsRegex.test Validator.re_file_ops "RM notes.txt" = true
  /\ JsRegex.test Validator.re_system_ops "sudoku" = false
  /\ JsRegex.test Validator.re_system_ops "su_do" = false.
Proof. vm_compute. repeat split. Qed.

Example high_risk_patterns_match :
  map (fun c => Validator.hr_warnings (Validator._checkHighRiskOperations None c))
      [ "format c:"; "dd if=/dev/zero  of=/dev/sda"; ":(){ :|:& };:";
        "while true; do date; done"; "rm -rf /"; "rm -rf /tmp/test" ]
  = [ ["Disk formatting operation"]; ["Direct disk write operation"];
      ["Fork bomb detected"]; ["Infinite loop detected"]; [];
      ["Root filesystem deletion attempt"] ].
Proof. vm_compute. reflexivity. Qed.

Example malformed_patterns :
  map JsRegex.compile ["("; "a)"; "*a"; "[a-"; "[z-a]"; "a\"] = [None; None; None; None; None; None].
Proof. vm_compute. reflexivity. Qed.

Lemma rank_levels l : Validator.levels l = rank l.
Proof. by destruct l. Qed.

Lemma risk_max_rank a b : rank (risk_max a b) = Nat.max (rank a) (rank b).
Proof. destruct a, b; reflexivity. Qed.

Lemma risk_max_none_l a : risk_max none a = a.
Proof. by destruct a. Qed.

Lemma risk_max_none_r a : risk_max a none = a.
Proof. by destruct a. Qed.

Lemma risk_max_assoc a b c : risk_max a (risk_max b c) = risk_max (risk_max a b) c.
Proof. destruct a, b, c; reflexivity. Qed.

Lemma risk_max_list_snoc ls x :
  risk_max_list (ls ++ [x]) = risk_max (risk_max_list ls) x.
Proof.
  unfold risk_max_list.
  induction ls as [|y ls IH]; simpl.
  - by rewrite risk_max_none_l, risk_max_none_r.
  - by rewrite IH, risk_max_assoc.
Qed.

(** [_getHigherRiskLevel] is the greater level, except that it never
    answers [none]: rank 0 is read as 1. *)
Lemma getHigherRiskLevel_max a b :
  Validator._getHigherRiskLevel a b = risk_max low (risk_max a b).
Proof. destruct a, b; reflexivity. Qed.

Lemma getHigherRiskLevel_ge_l a b : risk_le a (Validator._getHigherRiskLevel a b).
Proof. destruct a, b; unfold risk_le; simpl; lia. Qed.

Lemma getHigherRiskLevel_positive a b : 1 <= rank (Validator._getHigherRiskLevel a b).
Proof. destruct a, b; simpl; lia. Qed.

Lemma getHigherRiskLevel_exact a b :
  1 <= rank b -> Validator._getHigherRiskLevel a b = risk_max a b.
Proof. destruct a, b; simpl; intros; try reflexivity; lia. Qed.

Lemma getHigherRiskLevel_high a : Validator._getHigherRiskLevel a high = high.
Proof. by destruct a. Qed.

(** The cases of the specification's test list, on the default rules. *)

Example rm_rf_root_is_blocked :
  let r := default_validateStep (test_step "rm -rf /") in
  ValidationResult.allowed r = false /\ ValidationResult.riskLevel r = high
  /\ 1 <= length (ValidationResult.blockedReasons r).
Proof. vm_compute. repeat split; lia. Qed.

Example ls_is_allowed :
  let r := default_validateStep (test_step "ls -la") in
  ValidationResult.allowed r = true /\ ValidationResult.riskLevel r = low
  /\ ValidationResult.blockedReasons r = [].
Proof. vm_compute. repeat split. Qed.

Example sudo_rm_is_high_risk :
  let r := default_validateStep (test_step "sudo rm -rf /tmp/test") in
  ValidationResult.riskLevel r = high /\ 1 <= length (ValidationResult.warnings r)
  /\ ValidationResult.requiresConfirmation r = true.
Proof. vm_compute. repeat split; lia. Qed.

(** ** The risk classifier *)

(** C1 (the code departs from the claim).  The group tests of
    [_analyzeRiskLevel] assign [level] one after the other, so a later group
    replaces a higher level set by an earlier one.  The command
    [sudo curl http://example.com/x] triggers the system rule (high) and the
    network rule (medium) and is classified medium, below the greatest
    contribution of its rules; it triggers every rule that [sudo ls] does,
    and [sudo ls] is classified high. *)
Theorem C1_later_group_replaces_higher_level :
  let dl := Some Validator._getDefaultDenylist in
  let c := "sudo ls" in
  let c' := "sudo curl http://example.com/x" in
  Validator.ra_level (Validator._analyzeRiskLevel c') = medium
  /\ Validator.hr_isHighRisk (Validator._checkHighRiskOperations dl c') = false
  /\ RiskSpec.classified dl c' = medium
  /\ ValidationResult.riskLevel (default_validateStep (test_step c')) = medium
  /\ RiskSpec.triggered dl c'
     = [false; false; false; true; true; false; false; false; false; false; false; false]
  /\ RiskSpec.max_candidate dl c' = high
  /\ RiskSpec.triggered dl c
     = [false; false; false; true; false; false; false; false; false; false; false; false]
  /\ RiskSpec.triggers_superset dl c c' = true
  /\ RiskSpec.classified dl c = high.
Proof. vm_compute. repeat split. Qed.

(** ** Working-directory containment *)

(** Where the check does fail, nothing is spawned: when no resolved root is
    a string prefix of the resolved directory, [executeStep] returns a
    failed result and its effects hold no [Spawn]. *)
Lemma executeStep_rejects_unprefixed h ex child step :
  let workingDir := str_or (Step.workingDirectory step) (SandboxExecutor.workDir ex) in
  Host.fs_mkdir h workingDir = None ->
  existsb (fun root => JsString.startsWith (Host.path_resolve h workingDir)
                         (Host.path_resolve h root))
          (allowed_roots h ex) = false ->
  exists r effects,
    SandboxExecutor.executeStep h ex child step = (Some r, effects)
    /\ ExecutionResult.success r = false
    /\ existsb SandboxExecutor.is_spawn effects = false.
Proof.
  intros workingDir Hmk Hpre.
  unfold SandboxExecutor.executeStep, SandboxExecutor._validateWorkingDirectory.
  fold workingDir. rewrite Hmk.
  unfold allowed_roots in Hpre. cbn [existsb] in Hpre |- *.
  rewrite Hpre. cbn [negb].
  eexists _, _. repeat split; reflexivity.
Qed.

(** C2 (the code departs from the claim).  The containment test is
    [resolvedPath.startsWith(allowedPath)], a comparison of strings.  With
    home directory [/home/user], the directory [/home/user2/data] lies
    under none of the four roots, yet the check lets it through: the child
    is spawned there and the step is reported successful. *)
Theorem C2_sibling_of_a_root_is_spawned :
  let child := SandboxExecutor.mkChild [SandboxExecutor.Close (Some 0%Z)] 12 in
  forallb (fun root => negb (Posix.is_descendant (Host.cwd c2_host) root "/home/user2/data"))
          (allowed_roots c2_host c2_executor) = true
  /\ fst (SandboxExecutor._validateWorkingDirectory c2_host c2_executor "/home/user2/data")
     = None
  /\ exists r effects,
       SandboxExecutor.executeStep c2_host c2_executor child c2_step = (Some r, effects)
       /\ ExecutionResult.success r = true
       /\ existsb SandboxExecutor.is_spawn effects = true.
Proof.
  cbv zeta. split; [|split].
  - vm_compute. reflexivity.
  - vm_compute. reflexivity.
  - eexists _, _. split; [vm_compute; reflexivity|]. split; reflexivity.
Qed.

(** ** The timeout race *)

Module RaceFacts.

Import SandboxExecutor Race.

Lemma run_events_app ex evs1 evs2 st :
  run_events ex (evs1 ++ evs2) st = run_events ex evs2 (run_events ex evs1 st).
Proof. unfold run_events. apply foldl_app. Qed.

(** A settled promise keeps its state: at most one of [resolve] and
    [reject] ever decides the outcome. *)
Lemma on_event_settled ex st ev :
  rs_promise st <> Pending -> rs_promise (on_event ex st ev) = rs_promise st.
Proof.
  intros Hp. destruct ev; simpl; try reflexivity.
  - destruct (rs_promise st); [congruence | reflexivity | reflexivity].
  - destruct (rs_promise st); [congruence | reflexivity | reflexivity].
  - destruct (rs_timer st); [|reflexivity].
    destruct (rs_killed st); simpl; [reflexivity|].
    destruct (rs_promise st); [congruence | reflexivity | reflexivity].
Qed.

Lemma settled_once ex evs st :
  rs_promise st <> Pending -> rs_promise (run_events ex evs st) = rs_promise st.
Proof.
  revert st. induction evs as [|ev evs IH]; intros st Hp; [reflexivity|].
  cbn [run_events foldl]. fold (run_events ex evs (on_event ex st ev)).
  rewrite IH; rewrite on_event_settled; auto.
Qed.

(** Only a [Close] event resolves. *)
Lemma on_event_unresolved ex st ev :
  is_close ev = false -> is_resolved (rs_promise st) = false ->
  is_resolved (rs_promise (on_event ex st ev)) = false.
Proof.
  intros Hc Hr. destruct ev; simpl in *; try assumption; try discriminate.
  - destruct (rs_promise st); simpl in *; congruence.
  - destruct (rs_timer st); [|assumption].
    destruct (rs_killed st); simpl; [assumption|].
    destruct (rs_promise st); simpl in *; congruence.
Qed.

Lemma unresolved_without_close ex evs st :
  forallb (fun e => negb (is_close e)) evs = true ->
  is_resolved (rs_promise st) = false ->
  is_resolved (rs_promise (run_events ex evs st)) = false.
Proof.
  revert st. induction evs as [|ev evs IH]; intros st Hc Hr; [assumption|].
  cbn [forallb] in Hc. apply andb_prop in Hc as [Hev Hc].
  cbn [run_events foldl]. fold (run_events ex evs (on_event ex st ev)).
  apply IH; [assumption|].
  apply on_event_unresolved; [|assumption].
  by destruct (is_close ev).
Qed.

(** Output alone leaves the promise pending, the flag clear and the timer set. *)
Lemma data_only ex evs st :
  forallb is_data evs = true ->
  rs_promise (run_events ex evs st) = rs_promise st
  /\ rs_killed (run_events ex evs st) = rs_killed st
  /\ rs_timer (run_events ex evs st) = rs_timer st
  /\ rs_effects (run_events ex evs st) = rs_effects st.
Proof.
  revert st. induction evs as [|ev evs IH]; intros st Hd; [done|].
  cbn [forallb] in Hd. apply andb_prop in Hd as [Hev Hd].
  cbn [run_events foldl]. fold (run_events ex evs (on_event ex st ev)).
  destruct (IH (on_event ex st ev) Hd) as (-> & -> & -> & ->).
  destruct ev; simpl in *; try discriminate; done.
Qed.

(** The part of the race the code does decide as claimed: when the timer
    runs before the child closes, and nothing has flagged the child killed,
    the promise is rejected with the time-out message and SIGTERM is sent;
    a later [Close] changes nothing. *)
Lemma timer_first_rejects ex pre post :
  forallb is_data pre = true ->
  let st := run_events ex (pre ++ TimerFired :: post) initial in
  rs_promise st = Rejected (timeout_message ex)
  /\ Kill "SIGTERM" ∈ rs_effects st.
Proof.
  intros Hd st. subst st. rewrite run_events_app.
  destruct (data_only ex pre initial Hd) as (Hp & Hk & Ht & He).
  cbn [run_events foldl]. 
  fold (run_events ex post (on_event ex (run_events ex pre initial) TimerFired)).
  set (s1 := on_event ex (run_events ex pre initial) TimerFired).
  assert (Hs1 : rs_promise s1 = Rejected (timeout_message ex)
                /\ Kill "SIGTERM" ∈ rs_effects s1).
  { subst s1. unfold on_event. rewrite Ht, Hk, Hp, He. simpl. split; [done|].
    apply list_elem_of_here. }
  destruct Hs1 as [Hp1 He1]. split.
  - rewrite settled_once; [assumption|]. rewrite Hp1. discriminate.
  - clear Hp1. revert He1. generalize s1. clear.
    induction post as [|ev post IH]; intros s He; [assumption|].
    cbn [run_events foldl]. apply IH.
    destruct ev; simpl; try assumption.
    + apply elem_of_app. by left.
    + destruct (rs_timer s); [|assumption].
      destruct (rs_killed s); simpl; [assumption|].
      apply elem_of_app. by left.
Qed.

(** When the child closes first, the promise is resolved, the timer is
    cleared, and a later [TimerFired] neither rejects nor signals. *)
Lemma close_first_cancels_timer ex pre code post :
  forallb is_data pre = true ->
  let st := run_events ex (pre ++ Close code :: post) initial in
  is_resolved (rs_promise st) = true
  /\ rs_timer st = false
  /\ Kill "SIGTERM" ∉ rs_effects st.
Proof.
  intros Hd st. subst st. rewrite run_events_app.
  destruct (data_only ex pre initial Hd) as (Hp & Hk & Ht & He).
  cbn [run_events foldl].
  fold (run_events ex post (on_event ex (run_events ex pre initial) (Close code))).
  set (s1 := on_event ex (run_events ex pre initial) (Close code)).
  assert (Hs1 : is_resolved (rs_promise s1) = true /\ rs_timer s1 = false
                /\ Kill "SIGTERM" ∉ rs_effects s1).
  { subst s1. unfold on_event. simpl. rewrite Hp, He. simpl.
    repeat split. intros Hin. apply list_elem_of_singleton in Hin. discriminate. }
  revert Hs1. generalize s1. clear.
  induction post as [|ev post IH]; intros s (Hr & Ht & He); [done|].
  cbn [run_events foldl]. apply IH.
  destruct ev; simpl; rewrite ?Ht; try done.
  - repeat split.
    + destruct (rs_promise s); simpl in *; congruence.
    + intros Hin. apply elem_of_app in Hin as [Hin|Hin]; [by apply He|].
      apply list_elem_of_singleton in Hin. discriminate.
  - repeat split; try done. destruct (rs_promise s); simpl in *; congruence.
Qed.

End RaceFacts.

(** C3 (the code departs from the claim).  Two runs of a step whose timer
    runs before the child closes, with a time-out of 30000 ms.
    - The host has already signalled the child (the spawn option [timeout]),
      so [child.killed] is set when the timer runs: the callback neither
      signals nor rejects, the later close with a null exit code resolves the
      promise, and the timed-out step is reported with [success = true].
    - [child.killed] is clear when the timer runs: the step fails with
      [Command timed out after 30000ms] and SIGTERM is sent, but the
      result's own [isTimeout()], which looks for [timeout] in the message,
      answers false. *)
Theorem C3_timed_out_step_reported_successful :
  let run evs :=
    SandboxExecutor.executeStep c2_host c2_executor
      (SandboxExecutor.mkChild evs 30001) c3_step in
  (exists r effects,
     run [SandboxExecutor.HostTimeoutKill; SandboxExecutor.TimerFired;
          SandboxExecutor.Close None] = (Some r, effects)
     /\ ExecutionResult.success r = true
     /\ ExecutionResult.exitCode r = 0%Z
     /\ ExecutionResult.error r = None
     /\ SandboxExecutor.Kill "SIGTERM" ∉ effects)
  /\
  (exists r effects,
     run [SandboxExecutor.TimerFired; SandboxExecutor.Close None] = (Some r, effects)
     /\ ExecutionResult.success r = false
     /\ ExecutionResult.error r = Some "Command timed out after 30000ms"
     /\ SandboxExecutor.Kill "SIGTERM" ∈ effects
     /\ ExecutionResult.isTimeout r = false).
Proof.
  cbv zeta. split.
  - eexists _, _. split; [vm_compute; reflexivity|].
    repeat split. intros Hin.
    repeat (apply elem_of_cons in Hin as [Hin|Hin]; [discriminate|]).
    by apply not_elem_of_nil in Hin.
  - eexists _, _. split; [vm_compute; reflexivity|].
    repeat split. do 3 apply list_elem_of_further. apply list_elem_of_here.
Qed.

(** C10.  A step whose working directory passes the check and whose command
    parses has a child; when that child's close event carries a null exit
    code and the promise has not been rejected before, [executeStep]
    returns a result with exit code 0 and [success = true]. *)
Theorem C10_null_exit_code_reported_as_success
    (h : Host.t) (ex : SandboxExecutor.t) (step : Step.t)
    (pre post : list SandboxExecutor.event) (elapsed : Z) :
  fst (SandboxExecutor._validateWorkingDirectory h ex
         (str_or (Step.workingDirectory step) (SandboxExecutor.workDir ex))) = None ->
  SandboxExecutor._parseCommand (Step.command step) <> None ->
  forallb (fun e => negb (Race.is_close e)) pre = true ->
  Race.is_rejected (Race.promise_after ex pre) = false ->
  exists r,
    fst (SandboxExecutor.executeStep h ex
           (SandboxExecutor.mkChild (pre ++ SandboxExecutor.Close None :: post) elapsed)
           step) = Some r
    /\ ExecutionResult.exitCode r = 0%Z
    /\ ExecutionResult.success r = true.
Proof.
  intros Hval Hparse Hnc Hnr.
  unfold SandboxExecutor.executeStep.
  destruct (SandboxExecutor._validateWorkingDirectory _ _ _) as [v effects].
  simpl in Hval. subst v.
  unfold SandboxExecutor._runCommand.
  destruct (SandboxExecutor._parseCommand (Step.command step)) as [[cmd args]|];
    [|congruence].
  cbn [SandboxExecutor.events].
  rewrite RaceFacts.run_events_app.
  pose proof (RaceFacts.unresolved_without_close ex pre SandboxExecutor.initial Hnc eq_refl)
    as Hur.
  unfold Race.promise_after in Hnr.
  set (s := SandboxExecutor.run_events ex pre SandboxExecutor.initial) in *.
  assert (Hp : SandboxExecutor.rs_promise s = SandboxExecutor.Pending).
  { destruct (SandboxExecutor.rs_promise s); simpl in *; congruence. }
  cbn [SandboxExecutor.run_events foldl].
  fold (SandboxExecutor.run_events ex post
          (SandboxExecutor.on_event ex s (SandboxExecutor.Close None))).
  rewrite RaceFacts.settled_once.
  - simpl. rewrite Hp. simpl. eexists. repeat split.
  - simpl. rewrite Hp. simpl. discriminate.
Qed.

(** C10 at a run where the host signals the child, the timer callback
    finds [child.killed] set, and the child then closes with a null code. *)
Lemma C10_witness :
  exists r,
    fst (SandboxExecutor.executeStep c2_host c2_executor
           (SandboxExecutor.mkChild
              ([SandboxExecutor.StdoutData "working"; SandboxExecutor.HostTimeoutKill;
                SandboxExecutor.TimerFired]
               ++ SandboxExecutor.Close None :: []) 30002)
           c3_step) = Some r
    /\ ExecutionResult.exitCode r = 0%Z
    /\ ExecutionResult.success r = true.
Proof.
  apply (C10_null_exit_code_reported_as_success c2_host c2_executor c3_step
           [SandboxExecutor.StdoutData "working"; SandboxExecutor.HostTimeoutKill;
            SandboxExecutor.TimerFired] [] 30002).
  - vm_compute. reflexivity.
  - vm_compute. discriminate.
  - vm_compute. reflexivity.
  - vm_compute. reflexivity.
Defined.

(** ** The child environment *)

Module ChildEnvFacts.

Import SandboxExecutor ChildEnv.

Lemma run_events_no_spawn ex evs st :
  existsb is_spawn (rs_effects st) = false ->
  existsb is_spawn (rs_effects (run_events ex evs st)) = false.
Proof.
  revert st. induction evs as [|ev evs IH]; intros st Hs; [assumption|].
  cbn [run_events foldl]. apply IH.
  destruct ev; simpl; try assumption.
  - rewrite existsb_app, Hs. reflexivity.
  - destruct (rs_timer st); [|assumption].
    destruct (rs_killed st); simpl; [assumption|].
    rewrite existsb_app, Hs. reflexivity.
Qed.

Lemma validate_no_spawn h ex workingDir :
  existsb is_spawn (snd (_validateWorkingDirectory h ex workingDir)) = false.
Proof.
  unfold _validateWorkingDirectory.
  destruct (Host.fs_mkdir h workingDir); [reflexivity|].
  destruct (negb _); [reflexivity|].
  destruct (Host.fs_access h _); reflexivity.
Qed.

Lemma not_spawn_in (effects : list effect) cmd args o :
  existsb is_spawn effects = false -> Spawn cmd args o ∉ effects.
Proof.
  intros Hn Hin. apply not_true_iff_false in Hn. apply Hn.
  apply existsb_exists. exists (Spawn cmd args o). split; [|reflexivity].
  by apply list_elem_of_In.
Qed.





End ChildEnvFacts.




(** ** Per-step validation *)

Section StepValidation.

Import Validator.

Variable RegExp : string -> option JsRegex.regex.
Variable denylist : option Denylist.t.

Lemma vs_denylist_risk step r :
  ValidationResult.riskLevel (vs_denylist RegExp denylist step r)
  = ValidationResult.riskLevel r.
Proof. unfold vs_denylist. by destruct (negb _). Qed.

Lemma vs_risk_ge step r :
  risk_le (ValidationResult.riskLevel r) (ValidationResult.riskLevel (vs_risk step r)).
Proof. apply getHigherRiskLevel_ge_l. Qed.

Lemma vs_highRisk_ge step r :
  risk_le (ValidationResult.riskLevel r)
          (ValidationResult.riskLevel (vs_highRisk denylist step r)).
Proof.
  unfold vs_highRisk. destruct (hr_isHighRisk _); simpl.
  - apply getHigherRiskLevel_ge_l.
  - unfold risk_le. lia.
Qed.

Lemma vs_suggestions_risk step r :
  ValidationResult.riskLevel (vs_suggestions step r) = ValidationResult.riskLevel r.
Proof. reflexivity. Qed.

(** The level of a validated step is never [none]. *)
Lemma validateStep_risk_positive step :
  1 <= rank (ValidationResult.riskLevel (validateStep RegExp denylist step)).
Proof.
  unfold validateStep. cbv zeta. rewrite vs_suggestions_risk.
  set (r := vs_risk step _).
  assert (Hr : 1 <= rank (ValidationResult.riskLevel r))
    by apply getHigherRiskLevel_positive.
  pose proof (vs_highRisk_ge step r) as Hge. unfold risk_le in Hge. lia.
Qed.

Lemma vs_highRisk_confirmation step r :
  ValidationResult.requiresConfirmation r = false ->
  ValidationResult.requiresConfirmation (vs_highRisk denylist step r)
  = hr_isHighRisk (_checkHighRiskOperations denylist (Step.command step)).
Proof. intros Hr. unfold vs_highRisk. by destruct (hr_isHighRisk _). Qed.

Lemma vs_highRisk_level step r :
  hr_isHighRisk (_checkHighRiskOperations denylist (Step.command step)) = true ->
  ValidationResult.riskLevel (vs_highRisk denylist step r) = high.
Proof.
  intros Hh. unfold vs_highRisk. rewrite Hh. simpl. apply getHigherRiskLevel_high.
Qed.

End StepValidation.

(** C9.  A blocked reason that is appended, by [addBlockedReason] or by the
    denylist merge of [validateStep], leaves [allowed = false]; and each
    stage of [validateStep] leaves the risk level where it was or higher
    under none < low < medium < high, so the level returned is at least the
    level the result was constructed with. *)
Theorem C9_blocked_reason_blocks_and_risk_never_decreases
    (RegExp : string -> option JsRegex.regex) (denylist : option Denylist.t)
    (step : Step.t) (r : ValidationResult.t) (reason : string) :
  (ValidationResult.blockedReasons (ValidationResult.addBlockedReason reason r)
     <> ValidationResult.blockedReasons r ->
   ValidationResult.allowed (ValidationResult.addBlockedReason reason r) = false)
  /\ (ValidationResult.blockedReasons (Validator.vs_denylist RegExp denylist step r)
        <> ValidationResult.blockedReasons r ->
      ValidationResult.allowed (Validator.vs_denylist RegExp denylist step r) = false)
  /\ risk_le (ValidationResult.riskLevel r)
             (ValidationResult.riskLevel (Validator.vs_denylist RegExp denylist step r))
  /\ risk_le (ValidationResult.riskLevel r)
             (ValidationResult.riskLevel (Validator.vs_risk step r))
  /\ risk_le (ValidationResult.riskLevel r)
             (ValidationResult.riskLevel (Validator.vs_highRisk denylist step r))
  /\ risk_le (ValidationResult.riskLevel r)
             (ValidationResult.riskLevel (Validator.vs_suggestions step r))
  /\ risk_le (ValidationResult.riskLevel (Validator.vs_new step))
             (ValidationResult.riskLevel (Validator.validateStep RegExp denylist step)).
Proof.
  repeat split.
  - unfold ValidationResult.addBlockedReason.
    destruct (negb _ && negb _); [reflexivity | congruence].
  - unfold Validator.vs_denylist. destruct (negb _); [reflexivity | congruence].
  - rewrite vs_denylist_risk. unfold risk_le. lia.
  - apply vs_risk_ge.
  - apply vs_highRisk_ge.
  - unfold risk_le. rewrite vs_suggestions_risk. lia.
  - unfold Validator.validateStep. cbv zeta. rewrite vs_suggestions_risk.
    set (r0 := Validator.vs_new step).
    set (r1 := Validator.vs_denylist RegExp denylist step r0).
    pose proof (vs_denylist_risk RegExp denylist step r0) as H1. fold r1 in H1.
    pose proof (vs_risk_ge step r1) as H2.
    pose proof (vs_highRisk_ge denylist step (Validator.vs_risk step r1)) as H3.
    unfold risk_le in *. rewrite <- H1. lia.
Qed.

(** C9 at [rm -rf /] against the default rules. *)
Lemma C9_witness :
  ValidationResult.allowed
    (ValidationResult.addBlockedReason "Matches a dangerous pattern"
       (Validator.vs_new (test_step "rm -rf /"))) = false
  /\ ValidationResult.allowed
       (Validator.vs_denylist JsRegex.compile (Some Validator._getDefaultDenylist)
          (test_step "rm -rf /") (Validator.vs_new (test_step "rm -rf /"))) = false.
Proof.
  pose proof (C9_blocked_reason_blocks_and_risk_never_decreases JsRegex.compile
                (Some Validator._getDefaultDenylist) (test_step "rm -rf /")
                (Validator.vs_new (test_step "rm -rf /"))
                "Matches a dangerous pattern") as (Hadd & Hmerge & _).
  split.
  - apply Hadd. vm_compute. discriminate.
  - apply Hmerge. vm_compute. discriminate.
Defined.

(** C4 (the claim as stated fails).  A step declared with
    [requiresConfirmation = true] whose command is [ls -la] is returned with
    [requiresConfirmation = false]: the declared flag is not read. *)
Lemma C4_declared_flag_is_not_read :
  ~ (forall step : Step.t,
       ValidationResult.requiresConfirmation (default_validateStep step)
       = Step.requiresConfirmation step
         || bool_decide (ValidationResult.riskLevel (default_validateStep step) = high)).
Proof.
  intros H.
  specialize (H {| Step.id := "step-1"; Step.description := "List files";
                   Step.command := "ls -la"; Step.requiresConfirmation := true;
                   Step.riskLevel := Some none; Step.workingDirectory := None |}).
  vm_compute in H. discriminate.
Qed.

(** Nor does a high level alone set the flag: [sudo ls] is classified high
    by [_analyzeRiskLevel] and matches nothing of the high-risk pass. *)
Example high_level_without_confirmation :
  let r := default_validateStep (test_step "sudo ls") in
  ValidationResult.riskLevel r = high /\ ValidationResult.requiresConfirmation r = false.
Proof. vm_compute. split; reflexivity. Qed.

(** C4 (amended).  [requiresConfirmation] of the returned result is true
    exactly when the high-risk pass [_checkHighRiskOperations] matches the
    command, and then the returned risk level is high. *)
Theorem C4_confirmation_set_by_high_risk_pass
    (RegExp : string -> option JsRegex.regex) (denylist : option Denylist.t)
    (step : Step.t) :
  let r := Validator.validateStep RegExp denylist step in
  ValidationResult.requiresConfirmation r
  = Validator.hr_isHighRisk (Validator._checkHighRiskOperations denylist (Step.command step))
  /\ (ValidationResult.requiresConfirmation r = true -> ValidationResult.riskLevel r = high).
Proof.
  cbv zeta.
  assert (Hc : ValidationResult.requiresConfirmation
                 (Validator.validateStep RegExp denylist step)
               = Validator.hr_isHighRisk
                   (Validator._checkHighRiskOperations denylist (Step.command step))).
  { unfold Validator.validateStep. cbv zeta. cbn [Validator.vs_suggestions
      ValidationResult.push_suggestions ValidationResult.requiresConfirmation].
    apply vs_highRisk_confirmation.
    unfold Validator.vs_risk, Validator.vs_denylist. simpl.
    by destruct (negb _). }
  split; [exact Hc|].
  rewrite Hc. intros Hh.
  unfold Validator.validateStep. cbv zeta. rewrite vs_suggestions_risk.
  by apply vs_highRisk_level.
Qed.

(** C4 (amended) at [git reset --hard], a substring of the highRisk list. *)
Lemma C4_witness :
  ValidationResult.riskLevel (default_validateStep (test_step "git reset --hard")) = high.
Proof.
  apply (C4_confirmation_set_by_high_risk_pass JsRegex.compile
           (Some Validator._getDefaultDenylist) (test_step "git reset --hard")).
  vm_compute. reflexivity.
Defined.

(** ** Per-plan aggregation *)

Section PlanValidation.

Import Validator.

Variable RegExp : string -> option JsRegex.regex.
Variable denylist : option Denylist.t.

(** The loop of [validatePlan], from any state. *)
Lemma plan_loop_fold steps : forall results overallAllowed maxRiskLevel,
  foldl (plan_loop RegExp denylist) (results, overallAllowed, maxRiskLevel) steps
  = (results ++ map (validateStep RegExp denylist) steps,
     overallAllowed
     && forallb ValidationResult.allowed (map (validateStep RegExp denylist) steps),
     foldl _getHigherRiskLevel maxRiskLevel
           (map ValidationResult.riskLevel (map (validateStep RegExp denylist) steps))).
Proof.
  induction steps as [|step steps IH]; intros results overallAllowed maxRiskLevel.
  - simpl. by rewrite app_nil_r, andb_true_r.
  - cbn [foldl map forallb]. unfold plan_loop at 2. rewrite IH.
    rewrite <- app_assoc. cbn [app].
    destruct (ValidationResult.allowed (validateStep RegExp denylist step));
      cbn [negb andb]; [reflexivity|]. by rewrite andb_false_r.
Qed.

Lemma fold_higher_is_max (ls : list RiskLevel) : forall m,
  Forall (fun l => 1 <= rank l) ls ->
  foldl _getHigherRiskLevel m ls = risk_max m (risk_max_list ls).
Proof.
  induction ls as [|l ls IH]; intros m Hpos.
  - simpl. by rewrite risk_max_none_r.
  - inversion Hpos as [|? ? Hl Hls]; subst.
    cbn [foldl]. rewrite IH by assumption.
    rewrite getHigherRiskLevel_exact by assumption.
    unfold risk_max_list. simpl. by rewrite risk_max_assoc.
Qed.

Lemma step_levels_positive steps :
  Forall (fun l => 1 <= rank l)
         (map ValidationResult.riskLevel (map (validateStep RegExp denylist) steps)).
Proof.
  induction steps as [|step steps IH]; simpl; constructor; [|assumption].
  apply validateStep_risk_positive.
Qed.

End PlanValidation.

(** C6.  [validatePlan] returns the per-step results in the order of the
    steps, [allowed] is the conjunction of their [allowed] flags, and
    [riskLevel] is the greatest of their risk levels under
    none < low < medium < high ([none] for a plan without steps). *)
Theorem C6_plan_verdict_aggregates_step_verdicts
    (RegExp : string -> option JsRegex.regex) (denylist : option Denylist.t)
    (steps : list Step.t) :
  let pv := Validator.validatePlan RegExp denylist steps in
  Validator.pv_stepResults pv = map (Validator.validateStep RegExp denylist) steps
  /\ Validator.pv_allowed pv
     = forallb ValidationResult.allowed (Validator.pv_stepResults pv)
  /\ Validator.pv_riskLevel pv
     = risk_max_list (map ValidationResult.riskLevel (Validator.pv_stepResults pv)).
Proof.
  cbv zeta. unfold Validator.validatePlan.
  rewrite plan_loop_fold. simpl.
  repeat split.
  rewrite fold_higher_is_max by apply step_levels_positive.
  apply risk_max_none_l.
Qed.

(** ** The denylist matcher *)

Section DenylistCheck.

Import Validator DenylistSpec.

Variable RegExp : string -> option JsRegex.regex.

(** The loop over the literal rules: the reasons grow, and the verdict is
    lost exactly when a rule occurs in the command. *)
Lemma check_commands_allowed command cmds : forall result,
  dl_allowed (check_commands command cmds result)
  = dl_allowed result && negb (existsb (JsString.includes command) cmds).
Proof.
  unfold check_commands.
  induction cmds as [|c cmds IH]; intros result.
  - simpl. by rewrite andb_true_r.
  - cbn [foldl existsb]. rewrite IH.
    destruct (JsString.includes command c); simpl.
    + by rewrite andb_false_r.
    + reflexivity.
Qed.

(** The loop over the patterns, from any state: a malformed pattern adds
    its warning and nothing else, so the loop over all patterns ends in
    the result of the loop over the well-formed ones. *)
Lemma check_patterns_skip command pats : forall result log,
  check_patterns RegExp command pats (result, log)
  = (fst (check_patterns RegExp command (List.filter (wellformed RegExp) pats)
            (result, [])),
     log ++ map (fun pattern => "Bad regex pattern: " +:+ pattern)
                (List.filter (fun p => negb (wellformed RegExp p)) pats)).
Proof.
  unfold check_patterns.
  induction pats as [|p pats IH]; intros result log.
  - simpl. by rewrite app_nil_r.
  - cbn [foldl List.filter].
    destruct (RegExp p) as [regex|] eqn:Hp.
    + assert (Hw : wellformed RegExp p = true) by (unfold wellformed; by rewrite Hp).
      rewrite Hw. cbn [negb foldl]. rewrite Hp.
      destruct (JsRegex.test regex command); by rewrite IH.
    + assert (Hw : wellformed RegExp p = false) by (unfold wellformed; by rewrite Hp).
      rewrite Hw. cbn [negb map]. rewrite IH. by rewrite <- app_assoc.
Qed.

Lemma check_patterns_allowed command pats : forall result log,
  dl_allowed (fst (check_patterns RegExp command pats (result, log)))
  = dl_allowed result && negb (existsb (pattern_hits RegExp command) pats).
Proof.
  unfold check_patterns.
  induction pats as [|p pats IH]; intros result log.
  - simpl. by rewrite andb_true_r.
  - cbn [foldl existsb]. unfold pattern_hits at 1.
    destruct (RegExp p) as [regex|]; [destruct (JsRegex.test regex command)|];
      rewrite IH; simpl; try reflexivity.
    by rewrite andb_false_r.
Qed.

End DenylistCheck.

(** C8.  For every rule set and command, [_checkDenylist] returns a verdict
    (it has no failing outcome: a pattern that does not compile only adds
    the warning [Bad regex pattern: ...] to the log).  The verdict and its
    reasons are those obtained from the rule set without its malformed
    patterns, the log holds one warning for each malformed pattern, in
    order, and the command is blocked exactly when some literal rule occurs
    in it or some well-formed pattern matches it. *)
Theorem C8_malformed_patterns_are_skipped
    (RegExp : string -> option JsRegex.regex) (dl : Denylist.t) (command : string) :
  fst (Validator._checkDenylist RegExp (Some dl) command)
  = fst (Validator._checkDenylist RegExp (Some (DenylistSpec.wellformed_only RegExp dl))
           command)
  /\ snd (Validator._checkDenylist RegExp (Some dl) command)
     = DenylistSpec.expected_warnings RegExp dl
  /\ snd (Validator._checkDenylist RegExp (Some (DenylistSpec.wellformed_only RegExp dl))
            command) = []
  /\ Validator.dl_allowed (fst (Validator._checkDenylist RegExp (Some dl) command))
     = negb (DenylistSpec.some_rule_blocks RegExp dl command).
Proof.
  unfold Validator._checkDenylist, DenylistSpec.expected_warnings,
    DenylistSpec.some_rule_blocks.
  destruct dl as [cmds pats risky]; simpl.
  set (result := match cmds with
                 | Some l => Validator.check_commands command l _
                 | None => _
                 end).
  assert (Hres : Validator.dl_allowed result
                 = negb (existsb (JsString.includes command) (default [] cmds))).
  { subst result. destruct cmds as [l|]; simpl; [|reflexivity].
    by rewrite check_commands_allowed. }
  destruct pats as [l|]; simpl.
  - assert (Hnf : forall ps, List.filter (fun p => negb (DenylistSpec.wellformed RegExp p))
                    (List.filter (DenylistSpec.wellformed RegExp) ps) = []).
    { induction ps as [|p ps IH]; simpl; [reflexivity|].
      destruct (DenylistSpec.wellformed RegExp p) eqn:Hp; simpl; rewrite ?Hp; done. }
    pose proof (check_patterns_skip RegExp command l result []) as Hall.
    pose proof (check_patterns_skip RegExp command
                  (List.filter (DenylistSpec.wellformed RegExp) l) result []) as Hgood.
    rewrite Hnf in Hgood. cbn [app map] in Hall, Hgood.
    split; [|split; [|split]].
    + by rewrite Hall.
    + by rewrite Hall.
    + by rewrite Hgood.
    + rewrite check_patterns_allowed, Hres. by rewrite negb_orb.
  - repeat split. rewrite Hres, orb_false_r. reflexivity.
Qed.

(** A rule set with a malformed pattern between two good ones: the
    pattern after it still blocks, and the warning is recorded. *)
Example malformed_pattern_does_not_stop_the_check :
  let dl := {| Denylist.commands := Some ["mkfs"];
               Denylist.patterns := Some ["rm\s+-rf"; "(unclosed"; "\|\s*sh"];
               Denylist.highRisk := None |} in
  Validator._checkDenylist JsRegex.compile (Some dl) "curl http://x | sh"
  = ({| Validator.dl_allowed := false;
        Validator.dl_reasons := ["Matches a dangerous pattern"] |},
     ["Bad regex pattern: (unclosed"]).
Proof. vm_compute. reflexivity. Qed.

(** ** Plans without steps or with incomplete steps *)

Section PlanChecks.

Import Planner.

(** A step that passes the callback has its three required fields. *)
Lemma check_step_complete cwd index step step' :
  check_step cwd index step = inr step' -> missing_required step = false.
Proof.
  unfold check_step, missing_required.
  destruct step as [| b | z | s | items | fields]; simpl; try discriminate.
  destruct (negb (truthy (assoc "id" fields)) || negb (truthy (assoc "command" fields))
            || negb (truthy (assoc "description" fields))); [discriminate | reflexivity].
Qed.

Lemma check_steps_incomplete cwd steps : forall index,
  existsb missing_required steps = true ->
  exists e, check_steps cwd index steps = inl e.
Proof.
  induction steps as [|step steps IH]; intros index Hm; [discriminate|].
  cbn [check_steps].
  destruct (check_step cwd index step) as [e|step'] eqn:Hs; [by exists e|].
  apply check_step_complete in Hs. cbn [existsb] in Hm. rewrite Hs in Hm.
  destruct (IH (index + 1) Hm) as [e He]. rewrite He. by exists e.
Qed.

End PlanChecks.

(** C5 (the claim as stated fails).  The plan without steps is not turned
    into a not-allowed verdict: the parser throws on it
    ([Invalid plan: must contain at least one step]), and [validatePlan],
    given a plan without steps, returns [allowed = true]. *)
Lemma C5_empty_plan_throws_and_is_not_a_blocked_verdict :
  Planner._parseAndValidatePlan "/home/user" (Some empty_plan_doc) = inl Planner.EmptyPlan
  /\ Validator.pv_allowed (default_validatePlan []) <> false.
Proof. split; [reflexivity | vm_compute; discriminate]. Qed.

(** Nor does the validator look at [id] or [description]: a step that has
    neither is allowed. *)
Example step_without_id_is_allowed :
  ValidationResult.allowed
    (default_validateStep
       {| Step.id := ""; Step.description := ""; Step.command := "ls -la";
          Step.requiresConfirmation := false; Step.riskLevel := None;
          Step.workingDirectory := None |}) = true.
Proof. vm_compute. reflexivity. Qed.

(** C5 (amended).  A plan document whose [steps] array is empty, or holds a
    step lacking [id], [command] or [description], is rejected by
    [_parseAndValidatePlan] with a thrown error: it never yields plan data. *)
Theorem C5_parser_throws_on_empty_or_incomplete_plan
    (cwd : string) (planData : Planner.json) (items : list Planner.json) :
  Planner.steps_of planData = Some items ->
  items = [] \/ existsb Planner.missing_required items = true ->
  exists e, Planner._parseAndValidatePlan cwd (Some planData) = inl e.
Proof.
  intros Hsteps Hbad.
  destruct planData as [| b | z | s | l | fields]; try discriminate.
  unfold Planner.steps_of in Hsteps.
  unfold Planner._parseAndValidatePlan, Planner.get.
  destruct (Planner.assoc "steps" fields) as [[| | | | l |]|]; try discriminate.
  injection Hsteps as ->.
  destruct (negb (Planner.truthy (Planner.assoc "intent" fields))); [by eexists|].
  destruct Hbad as [-> | Hm]; [by eexists|].
  destruct items as [|step items]; [discriminate|]. cbn [length Nat.eqb].
  destruct (check_steps_incomplete cwd (step :: items) 0 Hm) as [e He].
  rewrite He. by exists e.
Qed.

(** C5 (amended) at a plan whose second step has no command. *)
Lemma C5_witness :
  exists e, Planner._parseAndValidatePlan "/home/user" (Some incomplete_plan_doc) = inl e.
Proof.
  apply (C5_parser_throws_on_empty_or_incomplete_plan "/home/user" incomplete_plan_doc
           [ Planner.JObj [ ("id", Planner.JStr "step-1");
                            ("description", Planner.JStr "List files");
                            ("command", Planner.JStr "ls -la") ];
             Planner.JObj [ ("id", Planner.JStr "step-2");
                            ("description", Planner.JStr "Remove them") ] ]).
  - reflexivity.
  - right. reflexivity.
Defined.

Example incomplete_plan_error :
  Planner._parseAndValidatePlan "/home/user" (Some incomplete_plan_doc)
  = inl (Planner.InvalidStep 2).
Proof. reflexivity. Qed.

(** * Further properties of the validator *)

Section Verdict.

Import Validator DenylistSpec.

Variable RegExp : string -> option JsRegex.regex.

Lemma block_consistent reason r : verdict_consistent (block reason r).
Proof.
  unfold verdict_consistent, block. simpl. rewrite length_app. simpl.
  symmetry. apply Nat.eqb_neq. lia.
Qed.

Lemma check_commands_consistent command cmds : forall result,
  verdict_consistent result -> verdict_consistent (check_commands command cmds result).
Proof.
  unfold check_commands.
  induction cmds as [|c cmds IH]; intros result Hr; [assumption|].
  cbn [foldl]. apply IH.
  destruct (JsString.includes command c); [apply block_consistent | assumption].
Qed.

Lemma check_patterns_consistent command pats : forall result log,
  verdict_consistent result ->
  verdict_consistent (fst (check_patterns RegExp command pats (result, log))).
Proof.
  unfold check_patterns.
  induction pats as [|p pats IH]; intros result log Hr; [assumption|].
  cbn [foldl].
  destruct (RegExp p) as [regex|]; [destruct (JsRegex.test regex command)|];
    apply IH; first [apply block_consistent | assumption].
Qed.

Lemma checkDenylist_consistent denylist command :
  verdict_consistent (fst (_checkDenylist RegExp denylist command)).
Proof.
  unfold _checkDenylist.
  destruct denylist as [dl|]; [|reflexivity].
  set (result := match Denylist.commands dl with
                 | Some cmds => check_commands command cmds _
                 | None => _
                 end).
  assert (Hres : verdict_consistent result).
  { subst result. destruct (Denylist.commands dl);
      [apply check_commands_consistent|]; reflexivity. }
  destruct (Denylist.patterns dl); [|exact Hres].
  by apply check_patterns_consistent.
Qed.

Lemma checkDenylist_allowed dl command :
  dl_allowed (fst (_checkDenylist RegExp (Some dl) command))
  = negb (some_rule_blocks RegExp dl command).
Proof.
  unfold _checkDenylist, some_rule_blocks.
  destruct dl as [cmds pats risky]; simpl.
  set (result := match cmds with
                 | Some l => check_commands command l _
                 | None => _
                 end).
  assert (Hres : dl_allowed result
                 = negb (existsb (JsString.includes command) (default [] cmds))).
  { subst result. destruct cmds as [l|]; simpl; [|reflexivity].
    by rewrite check_commands_allowed. }
  destruct pats as [l|]; simpl.
  - rewrite check_patterns_allowed, Hres. by rewrite negb_orb.
  - by rewrite Hres, orb_false_r.
Qed.

(** What [validateStep] keeps of the denylist check. *)
Lemma validateStep_verdict denylist step :
  let check := fst (_checkDenylist RegExp denylist (Step.command step)) in
  ValidationResult.allowed (validateStep RegExp denylist step) = dl_allowed check
  /\ ValidationResult.blockedReasons (validateStep RegExp denylist step) = dl_reasons check.
Proof.
  cbv zeta.
  pose proof (checkDenylist_consistent denylist (Step.command step)) as Hc.
  unfold verdict_consistent in Hc.
  unfold validateStep, vs_suggestions, vs_highRisk, vs_risk, vs_denylist. cbv zeta.
  destruct (dl_allowed (_checkDenylist RegExp denylist (Step.command step)).1) eqn:Ha;
    destruct (hr_isHighRisk _); simpl; split; try reflexivity.
  all: symmetry in Hc; apply Nat.eqb_eq in Hc;
    by destruct (dl_reasons (_checkDenylist RegExp denylist (Step.command step)).1).
Qed.

End Verdict.

(** X1.  A validated step is allowed exactly when it carries no blocked
    reason, whatever the rules and the host's regular expressions. *)
Theorem X1_allowed_iff_no_blocked_reason
    (RegExp : string -> option JsRegex.regex) (denylist : option Denylist.t)
    (step : Step.t) :
  let r := Validator.validateStep RegExp denylist step in
  ValidationResult.allowed r = (length (ValidationResult.blockedReasons r) =? 0).
Proof.
  cbv zeta.
  destruct (validateStep_verdict RegExp denylist step) as [-> ->].
  apply checkDenylist_consistent.
Qed.

(** X2.  A step is allowed exactly when no literal rule occurs in its
    command and no well-formed pattern matches it; without a rule document
    every step is allowed.  The declared risk level, the confirmation flag
    and the highRisk list play no part. *)
Theorem X2_allowed_iff_no_rule_blocks
    (RegExp : string -> option JsRegex.regex) (denylist : option Denylist.t)
    (step : Step.t) :
  ValidationResult.allowed (Validator.validateStep RegExp denylist step)
  = match denylist with
    | Some dl => negb (DenylistSpec.some_rule_blocks RegExp dl (Step.command step))
    | None => true
    end.
Proof.
  destruct (validateStep_verdict RegExp denylist step) as [-> _].
  destruct denylist as [dl|]; [apply checkDenylist_allowed | reflexivity].
Qed.

Section StepLevel.

Import Validator.

Variable RegExp : string -> option JsRegex.regex.

(** The risk side of [validateStep] does not look at the verdict. *)
Lemma validateStep_risk_side denylist step :
  let a := _analyzeRiskLevel (Step.command step) in
  let h := _checkHighRiskOperations denylist (Step.command step) in
  let r := validateStep RegExp denylist step in
  ValidationResult.riskLevel r
  = (if hr_isHighRisk h
     then _getHigherRiskLevel
            (_getHigherRiskLevel (default low (Step.riskLevel step)) (ra_level a)) high
     else _getHigherRiskLevel (default low (Step.riskLevel step)) (ra_level a))
  /\ ValidationResult.warnings r
     = ra_warnings a ++ (if hr_isHighRisk h then hr_warnings h else [])
  /\ ValidationResult.requiresConfirmation r = hr_isHighRisk h.
Proof.
  cbv zeta.
  unfold validateStep, vs_suggestions, vs_highRisk, vs_risk, vs_denylist. cbv zeta.
  destruct (negb (dl_allowed _)); destruct (hr_isHighRisk _); simpl;
    rewrite ?app_nil_r; repeat split.
Qed.

Lemma validateStep_suggestions denylist step :
  let r := validateStep RegExp denylist step in
  ValidationResult.suggestions r
  = _generateSuggestions (Step.command step) (ValidationResult.riskLevel r).
Proof.
  cbv zeta.
  unfold validateStep, vs_suggestions, vs_highRisk, vs_risk, vs_denylist. cbv zeta.
  destruct (negb (dl_allowed _)); destruct (hr_isHighRisk _); reflexivity.
Qed.

(** In the result of the high-risk pass, the flag is set exactly when a
    warning has been pushed. *)
Lemma flag_high_fold {A} (f : A -> bool) (g : A -> string) (l : list A) : forall h,
  hr_isHighRisk h = negb (length (hr_warnings h) =? 0) ->
  let h' := foldl (fun h x => if f x then flag_high (g x) h else h) h l in
  hr_isHighRisk h' = negb (length (hr_warnings h') =? 0).
Proof.
  induction l as [|x l IH]; intros h Hh; [assumption|].
  cbn [foldl]. apply IH. destruct (f x); [|assumption].
  unfold flag_high. simpl. rewrite length_app. simpl.
  symmetry. apply negb_true_iff, Nat.eqb_neq. lia.
Qed.

Lemma highRisk_consistent denylist command :
  let h := _checkHighRiskOperations denylist command in
  hr_isHighRisk h = negb (length (hr_warnings h) =? 0).
Proof.
  cbv zeta. unfold _checkHighRiskOperations.
  set (h1 := foldl _ _ highRiskPatterns).
  assert (H1 : hr_isHighRisk h1 = negb (length (hr_warnings h1) =? 0)).
  { subst h1.
    apply (flag_high_fold (fun pw : JsRegex.regex * string => JsRegex.test pw.1 command)
             (fun pw => pw.2) highRiskPatterns
             {| hr_isHighRisk := false; hr_warnings := [] |} eq_refl). }
  destruct denylist as [dl|]; [|exact H1].
  destruct (Denylist.highRisk dl) as [risky|]; [|exact H1].
  apply (flag_high_fold (JsString.includes command)
           (fun riskCmd => "High-risk operation: " +:+ riskCmd) risky h1 H1).
Qed.

End StepLevel.

(** X4.  The two halves of a rule document do not interfere: another
    highRisk list leaves the verdict and its reasons as they are, and other
    literal rules and patterns leave the risk level, the warnings, the
    confirmation flag and the suggestions as they are. *)
Theorem X4_block_rules_and_high_risk_list_independent
    (RegExp : string -> option JsRegex.regex) (dl : Denylist.t)
    (risky cmds pats : option (list string)) (step : Step.t) :
  let r := Validator.validateStep RegExp (Some dl) step in
  let r1 := Validator.validateStep RegExp (Some (with_highRisk risky dl)) step in
  let r2 := Validator.validateStep RegExp (Some (with_rules cmds pats dl)) step in
  (ValidationResult.allowed r1 = ValidationResult.allowed r
   /\ ValidationResult.blockedReasons r1 = ValidationResult.blockedReasons r)
  /\ (ValidationResult.riskLevel r2 = ValidationResult.riskLevel r
      /\ ValidationResult.warnings r2 = ValidationResult.warnings r
      /\ ValidationResult.requiresConfirmation r2 = ValidationResult.requiresConfirmation r
      /\ ValidationResult.suggestions r2 = ValidationResult.suggestions r).
Proof.
  cbv zeta. split.
  - destruct (validateStep_verdict RegExp (Some dl) step) as [-> ->].
    destruct (validateStep_verdict RegExp (Some (with_highRisk risky dl)) step)
      as [-> ->].
    split; reflexivity.
  - destruct (validateStep_risk_side RegExp (Some dl) step) as (Hl & Hw & Hc).
    destruct (validateStep_risk_side RegExp (Some (with_rules cmds pats dl)) step)
      as (Hl' & Hw' & Hc').
    assert (Hlevel : ValidationResult.riskLevel
                       (Validator.validateStep RegExp (Some (with_rules cmds pats dl)) step)
                     = ValidationResult.riskLevel
                         (Validator.validateStep RegExp (Some dl) step))
      by (rewrite Hl, Hl'; reflexivity).
    repeat split.
    + exact Hlevel.
    + rewrite Hw, Hw'. reflexivity.
    + rewrite Hc, Hc'. reflexivity.
    + rewrite !validateStep_suggestions, Hlevel. reflexivity.
Qed.

Lemma analyze_by_outcomes command :
  Validator._analyzeRiskLevel command
  = analyze_outcomes
      (JsRegex.test Validator.re_file_ops command)
      (JsRegex.test Validator.re_file_destructive command)
      (JsRegex.test Validator.re_copy_ops command)
      (JsRegex.test Validator.re_system_ops command)
      (JsRegex.test Validator.re_network_ops command)
      (JsRegex.test Validator.re_pipe_to_shell command)
      (JsRegex.test Validator.re_package_install command)
      (JsRegex.test Validator.re_process_ops command)
      (JsRegex.test Validator.re_kill_all command)
      (JsRegex.test Validator.re_git_ops command)
      (JsRegex.test Validator.re_git_destructive command).
Proof. reflexivity. Qed.

Lemma analyze_outcomes_facts :
  forall file destructive copy system network pipe package process kill_all git git_hard,
  let a := analyze_outcomes file destructive copy system network pipe package process
             kill_all git git_hard in
  bool_decide (Validator.ra_level a = none)
  = negb (file || copy || system || network || package || process || git)
  /\ (Validator.ra_level a = none -> Validator.ra_warnings a = [])
  /\ (Validator.ra_level a = high -> Validator.ra_warnings a <> [])
  /\ Forall (fun w => w ∈ analysis_warnings) (Validator.ra_warnings a).
Proof. apply (bool_decide_unpack _). vm_compute. exact I. Qed.

(** X5.  [_analyzeRiskLevel] answers none exactly when no group test
    matches, and then it gives no warning; when it answers high it gives at
    least one warning; and its warnings are drawn from six fixed texts. *)
Theorem X5_analysis_level_and_warnings (command : string) :
  let a := Validator._analyzeRiskLevel command in
  bool_decide (Validator.ra_level a = none) = negb (any_group_matches command)
  /\ (Validator.ra_level a = none -> Validator.ra_warnings a = [])
  /\ (Validator.ra_level a = high -> Validator.ra_warnings a <> [])
  /\ Forall (fun w => w ∈ analysis_warnings) (Validator.ra_warnings a).
Proof.
  cbv zeta. rewrite analyze_by_outcomes. unfold any_group_matches.
  apply analyze_outcomes_facts.
Qed.

(** X5 at [git reset --hard]. *)
Lemma X5_witness :
  Validator.ra_warnings (Validator._analyzeRiskLevel "git reset --hard") <> []
  /\ Validator.ra_warnings (Validator._analyzeRiskLevel "ls -la") = [].
Proof.
  pose proof (X5_analysis_level_and_warnings "git reset --hard") as (_ & _ & Hhigh & _).
  pose proof (X5_analysis_level_and_warnings "ls -la") as (_ & Hnone & _ & _).
  split.
  - apply Hhigh. vm_compute. reflexivity.
  - apply Hnone. vm_compute. reflexivity.
Defined.

(** X6.  The warnings of a validated step are those of the analysis
    followed by those of the high-risk pass, and confirmation is demanded
    exactly when the high-risk pass gave at least one warning: a demand for
    confirmation always comes with a warning that explains it. *)
Theorem X6_confirmation_comes_with_a_warning
    (RegExp : string -> option JsRegex.regex) (denylist : option Denylist.t)
    (step : Step.t) :
  let r := Validator.validateStep RegExp denylist step in
  let h := Validator._checkHighRiskOperations denylist (Step.command step) in
  ValidationResult.warnings r
  = Validator.ra_warnings (Validator._analyzeRiskLevel (Step.command step))
    ++ Validator.hr_warnings h
  /\ ValidationResult.requiresConfirmation r
     = negb (length (Validator.hr_warnings h) =? 0).
Proof.
  cbv zeta.
  destruct (validateStep_risk_side RegExp denylist step) as (_ & -> & ->).
  pose proof (highRisk_consistent denylist (Step.command step)) as Hh.
  cbv zeta in Hh. rewrite Hh.
  destruct (Validator.hr_warnings _); simpl; split; reflexivity.
Qed.

(** * Further properties of plan validation *)

Section PlanSummary.

Import Validator.

Variable RegExp : string -> option JsRegex.regex.
Variable denylist : option Denylist.t.

(** The fields of the plan verdict, step by step. *)
Lemma validatePlan_fields steps :
  let results := map (validateStep RegExp denylist) steps in
  validatePlan RegExp denylist steps
  = {| pv_allowed := forallb ValidationResult.allowed results;
       pv_riskLevel := risk_max_list (map ValidationResult.riskLevel results);
       pv_stepResults := results;
       pv_summary := _generateValidationSummary results |}.
Proof.
  cbv zeta. unfold validatePlan. rewrite plan_loop_fold. simpl.
  rewrite fold_higher_is_max by apply step_levels_positive.
  by rewrite risk_max_none_l.
Qed.

Lemma no_blocked_iff_all_allowed (results : list ValidationResult.t) :
  (length (filter (fun r => negb (ValidationResult.allowed r) = true) results) =? 0)
  = forallb ValidationResult.allowed results.
Proof.
  induction results as [|r results IH]; [reflexivity|].
  rewrite filter_cons. cbn [forallb].
  destruct (ValidationResult.allowed r); simpl; [exact IH | reflexivity].
Qed.

Lemma risk_max_high a b :
  bool_decide (risk_max a b = high) = bool_decide (a = high) || bool_decide (b = high).
Proof. destruct a, b; reflexivity. Qed.

Lemma no_high_iff_max_below (results : list ValidationResult.t) :
  (length (filter (fun r => ValidationResult.riskLevel r = high) results) =? 0)
  = negb (bool_decide (risk_max_list (map ValidationResult.riskLevel results) = high)).
Proof.
  induction results as [|r results IH]; [reflexivity|].
  rewrite filter_cons. cbn [map]. unfold risk_max_list in *. cbn [foldr].
  rewrite risk_max_high.
  destruct (decide (ValidationResult.riskLevel r = high)) as [Hh|Hh].
  - rewrite (bool_decide_eq_true_2 _ Hh). reflexivity.
  - rewrite (bool_decide_eq_false_2 _ Hh). exact IH.
Qed.

Lemma filter_length_le {A} (P Q : A -> Prop) `{!forall x, Decision (P x)}
    `{!forall x, Decision (Q x)} (l : list A) :
  Forall (fun x => P x -> Q x) l -> length (filter P l) <= length (filter Q l).
Proof.
  induction 1 as [|x l Hx Hl IH]; [reflexivity|].
  rewrite !filter_cons.
  destruct (decide (P x)) as [Hp|Hp]; destruct (decide (Q x)) as [Hq|Hq]; simpl;
    try lia. by destruct Hq; apply Hx.
Qed.

Lemma confirmation_implies_high steps :
  Forall (fun r => ValidationResult.requiresConfirmation r = true ->
                   ValidationResult.riskLevel r = high)
         (map (validateStep RegExp denylist) steps).
Proof.
  induction steps as [|step steps IH]; simpl; constructor; [|assumption].
  destruct (validateStep_risk_side RegExp denylist step) as (-> & _ & ->).
  intros ->. apply getHigherRiskLevel_high.
Qed.

Lemma total_warnings_sum (results : list ValidationResult.t) : forall n,
  foldl (fun sum r => sum + length (ValidationResult.warnings r)) n results
  = n + list_sum (map (fun r => length (ValidationResult.warnings r)) results).
Proof.
  induction results as [|r results IH]; intros n; simpl; [lia|].
  rewrite IH. lia.
Qed.

End PlanSummary.

(** X7.  The summary of a plan verdict agrees with the verdict: no step is
    counted blocked exactly when the plan is allowed, no step is counted
    high-risk exactly when the plan's level is below high, and
    [overallSafe] holds exactly when the plan is allowed with a level below
    high. *)
Theorem X7_summary_agrees_with_verdict
    (RegExp : string -> option JsRegex.regex) (denylist : option Denylist.t)
    (steps : list Step.t) :
  let pv := Validator.validatePlan RegExp denylist steps in
  let s := Validator.pv_summary pv in
  (Validator.blockedSteps s =? 0) = Validator.pv_allowed pv
  /\ (Validator.highRiskSteps s =? 0) = negb (bool_decide (Validator.pv_riskLevel pv = high))
  /\ Validator.overallSafe s
     = Validator.pv_allowed pv && negb (bool_decide (Validator.pv_riskLevel pv = high)).
Proof.
  cbv zeta. rewrite validatePlan_fields. cbv zeta.
  unfold Validator._generateValidationSummary. simpl.
  rewrite no_blocked_iff_all_allowed, no_high_iff_max_below. repeat split.
Qed.

(** X8.  The counts of the summary: every step is counted once, the steps
    needing confirmation are among the high-risk ones, the blocked and the
    high-risk steps are among all steps, and the warnings are summed over
    the steps. *)
Theorem X8_summary_counts
    (RegExp : string -> option JsRegex.regex) (denylist : option Denylist.t)
    (steps : list Step.t) :
  let pv := Validator.validatePlan RegExp denylist steps in
  let s := Validator.pv_summary pv in
  Validator.totalSteps s = length steps
  /\ Validator.confirmationRequired s <= Validator.highRiskSteps s
  /\ Validator.highRiskSteps s <= Validator.totalSteps s
  /\ Validator.blockedSteps s <= Validator.totalSteps s
  /\ Validator.totalWarnings s
     = list_sum (map (fun r => length (ValidationResult.warnings r))
                     (Validator.pv_stepResults pv)).
Proof.
  cbv zeta. rewrite validatePlan_fields. cbv zeta.
  unfold Validator._generateValidationSummary. simpl.
  split; [by rewrite length_map|].
  split; [apply filter_length_le, confirmation_implies_high|].
  split; [apply length_filter|].
  split; [apply length_filter|].
  apply (total_warnings_sum _ 0).
Qed.

(** X9.  Validating two plans one after the other is validating their
    concatenation: the step results are appended, the plan is allowed when
    both are, its level is the greater of the two, and the counts add up. *)
Theorem X9_validatePlan_of_concatenation
    (RegExp : string -> option JsRegex.regex) (denylist : option Denylist.t)
    (steps1 steps2 : list Step.t) :
  let pv := Validator.validatePlan RegExp denylist (steps1 ++ steps2) in
  let pv1 := Validator.validatePlan RegExp denylist steps1 in
  let pv2 := Validator.validatePlan RegExp denylist steps2 in
  Validator.pv_stepResults pv = Validator.pv_stepResults pv1 ++ Validator.pv_stepResults pv2
  /\ Validator.pv_allowed pv = Validator.pv_allowed pv1 && Validator.pv_allowed pv2
  /\ Validator.pv_riskLevel pv = risk_max (Validator.pv_riskLevel pv1) (Validator.pv_riskLevel pv2)
  /\ Validator.blockedSteps (Validator.pv_summary pv)
     = Validator.blockedSteps (Validator.pv_summary pv1)
       + Validator.blockedSteps (Validator.pv_summary pv2)
  /\ Validator.totalWarnings (Validator.pv_summary pv)
     = Validator.totalWarnings (Validator.pv_summary pv1)
       + Validator.totalWarnings (Validator.pv_summary pv2).
Proof.
  cbv zeta. rewrite !validatePlan_fields. cbv zeta.
  unfold Validator._generateValidationSummary. simpl.
  rewrite !map_app, forallb_app, filter_app, length_app.
  repeat split.
  - unfold risk_max_list. rewrite foldr_app.
    generalize (map ValidationResult.riskLevel
                  (map (Validator.validateStep RegExp denylist) steps2)).
    generalize (map ValidationResult.riskLevel
                  (map (Validator.validateStep RegExp denylist) steps1)).
    intros l1 l2. induction l1 as [|x l1 IH]; simpl.
    + by rewrite risk_max_none_l.
    + by rewrite IH, risk_max_assoc.
  - rewrite foldl_app, !total_warnings_sum. lia.
Qed.

(** * Further properties of the result records *)

Section StringFacts.

Lemma string_length_app (a b : string) :
  String.length (a +:+ b) = String.length a + String.length b.
Proof. induction a as [|c a IH]; simpl; [reflexivity | by rewrite IH]. Qed.

Lemma substring_length (s : string) : forall n,
  String.length (String.substring 0 n s) = Nat.min n (String.length s).
Proof.
  induction s as [|c s IH]; intros [|n]; simpl; try reflexivity.
  by rewrite IH.
Qed.

Lemma substring_all (s : string) : forall n,
  String.length s <= n -> String.substring 0 n s = s.
Proof.
  induction s as [|c s IH]; intros [|n] Hn; simpl in *; try reflexivity; try lia.
  rewrite IH; [reflexivity | lia].
Qed.

Lemma substring_app_prefix (s t : string) : forall n,
  n <= String.length s ->
  String.substring 0 n (String.substring 0 n s +:+ t) = String.substring 0 n s.
Proof.
  induction s as [|c s IH]; intros [|n] Hn; simpl in *; try lia;
    try (by destruct t).
  f_equal. apply IH. lia.
Qed.

Lemma existsb_eqb_self (x : string) (l : list string) :
  existsb (String.eqb x) (l ++ [x]) = true.
Proof. rewrite existsb_app. simpl. rewrite String.eqb_refl. by rewrite orb_true_r. Qed.

Lemma existsb_eqb_false (x : string) (l : list string) :
  existsb (String.eqb x) l = false -> x ∉ l.
Proof.
  intros Hf Hin. apply not_true_iff_false in Hf. apply Hf.
  apply existsb_exists. exists x. split; [by apply list_elem_of_In|].
  apply String.eqb_refl.
Qed.

Lemma NoDup_snoc_string (x : string) (l : list string) :
  NoDup l -> existsb (String.eqb x) l = false -> NoDup (l ++ [x]).
Proof.
  intros Hl Hx. apply NoDup_app. split; [assumption|]. split.
  - intros y Hy Hyx. apply list_elem_of_singleton in Hyx. subst y.
    by apply existsb_eqb_false in Hx.
  - apply NoDup_singleton.
Qed.

End StringFacts.

(** X10.  [addBlockedReason], [addWarning] and [addSuggestion] treat their
    lists as sets kept in order of arrival: adding the same text a second
    time changes nothing, and a list without duplicates stays without
    duplicates. *)
Theorem X10_add_methods_keep_lists_duplicate_free (r : ValidationResult.t) (x : string) :
  NoDup (ValidationResult.blockedReasons r) ->
  NoDup (ValidationResult.warnings r) ->
  NoDup (ValidationResult.suggestions r) ->
  (ValidationResult.addBlockedReason x (ValidationResult.addBlockedReason x r)
   = ValidationResult.addBlockedReason x r
   /\ NoDup (ValidationResult.blockedReasons (ValidationResult.addBlockedReason x r)))
  /\ (ValidationResultMethods.addWarning x (ValidationResultMethods.addWarning x r)
      = ValidationResultMethods.addWarning x r
      /\ NoDup (ValidationResult.warnings (ValidationResultMethods.addWarning x r)))
  /\ (ValidationResultMethods.addSuggestion x (ValidationResultMethods.addSuggestion x r)
      = ValidationResultMethods.addSuggestion x r
      /\ NoDup (ValidationResult.suggestions (ValidationResultMethods.addSuggestion x r))).
Proof.
  intros Hb Hw Hs. repeat split.
  - unfold ValidationResult.addBlockedReason, ValidationResult.has_reason.
    destruct (String.eqb x "") eqn:Hx; simpl; [by rewrite ?Hx|].
    destruct (existsb (String.eqb x) (ValidationResult.blockedReasons r)) eqn:He; simpl.
    + by rewrite ?Hx, ?He.
    + by rewrite ?Hx, ?existsb_eqb_self.
  - unfold ValidationResult.addBlockedReason, ValidationResult.has_reason.
    destruct (String.eqb x ""); simpl; [assumption|].
    destruct (existsb (String.eqb x) (ValidationResult.blockedReasons r)) eqn:He; simpl;
      [assumption | by apply NoDup_snoc_string].
  - unfold ValidationResultMethods.addWarning.
    destruct (String.eqb x "") eqn:Hx; simpl; [by rewrite ?Hx|].
    destruct (existsb (String.eqb x) (ValidationResult.warnings r)) eqn:He; simpl.
    + by rewrite ?Hx, ?He.
    + by rewrite ?Hx, ?existsb_eqb_self.
  - unfold ValidationResultMethods.addWarning.
    destruct (String.eqb x ""); simpl; [assumption|].
    destruct (existsb (String.eqb x) (ValidationResult.warnings r)) eqn:He; simpl;
      [assumption | by apply NoDup_snoc_string].
  - unfold ValidationResultMethods.addSuggestion.
    destruct (String.eqb x "") eqn:Hx; simpl; [by rewrite ?Hx|].
    destruct (existsb (String.eqb x) (ValidationResult.suggestions r)) eqn:He; simpl.
    + by rewrite ?Hx, ?He.
    + by rewrite ?Hx, ?existsb_eqb_self.
  - unfold ValidationResultMethods.addSuggestion.
    destruct (String.eqb x ""); simpl; [assumption|].
    destruct (existsb (String.eqb x) (ValidationResult.suggestions r)) eqn:He; simpl;
      [assumption | by apply NoDup_snoc_string].
Qed.

(** X10 at the result constructed for [ls -la]. *)
Lemma X10_witness :
  ValidationResult.addBlockedReason "Too risky"
    (ValidationResult.addBlockedReason "Too risky" (Validator.vs_new (test_step "ls -la")))
  = ValidationResult.addBlockedReason "Too risky" (Validator.vs_new (test_step "ls -la")).
Proof.
  apply (X10_add_methods_keep_lists_duplicate_free
           (Validator.vs_new (test_step "ls -la")) "Too risky");
    vm_compute; constructor.
Defined.

(** X11.  [_truncateOutput] never returns more than [maxLength] characters
    plus the 23 of its notice, keeps the first [maxLength] characters of the
    output, and returns an output of at most [maxLength] characters as it
    is. *)
Theorem X11_truncated_output_is_bounded (output : string) (maxLength : nat) :
  let t := ExecutionResultMethods._truncateOutput output maxLength in
  String.length t <= maxLength + 23
  /\ String.substring 0 maxLength t = String.substring 0 maxLength output
  /\ ((String.length output <=? maxLength) = true -> t = output).
Proof.
  cbv zeta. unfold ExecutionResultMethods._truncateOutput.
  destruct (String.eqb output "") eqn:He.
  - apply String.eqb_eq in He. subst output. simpl. repeat split.
    + lia.
  - simpl. destruct (String.length output <=? maxLength) eqn:Hl.
    + apply Nat.leb_le in Hl. repeat split. lia.
    + apply Nat.leb_gt in Hl. split; [|split].
      * rewrite string_length_app, substring_length. simpl. lia.
      * apply substring_app_prefix. lia.
      * discriminate.
Qed.

(** X11 at a short output. *)
Lemma X11_witness : ExecutionResultMethods._truncateOutput "done" 500 = "done".
Proof.
  apply (X11_truncated_output_is_bounded "done" 500). reflexivity.
Defined.

(** X12.  [getFormattedOutput] never returns the empty string; on the
    result that [executeStep] builds from a thrown error it returns the
    error message. *)
Theorem X12_formatted_output_is_never_empty
    (r : ExecutionResult.t) (ex : SandboxExecutor.t) (step : Step.t) (message : string) :
  ExecutionResultMethods.getFormattedOutput r <> ""
  /\ (message <> "" ->
      ExecutionResultMethods.getFormattedOutput (SandboxExecutor.failed ex step message)
      = message).
Proof.
  split.
  - unfold ExecutionResultMethods.getFormattedOutput.
    destruct (ExecutionResult.success r); simpl.
    + destruct (String.eqb (ExecutionResult.stdout r) "") eqn:Ho; simpl.
      * destruct (ExecutionResult.error r) as [e|]; [|discriminate].
        destruct (String.eqb e "") eqn:He; [discriminate|]. by apply String.eqb_neq.
      * by apply String.eqb_neq.
    + destruct (String.eqb (ExecutionResult.stderr r) "") eqn:Ho; simpl.
      * destruct (ExecutionResult.error r) as [e|]; [|discriminate].
        destruct (String.eqb e "") eqn:He; [discriminate|]. by apply String.eqb_neq.
      * by apply String.eqb_neq.
  - intros Hm. apply String.eqb_neq in Hm.
    unfold ExecutionResultMethods.getFormattedOutput, SandboxExecutor.failed. simpl.
    by rewrite Hm.
Qed.

(** X12 at the error of an empty command. *)
Lemma X12_witness :
  ExecutionResultMethods.getFormattedOutput
    (SandboxExecutor.failed c2_executor c3_step "Invalid command format")
  = "Invalid command format".
Proof.
  apply (X12_formatted_output_is_never_empty
           (SandboxExecutor.failed c2_executor c3_step "Invalid command format")
           c2_executor c3_step "Invalid command format").
  discriminate.
Defined.

(** * Further properties of the executor *)

Module ParseFacts.

Import JsString ExecFacts.

Lemma chars_of_chars l : chars (of_chars l) = l.
Proof. apply String.list_ascii_of_string_of_list_ascii. Qed.

Lemma of_chars_chars s : of_chars (chars s) = s.
Proof. apply String.string_of_list_ascii_of_string. Qed.

Lemma of_chars_empty l : of_chars l = "" <-> l = [].
Proof.
  split; [|by intros ->].
  intros H. rewrite <- (chars_of_chars l), H. reflexivity.
Qed.

(** [trim_start] drops a run of white space and nothing else. *)
Lemma trim_start_split l :
  exists pre, l = pre ++ trim_start l /\ forallb is_space pre = true.
Proof.
  induction l as [|c l (pre & Hl & Hpre)]; [by exists []|].
  simpl. destruct (is_space c) eqn:Hc.
  - exists (c :: pre). simpl. rewrite Hc, Hpre. split; [by f_equal | reflexivity].
  - by exists [].
Qed.

Lemma trim_start_head l c l' : trim_start l = c :: l' -> is_space c = false.
Proof.
  induction l as [|d l IH]; [discriminate|].
  simpl. destruct (is_space d) eqn:Hd; [assumption|].
  intros [= -> _]. assumption.
Qed.

Lemma trim_start_nil l : trim_start l = [] <-> forallb is_space l = true.
Proof.
  induction l as [|c l IH]; [done|].
  simpl. destruct (is_space c); simpl; [assumption|]. split; discriminate.
Qed.

Lemma forallb_reversed {A} (f : A -> bool) (l : list A) :
  forallb f (rev l) = forallb f l.
Proof.
  induction l as [|c l IH]; [reflexivity|].
  simpl. rewrite forallb_app, IH. simpl. rewrite andb_true_r. apply andb_comm.
Qed.

Lemma trim_chars s : chars (trim s) = trimmed (chars s).
Proof. unfold trim. apply chars_of_chars. Qed.

Lemma trimmed_nil l : trimmed l = [] <-> forallb is_space l = true.
Proof.
  unfold trimmed. split.
  - intros H. apply (f_equal (@rev ascii)) in H. rewrite rev_involutive in H.
    simpl in H. apply trim_start_nil in H. rewrite forallb_reversed in H.
    destruct (trim_start l) as [|c m] eqn:Hm; [by apply trim_start_nil|].
    apply trim_start_head in Hm. simpl in H. by rewrite Hm in H.
  - intros H. apply trim_start_nil in H. rewrite H. reflexivity.
Qed.

Lemma filter_space_prefix pre l :
  forallb is_space pre = true ->
  List.filter not_space (pre ++ l) = List.filter not_space l.
Proof.
  induction pre as [|c pre IH]; [done|].
  simpl. intros H. apply andb_prop in H as [Hc Hpre].
  unfold not_space at 1. rewrite Hc. simpl. by apply IH.
Qed.

Lemma filter_rev {A} (f : A -> bool) (l : list A) :
  List.filter f (rev l) = rev (List.filter f l).
Proof.
  induction l as [|x l IH]; [reflexivity|].
  simpl. rewrite List.filter_app, IH. simpl.
  destruct (f x); simpl; [reflexivity | by rewrite app_nil_r].
Qed.

Lemma trim_start_filter l :
  List.filter not_space (trim_start l) = List.filter not_space l.
Proof.
  destruct (trim_start_split l) as (pre & Hl & Hpre).
  rewrite Hl at 2. by rewrite filter_space_prefix.
Qed.

Lemma trimmed_filter l : List.filter not_space (trimmed l) = List.filter not_space l.
Proof.
  unfold trimmed.
  rewrite filter_rev, trim_start_filter, filter_rev, rev_involutive.
  apply trim_start_filter.
Qed.

(** A trimmed text that is not empty starts and ends with a character
    that is not white space. *)
Lemma trimmed_ends l :
  trimmed l <> [] ->
  (exists c t, trimmed l = c :: t /\ is_space c = false)
  /\ (forall c, last (trimmed l) = Some c -> is_space c = false).
Proof.
  unfold trimmed. intros Hne.
  destruct (trim_start (rev (trim_start l))) as [|d n] eqn:Hn; [done|].
  pose proof (trim_start_head _ _ _ Hn) as Hd.
  destruct (trim_start_split (rev (trim_start l))) as (pre & Hsplit & Hpre).
  rewrite Hn in Hsplit.
  apply (f_equal (@rev ascii)) in Hsplit. rewrite rev_involutive, rev_app_distr in Hsplit.
  split.
  - destruct (rev (d :: n)) as [|c t] eqn:Hr.
    { apply (f_equal (@length ascii)) in Hr. rewrite length_rev in Hr. discriminate. }
    exists c, t. split; [reflexivity|].
    simpl in Hsplit. apply trim_start_head in Hsplit. exact Hsplit.
  - intros c Hc. simpl in Hc. rewrite last_snoc in Hc. by injection Hc as <-.
Qed.

(** The fields read by [split_ws_aux]: together they hold the characters
    that are not white space, in order. *)
Lemma split_concat l : forall cur in_sep,
  concat (map chars (split_ws_aux l cur in_sep))
  = rev cur ++ List.filter not_space l.
Proof.
  induction l as [|c l IH]; intros cur in_sep; simpl.
  - by rewrite chars_of_chars, !app_nil_r.
  - unfold not_space at 1. destruct (is_space c); simpl.
    + destruct in_sep; simpl; rewrite IH; [reflexivity|].
      by rewrite chars_of_chars.
    + rewrite IH. simpl. by rewrite <- app_assoc.
Qed.

Lemma split_never_empty l : forall cur in_sep, split_ws_aux l cur in_sep <> [].
Proof.
  induction l as [|c l IH]; intros cur in_sep; simpl; [discriminate|].
  destruct (is_space c); [destruct in_sep|]; first [apply IH | discriminate].
Qed.

Lemma split_no_space l : forall cur in_sep,
  forallb not_space cur = true ->
  Forall (fun t => forallb not_space (chars t) = true) (split_ws_aux l cur in_sep).
Proof.
  induction l as [|c l IH]; intros cur in_sep Hcur; simpl.
  - constructor; [|constructor]. rewrite chars_of_chars, forallb_reversed. exact Hcur.
  - destruct (is_space c) eqn:Hc.
    + destruct in_sep; [by apply IH|].
      constructor; [|by apply IH].
      rewrite chars_of_chars, forallb_reversed. exact Hcur.
    + apply IH. simpl. unfold not_space at 1. by rewrite Hc.
Qed.

Lemma split_nonempty l : forall cur in_sep,
  (forall c, last l = Some c -> is_space c = false) ->
  (in_sep = false -> cur <> [] \/ exists c l', l = c :: l' /\ is_space c = false) ->
  (in_sep = true -> l <> []) ->
  Forall (fun t => t <> "") (split_ws_aux l cur in_sep).
Proof.
  induction l as [|c l IH]; intros cur in_sep Hlast Hopen Hsep; simpl.
  - destruct in_sep; [by destruct Hsep|].
    destruct (Hopen eq_refl) as [Hcur|(c & l' & Hl & _)]; [|discriminate].
    constructor; [|constructor].
    intros He. apply of_chars_empty in He. apply Hcur.
    apply (f_equal (@rev ascii)) in He. by rewrite rev_involutive in He.
  - assert (Hlast' : forall d, last l = Some d -> is_space d = false).
    { intros d Hd. apply Hlast. destruct l; [discriminate | exact Hd]. }
    assert (Hrest : is_space c = true -> l <> []).
    { intros Hc ->. specialize (Hlast c eq_refl). congruence. }
    destruct (is_space c) eqn:Hc.
    + destruct in_sep.
      * apply IH; [assumption | discriminate | intros _; by apply Hrest].
      * destruct (Hopen eq_refl) as [Hcur|(d & l' & [= <- <-] & Hd)]; [|congruence].
        constructor.
        -- intros He. apply of_chars_empty in He. apply Hcur.
           apply (f_equal (@rev ascii)) in He. by rewrite rev_involutive in He.
        -- apply IH; [assumption | discriminate | intros _; by apply Hrest].
    + apply IH; [assumption | intros _; by left | discriminate].
Qed.

End ParseFacts.

Lemma parseCommand_words (command : string) :
  match SandboxExecutor._parseCommand command with
  | None => ExecFacts.is_blank command = true
  | Some (cmd, args) =>
      ExecFacts.is_blank command = false
      /\ Forall (fun t => t <> "" /\ forallb ExecFacts.not_space (JsString.chars t) = true)
                (cmd :: args)
      /\ concat (map JsString.chars (cmd :: args))
         = List.filter ExecFacts.not_space (JsString.chars command)
  end.
Proof.
  unfold SandboxExecutor._parseCommand, ExecFacts.is_blank.
  destruct (String.eqb command "") eqn:He.
  { apply String.eqb_eq in He. by subst command. }
  destruct (String.eqb (JsString.trim command) "") eqn:Ht.
  { apply String.eqb_eq in Ht. apply (f_equal JsString.chars) in Ht.
    rewrite ParseFacts.trim_chars in Ht. by apply ParseFacts.trimmed_nil. }
  apply String.eqb_neq in Ht.
  assert (Hne : ExecFacts.trimmed (JsString.chars command) <> []).
  { intros Hn. apply Ht. rewrite <- (ParseFacts.of_chars_chars (JsString.trim command)).
    by rewrite ParseFacts.trim_chars, Hn. }
  assert (Hblank : forallb JsString.is_space (JsString.chars command) = false).
  { apply not_true_iff_false. intros Hb. by apply ParseFacts.trimmed_nil in Hb. }
  destruct (ParseFacts.trimmed_ends _ Hne) as ((c & t & Hhead & Hc) & Hlast).
  unfold JsString.split_ws. rewrite ParseFacts.trim_chars.
  pose proof (ParseFacts.split_concat (ExecFacts.trimmed (JsString.chars command)) [] false)
    as Hcat.
  pose proof (ParseFacts.split_no_space (ExecFacts.trimmed (JsString.chars command))
                [] false eq_refl) as Hns.
  pose proof (ParseFacts.split_nonempty (ExecFacts.trimmed (JsString.chars command))
                [] false Hlast) as Hnn.
  destruct (JsString.split_ws_aux _ _ _) as [|cmd args] eqn:Hs.
  { by apply ParseFacts.split_never_empty in Hs. }
  split; [exact Hblank|]. split.
  - assert (Hnn' : Forall (fun t => t <> "") (cmd :: args)).
    { apply Hnn; [intros _; right; by exists c, t | discriminate]. }
    clear -Hns Hnn'. revert Hns Hnn'. generalize (cmd :: args). intros ts Hns Hnn.
    induction ts as [|x ts IH]; constructor.
    + inversion Hns; inversion Hnn; subst. by split.
    + inversion Hns; inversion Hnn; subst. by apply IH.
  - rewrite Hcat. simpl. apply ParseFacts.trimmed_filter.
Qed.

(** X13.  [_parseCommand] answers null exactly for a command that is empty
    or all white space.  Otherwise the program and its arguments are
    non-empty words free of white space, and put together they are the
    command with its white space removed: nothing is added, dropped or
    reordered, and quotes are not interpreted. *)
Theorem X13_parseCommand_words (command : string) :
  match SandboxExecutor._parseCommand command with
  | None => ExecFacts.is_blank command = true
  | Some (cmd, args) =>
      ExecFacts.is_blank command = false
      /\ Forall (fun t => t <> "" /\ forallb ExecFacts.not_space (JsString.chars t) = true)
                (cmd :: args)
      /\ concat (map JsString.chars (cmd :: args))
         = List.filter ExecFacts.not_space (JsString.chars command)
  end.
Proof. apply parseCommand_words. Qed.

Module ExecMore.

Import SandboxExecutor ExecFacts.

Lemma parseCommand_blank command :
  is_blank command = true -> _parseCommand command = None.
Proof.
  intros Hb. pose proof (parseCommand_words command) as H.
  destruct (_parseCommand command) as [[cmd args]|]; [|reflexivity].
  destruct H as [H _]. congruence.
Qed.

(** The effects of [executeStep], by the way it ends. *)
Lemma executeStep_effects h ex child step :
  let wd := workingDir_of ex step in
  snd (executeStep h ex child step)
  = match _validateWorkingDirectory h ex wd with
    | (Some _, effects) => effects
    | (None, effects) =>
        match _parseCommand (Step.command step) with
        | None => effects
        | Some (cmd, args) =>
            effects
            ++ Spawn cmd args
                 {| so_cwd := wd;
                    so_stdio := ["pipe"; "pipe"; "pipe"];
                    so_env := _getSandboxEnvironment h ex;
                    so_timeout := timeout ex;
                    so_shell := String.eqb (Host.platform h) "win32" |}
               :: rs_effects (run_events ex (events child) initial)
        end
    end.
Proof.
  cbv zeta. unfold executeStep, workingDir_of.
  destruct (_validateWorkingDirectory _ _ _) as [[msg|] effects]; [reflexivity|].
  unfold _runCommand.
  destruct (_parseCommand (Step.command step)) as [[cmd args]|]; simpl.
  - by destruct (rs_promise _).
  - by rewrite app_nil_r.
Qed.

(** A directory that passed the check has been created and probed. *)
Lemma validate_passed h ex wd effects :
  _validateWorkingDirectory h ex wd = (None, effects) ->
  effects = [Mkdir wd; Access (Host.path_resolve h wd)].
Proof.
  unfold _validateWorkingDirectory.
  destruct (Host.fs_mkdir h wd); [discriminate|].
  destruct (negb _); [discriminate|].
  destruct (Host.fs_access h _); [discriminate|]. by intros [= <-].
Qed.

Lemma kill_after_clear_app l k : forall b,
  kill_after_clear b (l ++ k)
  = kill_after_clear b l || kill_after_clear (b || existsb is_clear l) k.
Proof.
  induction l as [|e l IH]; intros b; simpl.
  - by rewrite orb_false_r.
  - destruct e; simpl; rewrite IH; rewrite ?orb_true_r, ?orb_false_r, ?orb_assoc;
      reflexivity.
Qed.

Lemma on_event_timer_inv ex st ev : timer_inv st -> timer_inv (on_event ex st ev).
Proof.
  intros (Hk & Hc & Hs & Ho & Hp).
  destruct ev; simpl; try (by repeat split).
  - (* Close *)
    repeat split; simpl.
    + rewrite List.filter_app, length_app. simpl. destruct (rs_timer st); lia.
    + rewrite forallb_app, Hs. reflexivity.
    + rewrite kill_after_clear_app, Ho. reflexivity.
    + rewrite existsb_app, Hp. reflexivity.
  - (* TimerFired *)
    destruct (rs_timer st) eqn:Ht; [|by repeat split; rewrite ?Ht].
    destruct (rs_killed st); simpl.
    + repeat split; simpl; try assumption.
      * lia.
    + assert (Hnc : existsb is_clear (rs_effects st) = false).
      { destruct (existsb is_clear (rs_effects st)); [|reflexivity].
        specialize (Hc eq_refl). discriminate. }
      repeat split; simpl.
      * rewrite List.filter_app, length_app. simpl. lia.
      * rewrite forallb_app, Hs. reflexivity.
      * rewrite kill_after_clear_app, Ho, Hnc. reflexivity.
      * rewrite existsb_app, Hp. reflexivity.
Qed.

Lemma run_events_timer_inv ex evs : forall st,
  timer_inv st -> timer_inv (run_events ex evs st).
Proof.
  induction evs as [|ev evs IH]; intros st Hst; [assumption|].
  cbn [run_events foldl]. apply IH. by apply on_event_timer_inv.
Qed.

Lemma initial_timer_inv : timer_inv initial.
Proof. unfold timer_inv. simpl. repeat split; [lia | discriminate]. Qed.

(** An event that settles leaves the promise settled. *)
Lemma settled_after ex evs : forall st,
  existsb is_settling evs = true \/ rs_promise st <> Pending ->
  rs_promise (run_events ex evs st) <> Pending.
Proof.
  induction evs as [|ev evs IH]; intros st [He|Hp]; try discriminate.
  - assumption.
  - cbn [run_events foldl]. apply IH. cbn [existsb] in He.
    destruct (is_settling ev) eqn:Hs; [right | by left].
    destruct ev; try discriminate; simpl; by destruct (rs_promise st).
  - cbn [run_events foldl]. apply IH. right.
    by rewrite RaceFacts.on_event_settled.
Qed.

End ExecMore.

(** X14.  A command that is empty or all white space is never handed to
    [spawn]: [executeStep] returns a failed result for it. *)
Theorem X14_blank_command_is_not_spawned
    (h : Host.t) (ex : SandboxExecutor.t) (child : SandboxExecutor.Child) (step : Step.t) :
  ExecFacts.is_blank (Step.command step) = true ->
  existsb SandboxExecutor.is_spawn (snd (SandboxExecutor.executeStep h ex child step)) = false
  /\ exists r, fst (SandboxExecutor.executeStep h ex child step) = Some r
               /\ ExecutionResult.success r = false.
Proof.
  intros Hb. apply ExecMore.parseCommand_blank in Hb.
  pose proof (ChildEnvFacts.validate_no_spawn h ex (ExecFacts.workingDir_of ex step)) as Hv.
  unfold SandboxExecutor.executeStep, ExecFacts.workingDir_of in *.
  destruct (SandboxExecutor._validateWorkingDirectory _ _ _) as [[msg|] effects];
    simpl in Hv.
  - split; [exact Hv|]. by eexists.
  - unfold SandboxExecutor._runCommand. rewrite Hb. simpl. rewrite app_nil_r.
    split; [exact Hv|]. by eexists.
Qed.

(** X14 at a command of three blanks. *)
Lemma X14_witness :
  existsb SandboxExecutor.is_spawn
    (snd (SandboxExecutor.executeStep c2_host c2_executor
            (SandboxExecutor.mkChild [] 0)
            {| Step.id := "s"; Step.description := "d"; Step.command := "   ";
               Step.requiresConfirmation := false; Step.riskLevel := None;
               Step.workingDirectory := None |})) = false.
Proof.
  apply (X14_blank_command_is_not_spawned c2_host c2_executor
           (SandboxExecutor.mkChild [] 0)
           {| Step.id := "s"; Step.description := "d"; Step.command := "   ";
              Step.requiresConfirmation := false; Step.riskLevel := None;
              Step.workingDirectory := None |}).
  reflexivity.
Defined.

(** X15.  When [executeStep] spawns, it has first created the working
    directory and probed it, it spawns once, the program and arguments are
    the words of the command, the child runs in the working directory with
    the executor's time-out and piped streams, and a shell is used on
    win32 only. *)
Theorem X15_spawn_follows_the_directory_check
    (h : Host.t) (ex : SandboxExecutor.t) (child : SandboxExecutor.Child) (step : Step.t)
    (cmd : string) (args : list string) (o : SandboxExecutor.SpawnOptions) :
  SandboxExecutor.Spawn cmd args o ∈ snd (SandboxExecutor.executeStep h ex child step) ->
  SandboxExecutor._parseCommand (Step.command step) = Some (cmd, args)
  /\ SandboxExecutor.so_cwd o = ExecFacts.workingDir_of ex step
  /\ SandboxExecutor.so_timeout o = SandboxExecutor.timeout ex
  /\ SandboxExecutor.so_stdio o = ["pipe"; "pipe"; "pipe"]
  /\ SandboxExecutor.so_shell o = String.eqb (Host.platform h) "win32"
  /\ exists rest,
       snd (SandboxExecutor.executeStep h ex child step)
       = [ SandboxExecutor.Mkdir (ExecFacts.workingDir_of ex step);
           SandboxExecutor.Access (Host.path_resolve h (ExecFacts.workingDir_of ex step));
           SandboxExecutor.Spawn cmd args o ] ++ rest
       /\ existsb SandboxExecutor.is_spawn rest = false.
Proof.
  rewrite ExecMore.executeStep_effects. cbv zeta.
  pose proof (ChildEnvFacts.validate_no_spawn h ex (ExecFacts.workingDir_of ex step)) as Hv.
  destruct (SandboxExecutor._validateWorkingDirectory _ _ _) as [[msg|] effects] eqn:Hval;
    simpl in Hv.
  { intros Hin. by apply ChildEnvFacts.not_spawn_in in Hin. }
  apply ExecMore.validate_passed in Hval. subst effects.
  destruct (SandboxExecutor._parseCommand (Step.command step)) as [[c a]|].
  2:{ intros Hin. by apply ChildEnvFacts.not_spawn_in in Hin. }
  pose proof (ChildEnvFacts.run_events_no_spawn ex (SandboxExecutor.events child)
                SandboxExecutor.initial eq_refl) as Hr.
  intros Hin. simpl in Hin.
  apply elem_of_cons in Hin as [Hin|Hin]; [discriminate|].
  apply elem_of_cons in Hin as [Hin|Hin]; [discriminate|].
  apply elem_of_cons in Hin as [Hin|Hin];
    [|by apply ChildEnvFacts.not_spawn_in in Hin].
  injection Hin as -> -> ->. simpl. repeat split.
  eexists. split; [reflexivity | exact Hr].
Qed.

(** X15 at the sample step. *)
Lemma X15_witness :
  SandboxExecutor._parseCommand (Step.command c3_step) = Some ("sleep", ["60"]).
Proof.
  apply (X15_spawn_follows_the_directory_check c2_host c2_executor
           (SandboxExecutor.mkChild [] 0) c3_step "sleep" ["60"]
           {| SandboxExecutor.so_cwd := "/tmp/genesis-eleven-work";
              SandboxExecutor.so_stdio := ["pipe"; "pipe"; "pipe"];
              SandboxExecutor.so_env :=
                SandboxExecutor._getSandboxEnvironment c2_host c2_executor;
              SandboxExecutor.so_timeout := 30000;
              SandboxExecutor.so_shell := false |}).
  vm_compute. do 2 apply list_elem_of_further. apply list_elem_of_here.
Defined.

(** X16.  Whatever the order of events, [executeStep] signals the child at
    most once, only with SIGTERM, and never after it has cleared the timer
    on the child's close. *)
Theorem X16_child_is_signalled_at_most_once
    (h : Host.t) (ex : SandboxExecutor.t) (child : SandboxExecutor.Child) (step : Step.t) :
  let effects := snd (SandboxExecutor.executeStep h ex child step) in
  length (List.filter ExecFacts.is_kill effects) <= 1
  /\ forallb is_sigterm effects = true
  /\ kill_after_clear false effects = false.
Proof.
  cbv zeta. rewrite ExecMore.executeStep_effects. cbv zeta.
  destruct (ExecMore.run_events_timer_inv ex (SandboxExecutor.events child)
              SandboxExecutor.initial ExecMore.initial_timer_inv)
    as (Hk & _ & Hs & Ho & _).
  unfold SandboxExecutor._validateWorkingDirectory.
  destruct (Host.fs_mkdir h _); [by repeat split; simpl; lia|].
  destruct (negb _); [by repeat split; simpl; lia|].
  destruct (Host.fs_access h _); [by repeat split; simpl; lia|].
  destruct (SandboxExecutor._parseCommand (Step.command step)) as [[c a]|];
    [|by repeat split; simpl; lia].
  simpl. repeat split; [|assumption|assumption].
  destruct (SandboxExecutor.rs_timer _); lia.
Qed.

(** X17.  Once the child closes or fails to run, [executeStep] returns: a
    run whose events hold a close or an error always yields a result. *)
Theorem X17_executeStep_returns_when_the_child_ends
    (h : Host.t) (ex : SandboxExecutor.t) (child : SandboxExecutor.Child) (step : Step.t) :
  existsb ExecFacts.is_settling (SandboxExecutor.events child) = true ->
  exists r, fst (SandboxExecutor.executeStep h ex child step) = Some r.
Proof.
  intros Hs. unfold SandboxExecutor.executeStep.
  destruct (SandboxExecutor._validateWorkingDirectory _ _ _) as [[msg|] effects];
    [by eexists|].
  unfold SandboxExecutor._runCommand.
  destruct (SandboxExecutor._parseCommand (Step.command step)) as [[c a]|];
    [|by eexists].
  pose proof (ExecMore.settled_after ex (SandboxExecutor.events child)
                SandboxExecutor.initial (or_introl Hs)) as Hp.
  destruct (SandboxExecutor.rs_promise _); [done | by eexists | by eexists].
Qed.

(** X17 at a child that writes and then cannot be run. *)
Lemma X17_witness :
  exists r,
    fst (SandboxExecutor.executeStep c2_host c2_executor
           (SandboxExecutor.mkChild
              [SandboxExecutor.StderrData "x"; SandboxExecutor.ChildError "spawn ENOENT"] 3)
           c3_step) = Some r.
Proof.
  apply (X17_executeStep_returns_when_the_child_ends c2_host c2_executor
           (SandboxExecutor.mkChild
              [SandboxExecutor.StderrData "x"; SandboxExecutor.ChildError "spawn ENOENT"] 3)
           c3_step).
  reflexivity.
Defined.

(** The messages that [executeStep] catches are never empty. *)
Lemma on_event_rejected_nonempty ex st ev :
  (forall m, SandboxExecutor.rs_promise st = SandboxExecutor.Rejected m -> m <> "") ->
  forall m, SandboxExecutor.rs_promise (SandboxExecutor.on_event ex st ev)
            = SandboxExecutor.Rejected m -> m <> "".
Proof.
  intros Hst m. destruct ev; simpl; try apply Hst.
  - destruct (SandboxExecutor.rs_promise st) eqn:Hp; simpl; try discriminate.
    intros [= <-]. by apply Hst.
  - destruct (SandboxExecutor.rs_promise st) eqn:Hp; simpl; try discriminate.
    + intros [= <-]. discriminate.
    + intros [= <-]. by apply Hst.
  - destruct (SandboxExecutor.rs_timer st); [|apply Hst].
    destruct (SandboxExecutor.rs_killed st); simpl; [apply Hst|].
    destruct (SandboxExecutor.rs_promise st) eqn:Hp; simpl; try discriminate.
    + intros [= <-]. discriminate.
    + intros [= <-]. by apply Hst.
Qed.

Lemma run_events_rejected_nonempty ex evs : forall st,
  (forall m, SandboxExecutor.rs_promise st = SandboxExecutor.Rejected m -> m <> "") ->
  forall m, SandboxExecutor.rs_promise (SandboxExecutor.run_events ex evs st)
            = SandboxExecutor.Rejected m -> m <> "".
Proof.
  induction evs as [|ev evs IH]; intros st Hst; [exact Hst|].
  cbn [SandboxExecutor.run_events foldl]. apply IH.
  by apply on_event_rejected_nonempty.
Qed.

Lemma runCommand_rejected_nonempty h ex child command workingDir m :
  fst (SandboxExecutor._runCommand h ex child command workingDir)
  = SandboxExecutor.Rejected m -> m <> "".
Proof.
  unfold SandboxExecutor._runCommand.
  destruct (SandboxExecutor._parseCommand command) as [[cmd args]|]; simpl.
  - apply run_events_rejected_nonempty. discriminate.
  - intros [= <-]. discriminate.
Qed.

Lemma validate_message_nonempty h ex workingDir m effects :
  SandboxExecutor._validateWorkingDirectory h ex workingDir = (Some m, effects) -> m <> "".
Proof.
  unfold SandboxExecutor._validateWorkingDirectory.
  destruct (Host.fs_mkdir h workingDir); [intros [= <- _]; discriminate|].
  destruct (negb _); [intros [= <- _]; discriminate|].
  destruct (Host.fs_access h _); [intros [= <- _]; discriminate | discriminate].
Qed.

(** X18.  Every result of [executeStep] has [success] true exactly when its
    exit code is 0 and names the step, its command and its working
    directory.  A result that carries an error is the fixed failure record
    (exit code -1, no output, the message as stderr, duration 0).  A result
    without error comes from a run whose promise resolved: it reports the
    exit code and the output the promise resolved with, and the measured
    duration. *)
Theorem X18_result_reports_the_exit_code
    (h : Host.t) (ex : SandboxExecutor.t) (child : SandboxExecutor.Child) (step : Step.t)
    (r : ExecutionResult.t) :
  fst (SandboxExecutor.executeStep h ex child step) = Some r ->
  ExecutionResult.success r = (ExecutionResult.exitCode r =? 0)%Z
  /\ ExecutionResult.stepId r = Step.id step
  /\ ExecutionResult.command r = Step.command step
  /\ ExecutionResult.workingDirectory r = ExecFacts.workingDir_of ex step
  /\ match ExecutionResult.error r with
     | Some message =>
         ExecutionResult.exitCode r = (-1)%Z /\ ExecutionResult.stdout r = ""
         /\ ExecutionResult.stderr r = message /\ ExecutionResult.duration r = 0%Z
     | None =>
         ExecutionResult.duration r = SandboxExecutor.elapsed child
         /\ exists result,
              fst (SandboxExecutor._runCommand h ex child (Step.command step)
                     (ExecFacts.workingDir_of ex step))
              = SandboxExecutor.Resolved result
              /\ ExecutionResult.exitCode r = SandboxExecutor.rr_exitCode result
              /\ ExecutionResult.stdout r = SandboxExecutor.rr_stdout result
              /\ ExecutionResult.stderr r = SandboxExecutor.rr_stderr result
     end.
Proof.
  assert (Hfailed : forall message,
            message <> "" ->
            let f := SandboxExecutor.failed ex step message in
            ExecutionResult.success f = (ExecutionResult.exitCode f =? 0)%Z
            /\ ExecutionResult.stepId f = Step.id step
            /\ ExecutionResult.command f = Step.command step
            /\ ExecutionResult.workingDirectory f = ExecFacts.workingDir_of ex step
            /\ ExecutionResult.error f = Some message
            /\ ExecutionResult.exitCode f = (-1)%Z /\ ExecutionResult.stdout f = ""
            /\ ExecutionResult.stderr f = message /\ ExecutionResult.duration f = 0%Z).
  { intros message Hm. apply String.eqb_neq in Hm. cbv zeta.
    unfold SandboxExecutor.failed. simpl. rewrite Hm. repeat split. }
  unfold SandboxExecutor.executeStep. fold (ExecFacts.workingDir_of ex step).
  destruct (SandboxExecutor._validateWorkingDirectory _ _ _) as [[msg|] effects] eqn:Hv.
  { intros [= <-]. apply validate_message_nonempty in Hv.
    destruct (Hfailed msg Hv) as (H1 & H2 & H3 & H4 & -> & H5). by repeat split. }
  destruct (SandboxExecutor._runCommand _ _ _ _ _) as [[|result|msg] effects'] eqn:Hr.
  - discriminate.
  - intros [= <-]. simpl. repeat split. by exists result.
  - intros [= <-].
    assert (msg <> "") as Hm
      by (apply (runCommand_rejected_nonempty h ex child (Step.command step)
                   (ExecFacts.workingDir_of ex step)); by rewrite Hr).
    destruct (Hfailed msg Hm) as (H1 & H2 & H3 & H4 & -> & H5). by repeat split.
Qed.

(** X18 at a child that exits with code 2. *)
Lemma X18_witness :
  ExecutionResult.success
    {| ExecutionResult.stepId := "step-1"; ExecutionResult.command := "sleep 60";
       ExecutionResult.exitCode := 2; ExecutionResult.stdout := "";
       ExecutionResult.stderr := ""; ExecutionResult.duration := 9;
       ExecutionResult.workingDirectory := "/tmp/genesis-eleven-work";
       ExecutionResult.success := false; ExecutionResult.error := None |}
  = (2 =? 0)%Z.
Proof.
  apply (X18_result_reports_the_exit_code c2_host c2_executor
           (SandboxExecutor.mkChild [SandboxExecutor.Close (Some 2%Z)] 9) c3_step).
  vm_compute. reflexivity.
Defined.

(** * Properties of [cleanup] *)

Lemma omap_map_cons {A B C} (g : A -> B) (f : B -> option C) (x : A) (l : list A) :
  omap f (map g (x :: l))
  = match f (g x) with
    | Some y => y :: omap f (map g l)
    | None => omap f (map g l)
    end.
Proof. reflexivity. Qed.

Lemma filter_cons_bool {A} (f : A -> bool) (x : A) (l : list A) :
  List.filter f (x :: l) = if f x then x :: List.filter f l else List.filter f l.
Proof. reflexivity. Qed.

(** X19.  [cleanup] hands to [fs.unlink] exactly the files of the scratch
    directory whose modification time is more than one hour back (a file
    exactly one hour old is kept), in directory order and each under the
    scratch directory.  A file whose [stat] or [unlink] fails adds one
    warning and does not keep the later files from being handled, and the
    run ends with the completion message. *)
Theorem X19_cleanup_unlinks_exactly_the_old_files
    (h : Host.t) (ex : SandboxExecutor.t) (f : Cleanup.fs) (files : list string) :
  Cleanup.tmp_exists f = true ->
  Cleanup.readdir f = inr files ->
  let tmpDir := Host.path_join h (SandboxExecutor.workDir ex) "tmp" in
  let unlinked := fst (Cleanup.cleanup h ex f) in
  let logs := snd (Cleanup.cleanup h ex f) in
  unlinked = map (Host.path_join h tmpDir) (List.filter (Cleanup.is_old h ex f) files)
  /\ length (List.filter Cleanup.is_warn_file logs)
     = length (List.filter (Cleanup.file_fails h ex f) files)
  /\ last logs = Some Cleanup.InfoCompleted.
Proof.
  intros Hex Hrd. cbv zeta. unfold Cleanup.cleanup. rewrite Hex, Hrd.
  cbn [fst snd].
  change (Cleanup.now f - 60 * 60 * 1000)%Z with (Cleanup.now f - 3600000)%Z.
  clear Hex Hrd. split; [|split].
  - induction files as [|file files IH]; [reflexivity|].
    rewrite omap_map_cons, filter_cons_bool, IH.
    unfold Cleanup.clean_file, Cleanup.is_old.
    destruct (Cleanup.stat_mtime f _) as [msg|mtime]; [reflexivity|].
    destruct (mtime <? Cleanup.now f - 3600000)%Z; [|reflexivity].
    by destruct (Cleanup.unlink f _).
  - rewrite List.filter_app, length_app. simpl. rewrite Nat.add_0_r.
    induction files as [|file files IH]; [reflexivity|].
    rewrite omap_map_cons, (filter_cons_bool (Cleanup.file_fails h ex f)).
    unfold Cleanup.clean_file at 1, Cleanup.file_fails at 1.
    destruct (Cleanup.stat_mtime f _) as [msg|mtime]; simpl; [by rewrite IH|].
    destruct (mtime <? Cleanup.now f - 3600000)%Z; simpl; [|exact IH].
    destruct (Cleanup.unlink f _); simpl; [by rewrite IH | exact IH].
  - apply last_snoc.
Qed.

(** X19 on a scratch directory of four files: a fresh one, an old one, one
    that cannot be read, and an old one that cannot be removed. *)
Lemma X19_witness :
  fst (Cleanup.cleanup c2_host c2_executor cleanup_sample)
  = map (Host.path_join c2_host
           (Host.path_join c2_host (SandboxExecutor.workDir c2_executor) "tmp"))
        (List.filter (Cleanup.is_old c2_host c2_executor cleanup_sample)
                     ["fresh"; "old"; "gone"; "locked"]).
Proof.
  apply (X19_cleanup_unlinks_exactly_the_old_files c2_host c2_executor cleanup_sample
           ["fresh"; "old"; "gone"; "locked"]); reflexivity.
Defined.

Example cleanup_run :
  Cleanup.cleanup c2_host c2_executor cleanup_sample
  = ([ "/tmp/genesis-eleven-work/tmp/old"; "/tmp/genesis-eleven-work/tmp/locked" ],
     [ Cleanup.WarnFile "gone" "ENOENT"; Cleanup.WarnFile "locked" "EPERM";
       Cleanup.InfoCompleted ]).
Proof. vm_compute. reflexivity. Qed.

(** * Properties of the API client's retry loop *)

Section RetryFacts.

Import GeminiClient RetrySpec.

Context {A : Type}.
Variable operation : nat -> nat -> string + A.
Variable maxRetries nkeys : nat.
Variable enableRotation : bool.

(** One failed, retryable attempt: what is done before the next one. *)
Lemma attempts_retry remaining attempt keyIndex lastError message :
  operation attempt keyIndex = inl message ->
  _isRetryableError message = true ->
  exists keyIndex' between,
    GeminiClient.attempts operation maxRetries nkeys enableRotation (S remaining) attempt keyIndex lastError
    = (let '(o, k, effects) := GeminiClient.attempts operation maxRetries nkeys enableRotation remaining (S attempt) keyIndex' message in
       (o, k, Call attempt keyIndex :: between ++ effects))
    /\ calls between = []
    /\ sleeps between = (if attempt <? maxRetries then [2 ^ attempt * 1000] else [])
    /\ (keyIndex < nkeys -> keyIndex' < nkeys)
    /\ (enableRotation = false \/ nkeys <= 1 -> keyIndex' = keyIndex).
Proof.
  intros Hop Hre. cbn [GeminiClient.attempts]. rewrite Hop, Hre. cbn [negb].
  unfold _shouldRotateKey, _rotateKey.
  destruct (existsb _ rotationTriggers && enableRotation) eqn:Hrot.
  - destruct (nkeys <=? 1) eqn:Hn.
    + exists keyIndex.
      exists (if attempt <? maxRetries then [Sleep (2 ^ attempt * 1000)] else []).
      destruct (GeminiClient.attempts _ _ _ _ _ _ _ _) as [[o k] effects].
      repeat split; try (by destruct (attempt <? maxRetries)); auto.
    + apply Nat.leb_gt in Hn. exists ((keyIndex + 1) mod nkeys).
      exists (Rotate ((keyIndex + 1) mod nkeys)
              :: if attempt <? maxRetries then [Sleep (2 ^ attempt * 1000)] else []).
      destruct (GeminiClient.attempts _ _ _ _ _ _ _ _) as [[o k] effects].
      repeat split; try (by destruct (attempt <? maxRetries)).
      * intros _. apply Nat.mod_upper_bound. lia.
      * intros [He|Hle]; [|lia]. subst enableRotation.
        by rewrite andb_false_r in Hrot.
  - exists keyIndex.
    exists (if attempt <? maxRetries then [Sleep (2 ^ attempt * 1000)] else []).
    destruct (GeminiClient.attempts _ _ _ _ _ _ _ _) as [[o k] effects].
    repeat split; try (by destruct (attempt <? maxRetries)); auto.
Qed.

Lemma calls_step attempt keyIndex between effects :
  calls between = [] ->
  calls (Call attempt keyIndex :: between ++ effects) = (attempt, keyIndex) :: calls effects.
Proof.
  intros Hb. unfold calls in *. cbn [omap list_omap]. f_equal.
  rewrite omap_app. by rewrite Hb.
Qed.

Lemma sleeps_step attempt keyIndex between effects :
  sleeps (Call attempt keyIndex :: between ++ effects) = sleeps between ++ sleeps effects.
Proof. unfold sleeps. cbn [omap list_omap]. apply omap_app. Qed.

(** The calls made from [attempt] on, with [remaining] iterations left. *)
Lemma attempts_calls remaining : forall attempt keyIndex lastError,
  attempt + remaining = maxRetries + 1 ->
  let '(o, k, effects) := GeminiClient.attempts operation maxRetries nkeys enableRotation remaining attempt keyIndex lastError in
  map fst (calls effects) = seq attempt (length (calls effects))
  /\ length (calls effects) <= remaining
  /\ (remaining <> 0 -> calls effects <> [])
  /\ sleeps effects = map (fun i => 2 ^ i * 1000) (seq attempt (length (calls effects) - 1))
  /\ forallb (failed_retryably operation) (removelast (calls effects)) = true
  /\ match last (calls effects) with
     | Some call => ends_as o (operation call.1 call.2)
     | None => remaining = 0
     end
  /\ (is_gave_up o = true -> length (calls effects) = remaining)
  /\ (calls effects = [] -> is_gave_up o = true).
Proof.
  induction remaining as [|remaining IH]; intros attempt keyIndex lastError Hsum.
  { simpl. repeat split; auto. }
  destruct (operation attempt keyIndex) as [message|value] eqn:Hop.
  2:{ cbn [GeminiClient.attempts]. rewrite Hop. simpl. rewrite Hop.
      repeat split; auto; try lia; discriminate. }
  destruct (_isRetryableError message) eqn:Hre.
  2:{ cbn [GeminiClient.attempts]. rewrite Hop, Hre. simpl. rewrite Hop.
      repeat split; auto; try lia; discriminate. }
  destruct (attempts_retry remaining attempt keyIndex lastError message Hop Hre)
    as (keyIndex' & between & -> & Hbc & Hbs & _ & _).
  specialize (IH (S attempt) keyIndex' message ltac:(lia)).
  destruct (GeminiClient.attempts _ _ _ _ _ _ _ _) as [[o k] effects].
  destruct IH as (Hnum & Hlen & Hne & Hsl & Hfail & Hlast & Hgave & Hnil).
  rewrite calls_step by assumption. rewrite sleeps_step, Hbs, Hsl.
  cbn [map fst length]. rewrite Hnum.
  split; [reflexivity|]. split; [lia|]. split; [discriminate|].
  split; [|split; [|split; [|split; [|discriminate]]]].
  - rewrite Nat.sub_succ, Nat.sub_0_r.
    destruct (attempt <? maxRetries) eqn:Hlt.
    + apply Nat.ltb_lt in Hlt.
      destruct (calls effects) as [|c cs] eqn:Hc; [by destruct Hne; [lia|]|].
      simpl. by rewrite Nat.sub_0_r.
    + apply Nat.ltb_ge in Hlt. assert (remaining = 0) as -> by lia.
      destruct (calls effects); [reflexivity | simpl in Hlen; lia].
  - destruct (calls effects) as [|c cs] eqn:Hc; [reflexivity|].
    change (removelast ((attempt, keyIndex) :: c :: cs))
      with ((attempt, keyIndex) :: removelast (c :: cs)).
    cbn [forallb]. rewrite Hfail, andb_true_r.
    unfold failed_retryably. simpl. by rewrite Hop.
  - destruct (calls effects) as [|c cs] eqn:Hc.
    + simpl. rewrite Hop. specialize (Hnil eq_refl).
      destruct o; try discriminate. exact Hre.
    + rewrite last_cons_cons.
      destruct (last (c :: cs)) as [call|] eqn:Hl; [exact Hlast|].
      rewrite last_cons in Hl. by destruct (last cs).
  - intros Hg. rewrite (Hgave Hg). reflexivity.
Qed.

(** The key index never leaves the key list, and stays put when rotation is
    disabled or there is a single key. *)
Lemma attempts_keys remaining : forall attempt keyIndex lastError,
  let '(o, k, effects) := GeminiClient.attempts operation maxRetries nkeys enableRotation remaining attempt keyIndex lastError in
  (keyIndex < nkeys -> k < nkeys /\ Forall (fun call => call.2 < nkeys) (calls effects))
  /\ (enableRotation = false \/ nkeys <= 1 ->
      k = keyIndex /\ Forall (fun call => call.2 = keyIndex) (calls effects)).
Proof.
  induction remaining as [|remaining IH]; intros attempt keyIndex lastError.
  { simpl. split; intros; split; auto; constructor. }
  destruct (operation attempt keyIndex) as [message|value] eqn:Hop.
  2:{ cbn [GeminiClient.attempts]. rewrite Hop. simpl.
      split; intros; split; auto; repeat constructor; auto. }
  destruct (_isRetryableError message) eqn:Hre.
  2:{ cbn [GeminiClient.attempts]. rewrite Hop, Hre. simpl.
      split; intros; split; auto; repeat constructor; auto. }
  destruct (attempts_retry remaining attempt keyIndex lastError message Hop Hre)
    as (keyIndex' & between & -> & Hbc & _ & Hlt & Hsame).
  specialize (IH (S attempt) keyIndex' message).
  destruct (GeminiClient.attempts _ _ _ _ _ _ _ _) as [[o k] effects].
  rewrite calls_step by assumption.
  destruct IH as [IH1 IH2]. split.
  - intros Hk. destruct (IH1 (Hlt Hk)) as [Hk' Hall].
    split; [assumption|]. constructor; assumption.
  - intros Hd. rewrite (Hsame Hd) in *. destruct (IH2 Hd) as [Hk' Hall].
    split; [assumption|]. constructor; [reflexivity | assumption].
Qed.

End RetryFacts.

(** X20.  [_executeWithRetry] calls the operation between one and
    [maxRetries + 1] times, the attempts being numbered from 0; every call
    but the last one failed with a retryable error; the last call decides
    how it ends (the value returned, a non-retryable error thrown again, or
    the ApiException after a retryable one); and it gives up only after
    exactly [maxRetries + 1] calls. *)
Theorem X20_retry_loop_is_bounded_and_ends_with_last_call {A}
    (operation : nat -> nat -> string + A) (maxRetries nkeys : nat)
    (enableRotation : bool) (keyIndex : nat) :
  let run := GeminiClient._executeWithRetry operation maxRetries nkeys enableRotation keyIndex in
  let made := GeminiClient.calls run.2 in
  1 <= length made <= maxRetries + 1
  /\ map fst made = seq 0 (length made)
  /\ forallb (RetrySpec.failed_retryably operation) (removelast made) = true
  /\ (exists call, last made = Some call
        /\ RetrySpec.ends_as run.1.1 (operation call.1 call.2))
  /\ (RetrySpec.is_gave_up run.1.1 = true -> length made = maxRetries + 1).
Proof.
  cbv zeta. unfold GeminiClient._executeWithRetry.
  pose proof (attempts_calls operation maxRetries nkeys enableRotation
                (maxRetries + 1) 0 keyIndex "" eq_refl) as H.
  destruct (GeminiClient.attempts _ _ _ _ _ _ _ _) as [[o k] effects].
  destruct H as (Hnum & Hlen & Hne & _ & Hfail & Hlast & Hgave & _).
  cbn [fst snd].
  assert (GeminiClient.calls effects <> []) as Hcalls by (apply Hne; lia).
  split; [|split; [exact Hnum | split; [exact Hfail | split; [|exact Hgave]]]].
  - split; [|exact Hlen].
    destruct (GeminiClient.calls effects); [done | simpl; lia].
  - destruct (last (GeminiClient.calls effects)) as [call|]; [by exists call | lia].
Qed.

Lemma backoff_succ n :
  GeminiClient.backoff (S n) = GeminiClient.backoff n ++ [2 ^ n * 1000].
Proof. unfold GeminiClient.backoff. by rewrite seq_S, map_app. Qed.

Lemma backoff_total n : sum_list (GeminiClient.backoff n) + 1000 = 2 ^ n * 1000.
Proof.
  induction n as [|n IH]; [reflexivity|].
  rewrite backoff_succ, sum_list_with_app.
  change (sum_list [2 ^ n * 1000]) with (2 ^ n * 1000 + 0).
  rewrite Nat.pow_succ_r'. lia.
Qed.

(** X21.  After [n] calls [_executeWithRetry] has slept [n - 1] times,
    for 1000, 2000, 4000, ... milliseconds in that order, and not after the
    last attempt; when it gives up it has slept
    [1000 * (2 ^ maxRetries - 1)] ms in all. *)
Theorem X21_backoff_doubles_between_calls {A}
    (operation : nat -> nat -> string + A) (maxRetries nkeys : nat)
    (enableRotation : bool) (keyIndex : nat) :
  let run := GeminiClient._executeWithRetry operation maxRetries nkeys enableRotation keyIndex in
  GeminiClient.sleeps run.2
  = GeminiClient.backoff (length (GeminiClient.calls run.2) - 1)
  /\ (RetrySpec.is_gave_up run.1.1 = true ->
      sum_list (GeminiClient.sleeps run.2) + 1000 = 2 ^ maxRetries * 1000).
Proof.
  cbv zeta. unfold GeminiClient._executeWithRetry.
  pose proof (attempts_calls operation maxRetries nkeys enableRotation
                (maxRetries + 1) 0 keyIndex "" eq_refl) as H.
  destruct (GeminiClient.attempts _ _ _ _ _ _ _ _) as [[o k] effects].
  destruct H as (_ & _ & _ & Hsl & _ & _ & Hgave & _).
  cbn [fst snd]. split; [exact Hsl|].
  intros Hg. rewrite Hsl, (Hgave Hg).
  replace (maxRetries + 1 - 1) with maxRetries by lia.
  apply backoff_total.
Qed.

(** X22.  Started on a key of the list, [_executeWithRetry] makes every
    call with a key index inside the list and leaves one inside it; with
    rotation disabled, or with at most one key, every call uses the key it
    started with and the index is left unchanged. *)
Theorem X22_key_index_stays_in_the_key_list {A}
    (operation : nat -> nat -> string + A) (maxRetries nkeys : nat)
    (enableRotation : bool) (keyIndex : nat) :
  keyIndex < nkeys ->
  let run := GeminiClient._executeWithRetry operation maxRetries nkeys enableRotation keyIndex in
  run.1.2 < nkeys
  /\ Forall (fun call => call.2 < nkeys) (GeminiClient.calls run.2)
  /\ (enableRotation = false \/ nkeys <= 1 ->
      run.1.2 = keyIndex
      /\ Forall (fun call => call.2 = keyIndex) (GeminiClient.calls run.2)).
Proof.
  intros Hk. cbv zeta. unfold GeminiClient._executeWithRetry.
  pose proof (attempts_keys operation maxRetries nkeys enableRotation
                (maxRetries + 1) 0 keyIndex "") as H.
  destruct (GeminiClient.attempts _ _ _ _ _ _ _ _) as [[o k] effects].
  destruct H as [Hin Hsame]. cbn [fst snd].
  destruct (Hin Hk) as [Hk' Hall]. auto.
Qed.

(** X22 with three keys and an operation that is always rate limited. *)
Lemma X22_witness :
  let run := GeminiClient._executeWithRetry (A := unit)
               (fun _ _ => inl "429 Too Many Requests") 3 3 true 2 in
  run.1.2 < 3
  /\ Forall (fun call => call.2 < 3) (GeminiClient.calls run.2)
  /\ (true = false \/ 3 <= 1 ->
      run.1.2 = 2 /\ Forall (fun call => call.2 = 2) (GeminiClient.calls run.2)).
Proof.
  apply (X22_key_index_stays_in_the_key_list (A := unit)
           (fun _ _ => inl "429 Too Many Requests") 3 3 true 2).
  lia.
Defined.

Lemma rotation_trigger_is_retryable message :
  existsb (fun trigger => JsString.includes (GeminiClient.toLowerCase message) trigger)
          GeminiClient.rotationTriggers = true ->
  GeminiClient._isRetryableError message = true.
Proof.
  unfold GeminiClient._isRetryableError. rewrite !existsb_exists.
  intros (trigger & Hin & Hinc). exists trigger. split; [|exact Hinc].
  unfold GeminiClient.rotationTriggers in Hin. unfold GeminiClient.retryableErrors.
  simpl in *. intuition auto.
Qed.

(** X23.  Every error for which [_shouldRotateKey] answers true is one
    that [_isRetryableError] accepts: the rotation triggers are among the
    retryable errors, so a key is never rotated for an error that is thrown
    again. *)
Theorem X23_rotation_only_for_retryable_errors (enableRotation : bool) (message : string) :
  GeminiClient._shouldRotateKey enableRotation message = true ->
  GeminiClient._isRetryableError message = true.
Proof.
  unfold GeminiClient._shouldRotateKey. intros H.
  apply andb_prop in H as [H _]. by apply rotation_trigger_is_retryable.
Qed.

(** X23 at a rate-limit message. *)
Lemma X23_witness :
  GeminiClient._isRetryableError "Rate limit exceeded for this key" = true.
Proof.
  apply (X23_rotation_only_for_retryable_errors true "Rate limit exceeded for this key").
  vm_compute. reflexivity.
Defined.

(** With rotation enabled, several keys and an operation that fails with a
    rotation trigger on every call, the loop moves to the next key after
    each call. *)
Lemma attempts_round_robin {A} (operation : nat -> nat -> string + A)
    (maxRetries nkeys : nat) :
  1 < nkeys ->
  (forall attempt keyIndex,
     match operation attempt keyIndex with
     | inl message => GeminiClient._shouldRotateKey true message = true
     | inr _ => False
     end) ->
  forall remaining attempt keyIndex lastError,
  keyIndex < nkeys ->
  let '(o, k, effects) :=
    GeminiClient.attempts operation maxRetries nkeys true remaining attempt keyIndex lastError in
  GeminiClient.calls effects
  = map (fun i => (attempt + i, (keyIndex + i) mod nkeys)) (seq 0 remaining)
  /\ k = (keyIndex + remaining) mod nkeys
  /\ RetrySpec.is_gave_up o = true.
Proof.
  intros Hn Hop.
  induction remaining as [|remaining IH]; intros attempt keyIndex lastError Hk.
  { simpl. rewrite Nat.add_0_r, Nat.mod_small by assumption. done. }
  cbn [GeminiClient.attempts].
  pose proof (Hop attempt keyIndex) as Hfail.
  destruct (operation attempt keyIndex) as [message|value]; [|done].
  assert (GeminiClient._isRetryableError message = true) as Hre.
  { unfold GeminiClient._shouldRotateKey in Hfail.
    apply andb_prop in Hfail as [Hfail _]. by apply rotation_trigger_is_retryable. }
  rewrite Hre, Hfail. cbn [negb]. unfold GeminiClient._rotateKey.
  destruct (nkeys <=? 1) eqn:Hle; [apply Nat.leb_le in Hle; lia|].
  assert ((keyIndex + 1) mod nkeys < nkeys) as Hk'
    by (apply Nat.mod_upper_bound; lia).
  specialize (IH (S attempt) ((keyIndex + 1) mod nkeys) message Hk').
  destruct (GeminiClient.attempts _ _ _ _ _ _ _ _) as [[o k] effects].
  destruct IH as (Hcalls & Hkey & Hg).
  split; [|split; [|exact Hg]].
  - change (GeminiClient.Call attempt keyIndex
            :: [GeminiClient.Rotate ((keyIndex + 1) mod nkeys)]
            ++ (if attempt <? maxRetries
                then [GeminiClient.Sleep (2 ^ attempt * 1000)] else [])
            ++ effects)
      with (GeminiClient.Call attempt keyIndex
            :: (GeminiClient.Rotate ((keyIndex + 1) mod nkeys)
                :: (if attempt <? maxRetries
                    then [GeminiClient.Sleep (2 ^ attempt * 1000)] else []))
            ++ effects).
    rewrite calls_step by (by destruct (attempt <? maxRetries)).
    rewrite Hcalls. cbn [seq map]. rewrite <- seq_shift, map_map.
    rewrite !Nat.add_0_r, (Nat.mod_small keyIndex) by assumption.
    f_equal. apply map_ext. intros i.
    rewrite Nat.Div0.add_mod_idemp_l. f_equal; [lia | f_equal; lia].
  - rewrite Hkey, Nat.Div0.add_mod_idemp_l. f_equal. lia.
Qed.

(** X24.  With rotation enabled, more than one key and an operation that
    fails on a rotation trigger every time, [_executeWithRetry] goes round
    the key list: attempt [i] is made with key [(keyIndex + i) mod nkeys],
    all [maxRetries + 1] attempts are made, and the ApiException is thrown. *)
Theorem X24_rate_limited_calls_go_round_the_keys {A}
    (operation : nat -> nat -> string + A) (maxRetries nkeys keyIndex : nat) :
  1 < nkeys ->
  keyIndex < nkeys ->
  (forall attempt keyIndex,
     match operation attempt keyIndex with
     | inl message => GeminiClient._shouldRotateKey true message = true
     | inr _ => False
     end) ->
  let run := GeminiClient._executeWithRetry operation maxRetries nkeys true keyIndex in
  GeminiClient.calls run.2
  = map (fun i => (i, (keyIndex + i) mod nkeys)) (seq 0 (maxRetries + 1))
  /\ run.1.2 = (keyIndex + (maxRetries + 1)) mod nkeys
  /\ RetrySpec.is_gave_up run.1.1 = true.
Proof.
  intros Hn Hk Hop. cbv zeta. unfold GeminiClient._executeWithRetry.
  pose proof (attempts_round_robin operation maxRetries nkeys Hn Hop
                (maxRetries + 1) 0 keyIndex "" Hk) as H.
  destruct (GeminiClient.attempts _ _ _ _ _ _ _ _) as [[o k] effects].
  exact H.
Qed.

(** X24 with three keys, three retries and a quota error on every call:
    the keys used are 2, 0, 1, 2. *)
Lemma X24_witness :
  let run := GeminiClient._executeWithRetry (A := unit)
               (fun _ _ => inl "Quota exceeded") 3 3 true 2 in
  GeminiClient.calls run.2 = map (fun i => (i, (2 + i) mod 3)) (seq 0 (3 + 1))
  /\ run.1.2 = (2 + (3 + 1)) mod 3
  /\ RetrySpec.is_gave_up run.1.1 = true.
Proof.
  apply (X24_rate_limited_calls_go_round_the_keys (A := unit)
           (fun _ _ => inl "Quota exceeded") 3 3 2).
  - lia.
  - lia.
  - intros attempt keyIndex. vm_compute. reflexivity.
Defined.

Module KeyFacts.

Import JsString ExecFacts ParseFacts GeminiClient KeySpec.

Lemma split_comma_no_comma l : forall cur,
  forallb not_comma cur = true ->
  Forall (fun field => forallb not_comma (chars field) = true) (split_comma l cur).
Proof.
  induction l as [|c l IH]; intros cur Hcur; simpl.
  - constructor; [|constructor]. by rewrite chars_of_chars, forallb_reversed.
  - destruct (Ascii.eqb c ",") eqn:Hc.
    + constructor; [by rewrite chars_of_chars, forallb_reversed | by apply IH].
    + apply IH. simpl. unfold not_comma at 1, is_comma. by rewrite Hc.
Qed.

Lemma split_comma_blank l : forall cur,
  forallb is_blank (split_comma l cur)
  = forallb is_space cur && forallb key_separator l.
Proof.
  induction l as [|c l IH]; intros cur; simpl.
  - unfold is_blank. by rewrite chars_of_chars, forallb_reversed.
  - unfold key_separator at 1, is_comma. destruct (Ascii.eqb c ",") eqn:Hc.
    + simpl. rewrite IH. unfold is_blank.
      rewrite chars_of_chars, forallb_reversed, orb_true_r. reflexivity.
    + rewrite IH. simpl. rewrite orb_false_r.
      destruct (is_space c), (forallb is_space cur); reflexivity.
Qed.

(** What is left of the separators-free characters. *)
Lemma split_comma_chars l : forall cur,
  concat (map (fun field => List.filter not_space (chars field)) (split_comma l cur))
  = List.filter not_space (rev cur) ++ List.filter not_separator l.
Proof.
  induction l as [|c l IH]; intros cur; simpl.
  - by rewrite chars_of_chars, !app_nil_r.
  - unfold not_separator at 1, key_separator, is_comma.
    destruct (Ascii.eqb c ",") eqn:Hc.
    + simpl. rewrite IH, chars_of_chars, orb_true_r. reflexivity.
    + rewrite IH. simpl. rewrite List.filter_app, orb_false_r. simpl.
      unfold not_space at 2. destruct (is_space c); simpl.
      * by rewrite app_nil_r.
      * by rewrite <- app_assoc.
Qed.

Lemma trim_start_keeps (p : ascii -> bool) l :
  forallb p l = true -> forallb p (trim_start l) = true.
Proof.
  destruct (trim_start_split l) as (pre & Hl & _).
  rewrite Hl at 1. rewrite forallb_app. intros H. by apply andb_prop in H as [_ H].
Qed.

Lemma trimmed_keeps (p : ascii -> bool) l :
  forallb p l = true -> forallb p (trimmed l) = true.
Proof.
  intros H. unfold trimmed. rewrite forallb_reversed. apply trim_start_keeps.
  rewrite forallb_reversed. by apply trim_start_keeps.
Qed.

Lemma trim_empty field : String.eqb (trim field) "" = is_blank field.
Proof.
  unfold is_blank. destruct (forallb is_space (chars field)) eqn:Hb.
  - apply trimmed_nil in Hb. apply String.eqb_eq. unfold trim.
    change (of_chars (trimmed (chars field)) = ""). by rewrite Hb.
  - apply String.eqb_neq. intros He. apply (f_equal chars) in He.
    rewrite trim_chars in He. change (chars "") with (@nil ascii) in He.
    apply trimmed_nil in He. congruence.
Qed.

Lemma parse_keys_fields fields :
  List.filter (fun key => negb (String.eqb key "")) (map trim fields) = []
  <-> forallb is_blank fields = true.
Proof.
  induction fields as [|field fields IH]; [done|].
  simpl. rewrite trim_empty. destruct (is_blank field); simpl; [exact IH|].
  split; discriminate.
Qed.

Lemma parse_keys_chars fields :
  concat (map (fun key => List.filter not_space (chars key))
              (List.filter (fun key => negb (String.eqb key "")) (map trim fields)))
  = concat (map (fun field => List.filter not_space (chars field)) fields).
Proof.
  induction fields as [|field fields IH]; [reflexivity|].
  simpl. destruct (String.eqb (trim field) "") eqn:He; simpl.
  - rewrite IH. rewrite <- (trimmed_filter (chars field)), <- trim_chars.
    apply String.eqb_eq in He. by rewrite He.
  - rewrite IH. by rewrite trim_chars, trimmed_filter.
Qed.

Lemma parse_keys_wellformed fields :
  Forall (fun field => forallb not_comma (chars field) = true) fields ->
  Forall (fun key =>
            key <> ""
            /\ forallb not_comma (chars key) = true
            /\ (forall c, head (chars key) = Some c -> is_space c = false)
            /\ (forall c, last (chars key) = Some c -> is_space c = false))
         (List.filter (fun key => negb (String.eqb key "")) (map trim fields)).
Proof.
  induction 1 as [|field fields Hfield _ IH]; [constructor|].
  simpl. destruct (String.eqb (trim field) "") eqn:He; simpl; [exact IH|].
  constructor; [|exact IH].
  apply String.eqb_neq in He. split; [exact He|].
  rewrite trim_chars. split; [by apply trimmed_keeps|].
  assert (trimmed (chars field) <> []) as Hne.
  { intros Hnil. apply He. unfold trim.
    change (of_chars (trimmed (chars field)) = ""). by rewrite Hnil. }
  destruct (trimmed_ends _ Hne) as [(c & t & Hc & Hsp) Hlast].
  split; [|exact Hlast].
  intros c'. rewrite Hc. simpl. by intros [= <-].
Qed.

End KeyFacts.

(** X25.  The keys [initialize] reads from 'gemini.apiKeys': none is
    empty, none holds a comma, none begins or ends with white space; and
    apart from white space they hold, in order, exactly the characters of
    the configured string that are neither commas nor white space. *)
Theorem X25_configured_keys_are_trimmed_and_non_empty (keysConfig : string) :
  Forall (fun key =>
            key <> ""
            /\ forallb KeySpec.not_comma (JsString.chars key) = true
            /\ (forall c, head (JsString.chars key) = Some c -> JsString.is_space c = false)
            /\ (forall c, last (JsString.chars key) = Some c -> JsString.is_space c = false))
         (GeminiClient.parse_keys keysConfig)
  /\ concat (map (fun key => List.filter ExecFacts.not_space (JsString.chars key))
                 (GeminiClient.parse_keys keysConfig))
     = List.filter KeySpec.not_separator (JsString.chars keysConfig).
Proof.
  unfold GeminiClient.parse_keys. split.
  - apply KeyFacts.parse_keys_wellformed. by apply KeyFacts.split_comma_no_comma.
  - rewrite KeyFacts.parse_keys_chars. apply (KeyFacts.split_comma_chars _ []).
Qed.

(** X26.  [initialize] throws its ApiException ('No API keys found')
    exactly when the configured string holds nothing but commas and white
    space; otherwise it sets up a key list that is not empty. *)
Theorem X26_initialize_fails_iff_no_key_is_configured (keysConfig : string) :
  match GeminiClient.initialize_keys keysConfig with
  | inl _ => forallb KeySpec.key_separator (JsString.chars keysConfig) = true
  | inr apiKeys =>
      forallb KeySpec.key_separator (JsString.chars keysConfig) = false
      /\ apiKeys = GeminiClient.parse_keys keysConfig /\ apiKeys <> []
  end.
Proof.
  unfold GeminiClient.initialize_keys.
  pose proof (KeyFacts.parse_keys_fields
                (GeminiClient.split_comma (JsString.chars keysConfig) [])) as H.
  rewrite KeyFacts.split_comma_blank in H. cbn [forallb andb] in H.
  fold (GeminiClient.parse_keys keysConfig) in H.
  destruct (GeminiClient.parse_keys keysConfig) as [|key keys] eqn:Hkeys; simpl.
  - by apply H.
  - split; [|done].
    destruct (forallb KeySpec.key_separator (JsString.chars keysConfig)); [|done].
    by destruct H as [_ H]; specialize (H eq_refl).
Qed.

Module PlanFacts.

Import Planner PlanSpec.

Lemma assoc_set_field_eq key v fields : assoc key (set_field key v fields) = Some v.
Proof.
  induction fields as [|[k w] fields IH]; simpl.
  - by rewrite String.eqb_refl.
  - destruct (String.eqb k key) eqn:Hk; simpl; by rewrite Hk.
Qed.

Lemma assoc_set_field_ne key key' v fields :
  String.eqb key' key = false ->
  assoc key (set_field key' v fields) = assoc key fields.
Proof.
  intros Hne. induction fields as [|[k w] fields IH]; simpl.
  - by rewrite Hne.
  - destruct (String.eqb k key') eqn:Hk; simpl.
    + apply String.eqb_eq in Hk. subst k. by rewrite Hne.
    + by rewrite IH.
Qed.

Lemma set_field_same key v fields :
  assoc key fields = Some v -> set_field key v fields = fields.
Proof.
  induction fields as [|[k w] fields IH]; simpl; [discriminate|].
  destruct (String.eqb k key).
  - by intros [= ->].
  - intros H. by rewrite IH.
Qed.

Lemma set_default_defined key d fields :
  defined (assoc key fields) = true -> set_default key d fields = fields.
Proof. unfold set_default. by destruct (assoc key fields) as [[]|]. Qed.

Lemma assoc_set_default_eq key d fields :
  assoc key (set_default key d fields)
  = if defined (assoc key fields) then assoc key fields else Some d.
Proof.
  unfold set_default.
  destruct (assoc key fields) as [[]|] eqn:Hk; simpl;
    first [exact Hk | apply assoc_set_field_eq].
Qed.

Lemma assoc_set_default_ne key key' d fields :
  String.eqb key' key = false ->
  assoc key (set_default key' d fields) = assoc key fields.
Proof.
  intros Hne. unfold set_default.
  destruct (assoc key' fields) as [[]|]; first [reflexivity | by apply assoc_set_field_ne].
Qed.

(** A default never replaces a value that is set. *)
Lemma set_default_keeps key key' d fields v :
  assoc key fields = Some v -> v <> JNull ->
  assoc key (set_default key' d fields) = Some v.
Proof.
  intros Hv Hnull. destruct (String.eqb key' key) eqn:Hk.
  - apply String.eqb_eq in Hk. subst key'.
    rewrite assoc_set_default_eq, Hv. by destruct v.
  - by rewrite assoc_set_default_ne.
Qed.

Lemma defined_set_default key d fields :
  d <> JNull -> defined (assoc key (set_default key d fields)) = true.
Proof.
  intros Hd. rewrite assoc_set_default_eq.
  destruct (defined (assoc key fields)) eqn:Hk; [exact Hk | by destruct d].
Qed.

(** The steps that the [forEach] callback lets through. *)
Lemma check_step_inr cwd index step step' :
  check_step cwd index step = inr step' ->
  exists fields,
    step = JObj fields
    /\ missing_required step = false
    /\ step' = JObj (set_default "workingDirectory" (JStr cwd)
                       (set_default "riskLevel" (JStr "low")
                          (set_default "requiresConfirmation" (JBool false) fields))).
Proof.
  unfold check_step, missing_required.
  destruct step as [| b | z | s | items | fields]; simpl; try discriminate.
  destruct (negb (truthy (assoc "id" fields)) || negb (truthy (assoc "command" fields))
            || negb (truthy (assoc "description" fields))); [discriminate|].
  intros [= <-]. by exists fields.
Qed.

Lemma check_step_complete_out cwd index step step' :
  check_step cwd index step = inr step' ->
  complete_step step' = true /\ keeps_fields step step'.
Proof.
  intros H. apply check_step_inr in H as (fields & -> & Hreq & ->). split.
  - unfold complete_step, missing_required, field in *.
    rewrite !(assoc_set_default_ne "id"), !(assoc_set_default_ne "command"),
      !(assoc_set_default_ne "description") by reflexivity.
    rewrite Hreq. cbn [negb andb].
    rewrite !(assoc_set_default_ne "requiresConfirmation"),
      !(assoc_set_default_ne "riskLevel") by reflexivity.
    rewrite !defined_set_default by discriminate. reflexivity.
  - intros key v Hv Hnull. unfold field in *.
    by repeat apply set_default_keeps.
Qed.

(** A step that went through goes through again, unchanged. *)
Lemma check_step_again cwd cwd' index index' step step' :
  check_step cwd index step = inr step' ->
  check_step cwd' index' step' = inr step'.
Proof.
  intros H. pose proof (check_step_complete_out _ _ _ _ H) as [Hc _].
  apply check_step_inr in H as (fields & -> & Hreq & ->).
  unfold complete_step in Hc.
  apply andb_prop in Hc as [Hc Hwd]. apply andb_prop in Hc as [Hc Hrl].
  apply andb_prop in Hc as [Hc Hrc]. apply negb_true_iff in Hc.
  set (out := set_default "workingDirectory" _ _) in *.
  unfold check_step. cbn [get]. unfold missing_required in Hc. rewrite Hc.
  unfold field in *.
  rewrite (set_default_defined "requiresConfirmation") by assumption.
  rewrite (set_default_defined "riskLevel") by assumption.
  by rewrite (set_default_defined "workingDirectory") by assumption.
Qed.

Lemma check_steps_inr cwd steps : forall index steps',
  check_steps cwd index steps = inr steps' ->
  Forall2 (fun step step' => exists i, check_step cwd i step = inr step') steps steps'.
Proof.
  induction steps as [|step steps IH]; intros index steps'; cbn [check_steps].
  - intros [= <-]. constructor.
  - destruct (check_step cwd index step) as [e|step'] eqn:Hs; [discriminate|].
    destruct (check_steps cwd (index + 1) steps) as [e|rest'] eqn:Hr; [discriminate|].
    intros [= <-]. constructor; [by exists index | by apply (IH (index + 1))].
Qed.

Lemma check_steps_again cwd cwd' steps steps' :
  Forall2 (fun step step' => exists i, check_step cwd i step = inr step') steps steps' ->
  forall index, check_steps cwd' index steps' = inr steps'.
Proof.
  induction 1 as [|step step' steps steps' [i Hs] _ IH]; intros index; [reflexivity|].
  cbn [check_steps]. rewrite (check_step_again _ cwd' _ index _ _ Hs).
  by rewrite IH.
Qed.

(** What [_parseAndValidatePlan] returns when it does not throw. *)
Lemma parse_inr cwd parsed plan :
  _parseAndValidatePlan cwd parsed = inr plan ->
  exists fields items items',
    parsed = Some (JObj fields)
    /\ assoc "steps" fields = Some (JArr items)
    /\ truthy (assoc "intent" fields) = true
    /\ items <> []
    /\ check_steps cwd 0 items = inr items'
    /\ plan = JObj (set_default "prerequisites" (JArr [])
                     (set_default "estimatedDuration" (JStr "Unknown")
                        (set_default "rollback" (JStr "No automatic rollback available")
                           (set_default "riskLevel" (JStr "low")
                              (set_field "steps" (JArr items') fields))))).
Proof.
  unfold _parseAndValidatePlan.
  destruct parsed as [[| b | z | s | l | fields]|]; simpl; try discriminate.
  destruct (assoc "steps" fields) as [[| b | z | s | items | o]|] eqn:Hsteps;
    try discriminate.
  destruct (truthy (assoc "intent" fields)) eqn:Hintent; [|discriminate].
  cbn [negb]. destruct items as [|item items]; [discriminate|].
  cbn [length Nat.eqb].
  destruct (check_steps cwd 0 (item :: items)) as [e|items'] eqn:Hc; [discriminate|].
  intros [= <-]. by exists fields, (item :: items), items'.
Qed.

End PlanFacts.

(** X27.  When [_parseAndValidatePlan] returns, what it returns is the
    parsed object with a true [intent] and a [steps] array that is not
    empty and as long as the one received; every step in it has [id],
    [command] and [description] and has [requiresConfirmation],
    [riskLevel] and [workingDirectory] set; the plan has [riskLevel],
    [rollback], [estimatedDuration] and [prerequisites] set; and no value
    that was set in a step, or in the plan outside [steps], is changed. *)
Theorem X27_returned_plan_is_complete_and_keeps_given_values
    (cwd : string) (parsed : option Planner.json) (plan : Planner.json) :
  Planner._parseAndValidatePlan cwd parsed = inr plan ->
  exists planData items items',
    parsed = Some planData
    /\ Planner.steps_of planData = Some items
    /\ Planner.steps_of plan = Some items'
    /\ items' <> []
    /\ Forall2 PlanSpec.keeps_fields items items'
    /\ forallb PlanSpec.complete_step items' = true
    /\ Planner.truthy (PlanSpec.field "intent" plan) = true
    /\ forallb (fun key => PlanSpec.defined (PlanSpec.field key plan))
         ["riskLevel"; "rollback"; "estimatedDuration"; "prerequisites"] = true
    /\ (forall key v, key <> "steps" -> PlanSpec.field key planData = Some v ->
                      v <> Planner.JNull -> PlanSpec.field key plan = Some v).
Proof.
  intros H. apply PlanFacts.parse_inr in H
    as (fields & items & items' & -> & Hsteps & Hintent & Hne & Hc & ->).
  exists (Planner.JObj fields), items, items'.
  apply PlanFacts.check_steps_inr in Hc.
  assert (Forall2 PlanSpec.keeps_fields items items'
          /\ forallb PlanSpec.complete_step items' = true) as [Hkeep Hcomplete].
  { clear Hne Hsteps. induction Hc as [|step step' steps steps' [i Hs] _ [IH1 IH2]].
    - split; [constructor | reflexivity].
    - apply PlanFacts.check_step_complete_out in Hs as [Hs1 Hs2].
      split; [by constructor | cbn [forallb]; by rewrite Hs1, IH2]. }
  split; [reflexivity|]. split; [by unfold Planner.steps_of; rewrite Hsteps|].
  split.
  { unfold Planner.steps_of.
    rewrite !(PlanFacts.assoc_set_default_ne "steps") by reflexivity.
    by rewrite PlanFacts.assoc_set_field_eq. }
  split.
  { intros ->. apply Forall2_length in Hc. destruct items; [done | discriminate]. }
  split; [exact Hkeep|]. split; [exact Hcomplete|]. split.
  { unfold PlanSpec.field.
    rewrite !(PlanFacts.assoc_set_default_ne "intent") by reflexivity.
    by rewrite PlanFacts.assoc_set_field_ne by reflexivity. }
  split.
  { unfold PlanSpec.field. cbn [forallb].
    rewrite !(PlanFacts.assoc_set_default_ne "riskLevel") by reflexivity.
    rewrite !(PlanFacts.assoc_set_default_ne "rollback") by reflexivity.
    rewrite !(PlanFacts.assoc_set_default_ne "estimatedDuration") by reflexivity.
    by rewrite !PlanFacts.defined_set_default by discriminate. }
  intros key v Hkey Hv Hnull. unfold PlanSpec.field in *.
  repeat apply PlanFacts.set_default_keeps; try assumption.
  rewrite PlanFacts.assoc_set_field_ne; [assumption|].
  apply String.eqb_neq. congruence.
Qed.

(** X27 at a plan of two steps. *)
Lemma X27_witness :
  exists plan,
    Planner._parseAndValidatePlan "/home/user" (Some complete_plan_doc) = inr plan
    /\ exists planData items items',
         Some complete_plan_doc = Some planData
         /\ Planner.steps_of planData = Some items
         /\ Planner.steps_of plan = Some items'
         /\ items' <> []
         /\ Forall2 PlanSpec.keeps_fields items items'
         /\ forallb PlanSpec.complete_step items' = true
         /\ Planner.truthy (PlanSpec.field "intent" plan) = true
         /\ forallb (fun key => PlanSpec.defined (PlanSpec.field key plan))
              ["riskLevel"; "rollback"; "estimatedDuration"; "prerequisites"] = true
         /\ (forall key v, key <> "steps" -> PlanSpec.field key planData = Some v ->
                           v <> Planner.JNull -> PlanSpec.field key plan = Some v).
Proof.
  eexists. split; [vm_compute; reflexivity|].
  apply (X27_returned_plan_is_complete_and_keeps_given_values
           "/home/user" (Some complete_plan_doc)).
  vm_compute. reflexivity.
Defined.

(** X28.  A plan that [_parseAndValidatePlan] returned is a fixed point of
    it: given that plan again, whatever the current directory, it returns
    it unchanged and does not throw. *)
Theorem X28_returned_plan_parses_to_itself
    (cwd cwd' : string) (parsed : option Planner.json) (plan : Planner.json) :
  Planner._parseAndValidatePlan cwd parsed = inr plan ->
  Planner._parseAndValidatePlan cwd' (Some plan) = inr plan.
Proof.
  intros H. apply PlanFacts.parse_inr in H
    as (fields & items & items' & -> & Hsteps & Hintent & Hne & Hc & ->).
  apply PlanFacts.check_steps_inr in Hc.
  assert (items' <> []) as Hne'.
  { intros ->. apply Forall2_length in Hc. destruct items; [done | discriminate]. }
  set (out := Planner.set_default "prerequisites" _ _).
  assert (Planner.assoc "intent" out = Planner.assoc "intent" fields) as Hi.
  { unfold out. rewrite !(PlanFacts.assoc_set_default_ne "intent") by reflexivity.
    by rewrite PlanFacts.assoc_set_field_ne by reflexivity. }
  assert (Planner.assoc "steps" out = Some (Planner.JArr items')) as Hs.
  { unfold out. rewrite !(PlanFacts.assoc_set_default_ne "steps") by reflexivity.
    by rewrite PlanFacts.assoc_set_field_eq. }
  assert (PlanSpec.defined (Planner.assoc "riskLevel" out) = true) as Hrl.
  { unfold out. rewrite !(PlanFacts.assoc_set_default_ne "riskLevel") by reflexivity.
    by rewrite PlanFacts.defined_set_default. }
  assert (PlanSpec.defined (Planner.assoc "rollback" out) = true) as Hrb.
  { unfold out. rewrite !(PlanFacts.assoc_set_default_ne "rollback") by reflexivity.
    by rewrite PlanFacts.defined_set_default. }
  assert (PlanSpec.defined (Planner.assoc "estimatedDuration" out) = true) as Hed.
  { unfold out. rewrite !(PlanFacts.assoc_set_default_ne "estimatedDuration") by reflexivity.
    by rewrite PlanFacts.defined_set_default. }
  assert (PlanSpec.defined (Planner.assoc "prerequisites" out) = true) as Hpr.
  { unfold out. by rewrite PlanFacts.defined_set_default. }
  clearbody out. unfold Planner._parseAndValidatePlan. cbn [Planner.get].
  rewrite Hi, Hs, Hintent. cbn [negb].
  destruct items' as [|item' items']; [done|]. cbn [length Nat.eqb].
  rewrite (PlanFacts.check_steps_again _ cwd' _ _ Hc).
  rewrite (PlanFacts.set_field_same _ _ _ Hs).
  rewrite (PlanFacts.set_default_defined "riskLevel") by assumption.
  rewrite (PlanFacts.set_default_defined "rollback") by assumption.
  rewrite (PlanFacts.set_default_defined "estimatedDuration") by assumption.
  by rewrite (PlanFacts.set_default_defined "prerequisites") by assumption.
Qed.

(** X28 at a plan of two steps. *)
Lemma X28_witness :
  exists plan,
    Planner._parseAndValidatePlan "/home/user" (Some complete_plan_doc) = inr plan
    /\ Planner._parseAndValidatePlan "/tmp" (Some plan) = inr plan.
Proof.
  eexists. split; [vm_compute; reflexivity|].
  apply (X28_returned_plan_parses_to_itself "/home/user" "/tmp" (Some complete_plan_doc)).
  vm_compute. reflexivity.
Defined.

Module ExecuteFacts.

Import Execute ExecuteSpec.

(** What [executeStep] spawns is the parsed command of the step. *)
Lemma executeStep_spawns_parsed h ex child step cmd args o :
  SandboxExecutor.Spawn cmd args o ∈ snd (SandboxExecutor.executeStep h ex child step) ->
  SandboxExecutor._parseCommand (Step.command step) = Some (cmd, args).
Proof.
  rewrite ExecMore.executeStep_effects. cbv zeta.
  pose proof (ChildEnvFacts.validate_no_spawn h ex (ExecFacts.workingDir_of ex step)) as Hv.
  destruct (SandboxExecutor._validateWorkingDirectory _ _ _) as [[msg|] effects] eqn:Hval;
    simpl in Hv.
  { intros Hin. by apply ChildEnvFacts.not_spawn_in in Hin. }
  apply ExecMore.validate_passed in Hval. subst effects.
  destruct (SandboxExecutor._parseCommand (Step.command step)) as [[c a]|].
  2:{ intros Hin. by apply ChildEnvFacts.not_spawn_in in Hin. }
  pose proof (ChildEnvFacts.run_events_no_spawn ex (SandboxExecutor.events child)
                SandboxExecutor.initial eq_refl) as Hr.
  intros Hin. simpl in Hin.
  apply elem_of_cons in Hin as [Hin|Hin]; [discriminate|].
  apply elem_of_cons in Hin as [Hin|Hin]; [discriminate|].
  apply elem_of_cons in Hin as [Hin|Hin];
    [|by apply ChildEnvFacts.not_spawn_in in Hin].
  by injection Hin as -> -> ->.
Qed.

Section Loop.

Variable h : Host.t.
Variable ex : SandboxExecutor.t.
Variable w : World.
Variable total : nat.

(** One turn of the loop. *)
Lemma run_steps_cons index step rest st :
  run_steps h ex w total index (step :: rest) st
  = match SandboxExecutor.executeStep h ex (child w index) step with
    | (None, effects') =>
        {| executionResults := executionResults st;
           allSuccessful := allSuccessful st;
           effects := effects st ++ effects';
           asked := asked st;
           waiting := true |}
    | (Some result, effects') =>
        let st1 :=
          {| executionResults := executionResults st ++ [result];
             allSuccessful := allSuccessful st && ExecutionResult.success result;
             effects := effects st ++ effects';
             asked := asked st ++ (if asks total index result then [index] else []);
             waiting := false |} in
        if goes_on w total index result
        then run_steps h ex w total (S index) rest st1
        else st1
    end.
Proof.
  cbn [run_steps].
  destruct (SandboxExecutor.executeStep _ _ _ _) as [[result|] effects']; [|reflexivity].
  unfold goes_on, asks. destruct (ExecutionResult.success result); simpl.
  - by rewrite andb_true_r, app_nil_r.
  - rewrite andb_false_r. destruct (index <? total - 1); simpl.
    + destruct (continueExecution w index); reflexivity.
    + by rewrite app_nil_r.
Qed.

Lemma run_steps_spawn steps : forall index st cmd args o,
  SandboxExecutor.Spawn cmd args o ∈ effects (run_steps h ex w total index steps st) ->
  SandboxExecutor.Spawn cmd args o ∈ effects st
  \/ exists step, step ∈ steps
       /\ SandboxExecutor._parseCommand (Step.command step) = Some (cmd, args).
Proof.
  induction steps as [|step rest IH]; intros index st cmd args o; [by left|].
  rewrite run_steps_cons.
  destruct (SandboxExecutor.executeStep _ _ _ _) as [[result|] effects'] eqn:He; cbv zeta.
  - intros Hin.
    assert (SandboxExecutor.Spawn cmd args o ∈ effects st ++ effects'
            \/ exists step, step ∈ rest
                 /\ SandboxExecutor._parseCommand (Step.command step) = Some (cmd, args))
      as [H|(s & Hs & Hp)].
    { destruct (goes_on w total index result); [by apply IH in Hin | by left]. }
    + apply elem_of_app in H as [H|H]; [by left|]. right. exists step.
      split; [apply list_elem_of_here|].
      apply (executeStep_spawns_parsed h ex (child w index) step cmd args o).
      by rewrite He.
    + right. exists s. split; [by apply list_elem_of_further | exact Hp].
  - simpl. intros Hin. apply elem_of_app in Hin as [H|H]; [by left|]. right.
    exists step. split; [apply list_elem_of_here|].
    apply (executeStep_spawns_parsed h ex (child w index) step cmd args o).
    by rewrite He.
Qed.

Lemma run_steps_results steps : forall index st,
  index + length steps = total ->
  waiting (run_steps h ex w total index steps st) = false ->
  exists rs,
    executionResults (run_steps h ex w total index steps st) = executionResults st ++ rs
    /\ length rs <= length steps
    /\ (forall i res, rs !! i = Some res ->
          exists step, steps !! i = Some step
            /\ fst (SandboxExecutor.executeStep h ex (child w (index + i)) step) = Some res)
    /\ allSuccessful (run_steps h ex w total index steps st)
       = allSuccessful st && forallb ExecutionResult.success rs
    /\ (forallb ExecutionResult.success rs = true -> length rs = length steps)
    /\ (length rs < length steps ->
          exists res, last rs = Some res /\ ExecutionResult.success res = false
            /\ continueExecution w (index + length rs - 1) = false)
    /\ (forall i, i ∈ asked (run_steps h ex w total index steps st)
          <-> i ∈ asked st
              \/ exists j res, i = index + j /\ rs !! j = Some res
                   /\ ExecutionResult.success res = false /\ i < total - 1).
Proof.
  induction steps as [|step rest IH]; intros index st Hlen Hw.
  { exists []. simpl. rewrite app_nil_r, andb_true_r.
    repeat split; try done; try lia.
    - by left.
    - intros [H|(j & res & _ & H & _)]; [done | by rewrite lookup_nil in H]. }
  rewrite run_steps_cons in *.
  destruct (SandboxExecutor.executeStep _ _ _ _) as [[result|] effects'] eqn:He;
    [|discriminate].
  cbv zeta in *.
  set (st1 := {| executionResults := executionResults st ++ [result];
                 allSuccessful := _; effects := _; asked := _; waiting := false |}) in *.
  destruct (goes_on w total index result) eqn:Hgo.
  - destruct (IH (S index) st1 ltac:(simpl in Hlen; lia) Hw)
      as (rs & Her & Hle & Hlook & Hall & Hfull & Hshort & Hask).
    exists (result :: rs).
    split; [rewrite Her; simpl; by rewrite <- app_assoc|].
    split; [simpl; lia|].
    split.
    { intros [|i] res Hi; simpl in Hi.
      - injection Hi as <-. exists step. split; [reflexivity|].
        by rewrite Nat.add_0_r, He.
      - destruct (Hlook i res Hi) as (s & Hs & Hx). exists s. split; [exact Hs|].
        by replace (index + S i) with (S index + i) by lia. }
    split; [rewrite Hall; simpl; by rewrite andb_assoc|].
    split.
    { simpl. intros H. apply andb_prop in H as [_ H]. by rewrite (Hfull H). }
    split.
    { simpl. intros Hlt. destruct (Hshort ltac:(lia)) as (res & Hl & Hf & Hc).
      exists res. split; [by rewrite last_cons, Hl|]. split; [exact Hf|].
      by replace (index + S (length rs) - 1) with (S index + length rs - 1) by lia. }
    intros i. rewrite Hask. simpl. rewrite elem_of_app. split.
    + intros [[H|H]|(j & res & -> & Hj & Hf & Hi)].
      * by left.
      * right. destruct (asks total index result) eqn:Ha; [|by apply elem_of_nil in H].
        apply list_elem_of_singleton in H. subst i.
        unfold asks in Ha. apply andb_prop in Ha as [Hf Hi].
        apply negb_true_iff in Hf. apply Nat.ltb_lt in Hi.
        exists 0, result. repeat split; [lia | exact Hf | lia].
      * right. exists (S j), res. repeat split; [lia | exact Hj | exact Hf | lia].
    + intros [H|(j & res & -> & Hj & Hf & Hi)]; [by left; left|].
      destruct j as [|j]; simpl in Hj.
      * injection Hj as <-. left. right. unfold asks. rewrite Hf.
        replace (index <? total - 1) with true by (symmetry; apply Nat.ltb_lt; lia).
        simpl. rewrite Nat.add_0_r. apply list_elem_of_here.
      * right. exists j, res. repeat split; [lia | exact Hj | exact Hf | lia].
  - unfold goes_on in Hgo.
    apply orb_false_elim in Hgo as [Hgo Hc]. apply orb_false_elim in Hgo as [Hf Hi].
    apply negb_false_iff in Hi.
    exists [result].
    split; [reflexivity|]. split; [simpl; lia|].
    split.
    { intros [|i] res Hi'; simpl in Hi'; [|by rewrite lookup_nil in Hi'].
      injection Hi' as <-. exists step. split; [reflexivity|].
      by rewrite Nat.add_0_r, He. }
    split; [simpl; by rewrite andb_true_r|].
    split; [simpl; rewrite Hf; discriminate|].
    split.
    { intros _. exists result. split; [reflexivity|]. split; [exact Hf|].
      simpl. by replace (index + 1 - 1) with index by lia. }
    intros i. simpl. unfold asks. rewrite Hf, Hi. simpl. rewrite elem_of_app.
    apply Nat.ltb_lt in Hi. split.
    + intros [H|H]; [by left|]. apply list_elem_of_singleton in H. subst i.
      right. exists 0, result. repeat split; [lia | exact Hf | lia].
    + intros [H|(j & res & -> & Hj & _ & _)]; [by left|]. right.
      destruct j as [|j]; simpl in Hj; [|by rewrite lookup_nil in Hj].
      rewrite Nat.add_0_r. apply list_elem_of_here.
Qed.

End Loop.

End ExecuteFacts.

(** X29.  Whatever [handleExecute] spawns is the parsed command of a step
    of a plan that was not run in plan-only mode, in which the validator
    allowed every step, and which the user confirmed unless the run was
    auto-approved or no step asked for confirmation or was rated high. *)
Theorem X29_spawned_commands_were_allowed_and_confirmed
    (RegExp : string -> option JsRegex.regex) (denylist : option Denylist.t)
    (h : Host.t) (ex : SandboxExecutor.t) (w : Execute.World)
    (options : Execute.Options) (steps : list Step.t)
    (cmd : string) (args : list string) (o : SandboxExecutor.SpawnOptions) :
  SandboxExecutor.Spawn cmd args o
    ∈ Execute.r_effects (Execute.handleExecute RegExp denylist h ex w options steps) ->
  Execute.planOnly options = false
  /\ Execute.initialize_throws w = false
  /\ (Execute.autoApprove options = true
      \/ Execute.proceed w = true
      \/ Execute.needs_confirmation steps (Validator.validatePlan RegExp denylist steps)
         = false)
  /\ Forall (fun step =>
               ValidationResult.allowed (Validator.validateStep RegExp denylist step) = true)
            steps
  /\ exists step, step ∈ steps
       /\ SandboxExecutor._parseCommand (Step.command step) = Some (cmd, args).
Proof.
  unfold Execute.handleExecute. cbv zeta.
  destruct (Validator.pv_allowed (Validator.validatePlan RegExp denylist steps)) eqn:Hall;
    cbn [negb]; [|by intros H; apply elem_of_nil in H].
  destruct (Execute.planOnly options); [by intros H; apply elem_of_nil in H|].
  destruct (negb (Execute.autoApprove options)
            && Execute.needs_confirmation steps (Validator.validatePlan RegExp denylist steps)
            && negb (Execute.proceed w)) eqn:Hconfirm;
    [by intros H; apply elem_of_nil in H|].
  destruct (Execute.initialize_throws w); [by intros H; apply elem_of_nil in H|].
  cbn [Execute.r_effects]. intros Hin.
  apply ExecuteFacts.run_steps_spawn in Hin as [Hin|Hstep];
    [by apply elem_of_nil in Hin|].
  split; [reflexivity|]. split; [reflexivity|]. split.
  { destruct (Execute.autoApprove options); [by left|].
    destruct (Execute.proceed w); [by right; left|].
    right. right. simpl in Hconfirm. by rewrite andb_true_r in Hconfirm. }
  split; [|exact Hstep].
  rewrite validatePlan_fields in Hall. cbv zeta in Hall. cbn [Validator.pv_allowed] in Hall.
  clear -Hall. induction steps as [|step steps IH]; [constructor|].
  cbn [map forallb] in Hall. apply andb_prop in Hall as [Hs Hall].
  constructor; [exact Hs | by apply IH].
Qed.

(** X29 at the plan of three steps: what is spawned for the first one. *)
Lemma X29_witness :
  Forall (fun step => ValidationResult.allowed (default_validateStep step) = true)
         execute_steps
  /\ exists step, step ∈ execute_steps
       /\ SandboxExecutor._parseCommand (Step.command step) = Some ("ls", ["-la"]).
Proof.
  apply (X29_spawned_commands_were_allowed_and_confirmed
           JsRegex.compile (Some Validator._getDefaultDenylist)
           c2_host c2_executor execute_world execute_options execute_steps
           "ls" ["-la"]
           {| SandboxExecutor.so_cwd := "/tmp/genesis-eleven-work";
              SandboxExecutor.so_stdio := ["pipe"; "pipe"; "pipe"];
              SandboxExecutor.so_env :=
                SandboxExecutor._getSandboxEnvironment c2_host c2_executor;
              SandboxExecutor.so_timeout := 30000;
              SandboxExecutor.so_shell := false |}).
  vm_compute. do 2 apply list_elem_of_further. apply list_elem_of_here.
Defined.

(** X30.  When [handleExecute] runs the plan to its summary, the results
    it logs are those of [executeStep] on the first steps of the plan, in
    order; the status is 'success' exactly when every result succeeded, and
    then every step was run; it stops before the end of the plan only after
    a failed step for which the user declined to go on; and the user is
    asked whether to go on exactly after the failed steps that are not the
    last step of the plan. *)
Theorem X30_results_are_a_prefix_of_the_plan
    (RegExp : string -> option JsRegex.regex) (denylist : option Denylist.t)
    (h : Host.t) (ex : SandboxExecutor.t) (w : Execute.World)
    (options : Execute.Options) (steps : list Step.t) (status : bool) :
  let r := Execute.handleExecute RegExp denylist h ex w options steps in
  Execute.r_ending r = Execute.Finished status ->
  length (Execute.r_results r) <= length steps
  /\ (forall i res, Execute.r_results r !! i = Some res ->
        exists step, steps !! i = Some step
          /\ fst (SandboxExecutor.executeStep h ex (Execute.child w i) step) = Some res)
  /\ status = forallb ExecutionResult.success (Execute.r_results r)
  /\ (status = true -> length (Execute.r_results r) = length steps)
  /\ (length (Execute.r_results r) < length steps ->
        exists res, last (Execute.r_results r) = Some res
          /\ ExecutionResult.success res = false
          /\ Execute.continueExecution w (length (Execute.r_results r) - 1) = false)
  /\ (forall i, i ∈ Execute.r_continue_asked r
        <-> exists res, Execute.r_results r !! i = Some res
              /\ ExecutionResult.success res = false /\ i < length steps - 1).
Proof.
  cbv zeta. unfold Execute.handleExecute. cbv zeta.
  destruct (negb (Validator.pv_allowed _)); [discriminate|].
  destruct (Execute.planOnly options); [discriminate|].
  destruct (_ && negb (Execute.proceed w)); [discriminate|].
  destruct (Execute.initialize_throws w); [discriminate|].
  cbn [Execute.r_ending Execute.r_results Execute.r_continue_asked].
  set (st0 := {| Execute.executionResults := []; Execute.allSuccessful := true;
                 Execute.effects := []; Execute.asked := []; Execute.waiting := false |}).
  destruct (Execute.waiting (Execute.run_steps h ex w (length steps) 0 steps st0)) eqn:Hw;
    [discriminate|].
  intros [= <-].
  destruct (ExecuteFacts.run_steps_results h ex w (length steps) steps 0 st0 eq_refl Hw)
    as (rs & Her & Hle & Hlook & Hall & Hfull & Hshort & Hask).
  simpl in Her. rewrite Her, Hall. simpl.
  split; [exact Hle|]. split; [exact Hlook|]. split; [reflexivity|].
  split; [exact Hfull|]. split; [exact Hshort|].
  intros i. rewrite Hask. simpl. split.
  - intros [H|(j & res & -> & Hj & Hf & Hi)]; [by apply elem_of_nil in H|].
    by exists res.
  - intros (res & Hi & Hf & Hlt). right. by exists i, res.
Qed.

(** X30 at the plan of three steps: the second step fails, the user
    declines, the third step is not run. *)
Lemma X30_witness :
  let r := Execute.handleExecute JsRegex.compile (Some Validator._getDefaultDenylist)
             c2_host c2_executor execute_world execute_options execute_steps in
  length (Execute.r_results r) = 2
  /\ (1 ∈ Execute.r_continue_asked r
      <-> exists res, Execute.r_results r !! 1 = Some res
            /\ ExecutionResult.success res = false /\ 1 < length execute_steps - 1).
Proof.
  pose proof (X30_results_are_a_prefix_of_the_plan
                JsRegex.compile (Some Validator._getDefaultDenylist)
                c2_host c2_executor execute_world execute_options execute_steps false)
    as H.
  cbv zeta in *.
  destruct H as (_ & _ & _ & _ & _ & Hask); [vm_compute; reflexivity|].
  split; [vm_compute; reflexivity | apply Hask].
Defined.
